(** * rcloneb: transfer registry, download queue, progress parser, navigation

    A shallow embedding of the Go packages [rclone] (rclone/rclone.go) and
    [queue], and of package [main]: the navigation, filter and selection of
    model.go, the key bindings of keys.go and the message loop (Update, its
    four handlers, startDownloads and runTransfers), followed by the
    properties proved about them.  The rendering of the views is not
    modelled.

    Conventions.
    - Go [string] is [string]; [[]byte] is [list ascii].
    - Go [int] and [int64] are [Z]; [len] of a slice is [Z.of_nat (length _)].
    - Go [float64] is binary64 of the Standard Library's [SpecFloat]
      (precision 53, exponent bound 1024), rounding to nearest even.
    - [map[string]*Transfer] is a [gmap string Transfer]: every pointer stored
      in the map is allocated by [Add] and owned by exactly one key.
    - Slices of [Item] live in a store of backing arrays, since the queue
      hands out both copies and pointers into its own array.
    - The mutexes are omitted: every method runs under the lock it takes, and
      the model is sequential. *)

From Stdlib Require Import ZArith Ascii String List Lia Bool.
From Stdlib Require Import SpecFloat.
From stdpp Require Import base option list gmap strings pretty.

Local Open Scope string_scope.
Local Open Scope list_scope.
Local Open Scope Z_scope.

(** ** float64 *)

Module Float64.

Definition prec : Z := 53.
Definition emax : Z := 1024.

Definition float64 : Type := spec_float.

(** The zero value of a float64 field. *)
Definition zero : float64 := S754_zero false.

(** [float64(n)] for an integer [n]: the nearest binary64. *)
Definition of_Z (n : Z) : float64 := binary_normalize prec emax n 0 false.

Definition mul (x y : float64) : float64 := SFmul prec emax x y.

Definition div (x y : float64) : float64 := SFdiv prec emax x y.

(** The float64 nearest to the quotient [n / d] of two integers. *)
Definition of_ratio (n d : positive) : float64 :=
  SFdiv prec emax (S754_finite false n 0) (S754_finite false d 0).

Definition min_int64 : Z := - 2 ^ 63.
Definition max_int64 : Z := 2 ^ 63 - 1.

(** The integer part of a finite float, rounded toward zero. *)
Definition trunc (s : bool) (m : positive) (e : Z) : Z :=
  let a := if 0 <=? e then Z.shiftl (Zpos m) e else Z.shiftr (Zpos m) (- e) in
  if s then - a else a.

(** [int64(f)]: the fraction is discarded.  For NaN, infinities and values
    outside int64 the Go specification leaves the result to the
    implementation; the value here is the one of amd64 (CVTTSD2SQ). *)
Definition to_int64 (f : float64) : Z :=
  match f with
  | S754_zero _ => 0
  | S754_finite s m e =>
      let z := trunc s m e in
      if (min_int64 <=? z) && (z <=? max_int64) then z else min_int64
  | _ => min_int64
  end.

End Float64.

Abbreviation float64 := Float64.float64.

(** ** Go standard library: the functions rclone.go calls

    These are models of library code, written from the Go documentation, for
    the inputs rclone.go can pass them. *)

Module strings.

Definition CR : ascii := "013"%char.
Definition LF : ascii := "010"%char.

(** [strings.IndexAny(s, chars)] for ASCII [chars]; [None] is Go's -1. *)
Fixpoint IndexAny (s : list ascii) (chars : list ascii) : option nat :=
  match s with
  | [] => None
  | c :: s' =>
      if existsb (Ascii.eqb c) chars then Some 0%nat
      else S <$> IndexAny s' chars
  end.

Definition upper (c : ascii) : ascii :=
  let n := nat_of_ascii c in
  if (97 <=? n)%nat && (n <=? 122)%nat then ascii_of_nat (n - 32) else c.

(** [strings.ToUpper] on ASCII letters; other bytes are kept. *)
Fixpoint ToUpper (s : string) : string :=
  match s with
  | EmptyString => EmptyString
  | String c s' => String (upper c) (ToUpper s')
  end.

(** White space as [strings.TrimSpace] sees it, within ASCII. *)
Definition isSpace (c : ascii) : bool :=
  let n := nat_of_ascii c in
  ((9 <=? n)%nat && (n <=? 13)%nat) || (n =? 32)%nat.

Fixpoint trimLeft (s : list ascii) : list ascii :=
  match s with
  | c :: s' => if isSpace c then trimLeft s' else s
  | [] => []
  end.

Definition TrimSpace (s : string) : string :=
  string_of_list_ascii
    (rev (trimLeft (rev (trimLeft (list_ascii_of_string s))))).

Definition HasSuffix (s suffix : string) : bool :=
  let n := String.length s in
  let k := String.length suffix in
  (k <=? n)%nat && (substring (n - k) k s =? suffix)%string.

Definition TrimSuffix (s suffix : string) : string :=
  if HasSuffix s suffix
  then substring 0 (String.length s - String.length suffix) s
  else s.

(** [strings.Split(s, sep)] for a separator of one byte: the pieces between
    the separators, one more than there are separators. *)
Fixpoint Split (s : string) (sep : ascii) : list string :=
  match s with
  | EmptyString => [EmptyString]
  | String c s' =>
      if Ascii.eqb c sep then EmptyString :: Split s' sep
      else
        match Split s' sep with
        | piece :: pieces => String c piece :: pieces
        | [] => [String c EmptyString]
        end
  end.

End strings.

Module strconv.

Definition digit (c : ascii) : option Z :=
  let n := nat_of_ascii c in
  if (48 <=? n)%nat && (n <=? 57)%nat then Some (Z.of_nat (n - 48)) else None.

(** The decimal [s] read as mantissa and number of digits behind the point:
    digits with at most one point and at least one digit.  Any other byte,
    a second point or no digit at all is a syntax error. *)
Fixpoint readDecimal (s : string) (sawdot sawdigits : bool) (mant : Z)
    (frac : nat) : option (Z * nat) :=
  match s with
  | EmptyString => if sawdigits then Some (mant, frac) else None
  | String c s' =>
      if Ascii.eqb c "."%char then
        if sawdot then None else readDecimal s' true sawdigits mant frac
      else
        match digit c with
        | Some d =>
            readDecimal s' sawdot true (10 * mant + d)
              (if sawdot then S frac else frac)
        | None => None
        end
  end.

(** [strconv.ParseFloat(s, 64)] on strings of digits and points, which is
    all that statsRegex captures: the nearest float64 of the decimal, ties
    to even; [None] is a non-nil error, either of syntax or of range (the
    value rounds to infinity). Signs, exponents, hexadecimal and the
    spellings of infinity and NaN, which Go also accepts, are outside the
    alphabet and are not modelled. *)
Definition ParseFloat (s : string) : option float64 :=
  match readDecimal s false false 0 0%nat with
  | Some (Zpos p, frac) =>
      match Float64.of_ratio p (Z.to_pos (10 ^ Z.of_nat frac)) with
      | S754_infinity _ => None
      | f => Some f
      end
  | Some (_, _) => Some Float64.zero
  | None => None
  end.

End strconv.

Module regexp.

(** The regular expressions statsRegex is built from. *)
Inductive Regexp :=
| Lit (c : ascii)
| Class (ranges : list (ascii * ascii))
| Cat (r1 r2 : Regexp)
| Star (r : Regexp)
| Plus (r : Regexp)
| Quest (r : Regexp)
| Capture (n : nat) (r : Regexp).

Definition in_range (c : ascii) (r : ascii * ascii) : bool :=
  (nat_of_ascii (fst r) <=? nat_of_ascii c)%nat
  && (nat_of_ascii c <=? nat_of_ascii (snd r))%nat.

Definition in_class (c : ascii) (ranges : list (ascii * ascii)) : bool :=
  existsb (in_range c) ranges.

(** Where each group matched, as (start, end) offsets; group 0 is the whole
    match. *)
Definition Caps : Type := list (option (nat * nat)).

Definition Cont : Type := list ascii -> nat -> Caps -> option Caps.

(** A greedy repetition of [step]: one more round is tried before the
    continuation.  A round has to consume input, so that the length of the
    input bounds the number of rounds; [fuel] is that bound. *)
Fixpoint greedy (step : list ascii -> nat -> Caps -> Cont -> option Caps)
    (k : Cont) (fuel : nat) (s : list ascii) (pos : nat) (cs : Caps)
    : option Caps :=
  match fuel with
  | O => k s pos cs
  | S fuel' =>
      match
        step s pos cs
          (fun s' pos' cs' =>
             if (pos <? pos')%nat then greedy step k fuel' s' pos' cs'
             else None)
      with
      | Some res => Some res
      | None => k s pos cs
      end
  end.

(** Leftmost-first matching of [r] at the head of [s], which stands at
    offset [pos] of the subject: alternatives are tried in the order of
    preference (one more round before stopping, present before absent),
    and the first that lets the continuation succeed wins.  This is the
    match Go's regexp package reports for an expression without
    alternation.  The expression names ASCII bytes only, so that matching
    byte by byte is matching rune by rune. *)
Fixpoint run (r : Regexp) (s : list ascii) (pos : nat) (cs : Caps) (k : Cont)
    {struct r} : option Caps :=
  match r with
  | Lit c =>
      match s with
      | c' :: s' => if Ascii.eqb c c' then k s' (S pos) cs else None
      | [] => None
      end
  | Class ranges =>
      match s with
      | c' :: s' => if in_class c' ranges then k s' (S pos) cs else None
      | [] => None
      end
  | Cat r1 r2 => run r1 s pos cs (fun s' pos' cs' => run r2 s' pos' cs' k)
  | Star r1 => greedy (run r1) k (length s) s pos cs
  | Plus r1 =>
      run r1 s pos cs
        (fun s' pos' cs' => greedy (run r1) k (length s') s' pos' cs')
  | Quest r1 =>
      match run r1 s pos cs k with
      | Some res => Some res
      | None => k s pos cs
      end
  | Capture n r1 =>
      run r1 s pos cs
        (fun s' pos' cs' => k s' pos' (<[n := Some (pos, pos')]> cs'))
  end.

(** The number of the last group of [r]. *)
Fixpoint NumSubexp (r : Regexp) : nat :=
  match r with
  | Lit _ | Class _ => 0
  | Cat r1 r2 => Nat.max (NumSubexp r1) (NumSubexp r2)
  | Star r1 | Plus r1 | Quest r1 => NumSubexp r1
  | Capture n r1 => Nat.max n (NumSubexp r1)
  end.

(** The leftmost match: the first offset at which [r] matches. *)
Fixpoint search (r : Regexp) (s : list ascii) (pos : nat) (n : nat)
    : option Caps :=
  match
    run r s pos (replicate n None)
      (fun _ pos' cs => Some (<[0%nat := Some (pos, pos')]> cs))
  with
  | Some cs => Some cs
  | None =>
      match s with
      | [] => None
      | _ :: s' => search r s' (S pos) n
      end
  end.

Definition submatch (s : list ascii) (c : option (nat * nat)) : string :=
  match c with
  | Some (b, e) => string_of_list_ascii (take (e - b) (drop b s))
  | None => ""
  end.

(** [re.FindStringSubmatch(s)]: the text of the leftmost match and of its
    groups, or nil. *)
Definition FindStringSubmatch (r : Regexp) (s : string) : list string :=
  let l := list_ascii_of_string s in
  match search r l 0 (S (NumSubexp r)) with
  | Some cs => map (submatch l) cs
  | None => []
  end.

(** The literal [s] followed by [r]. *)
Fixpoint Str (s : string) (r : Regexp) : Regexp :=
  match s with
  | EmptyString => r
  | String c s' => Cat (Lit c) (Str s' r)
  end.

(** [\s], that is [\t\n\f\r ]. *)
Definition space : Regexp :=
  Class [("009", "010"); ("012", "013"); (" ", " ")]%char.

End regexp.

Module bufio.

(** A split function: from the data held and whether the input has ended,
    how far to advance and the token, if any. *)
Definition SplitFunc : Type := list ascii -> bool -> nat * option (list ascii).

(** The tokens [Scanner.Scan] delivers, one call after the other, until it
    returns false.  [pending] is the data read and not yet consumed,
    [reads] what the following calls of [Read] return, one chunk each, before
    the end of input, [atEOF] whether the end was seen.  When no token can
    be cut from [pending], the scanner stops if the input has ended or if
    [pending] has filled a buffer of [maxTokenSize] bytes (ErrTooLong), and
    reads on otherwise.  The split function is expected to advance within
    the data and to advance whenever it cuts a token, as the one of
    parseRcloneOutput does; the errors Scan raises otherwise are not
    modelled.  [None] when [fuel] does not suffice. *)
Fixpoint tokens (split : SplitFunc) (maxTokenSize : Z) (fuel : nat)
    (pending : list ascii) (reads : list (list ascii)) (atEOF : bool)
    : option (list (list ascii)) :=
  match fuel with
  | O => None
  | S fuel' =>
      let '(advance, token) :=
        if (0 <? length pending)%nat || atEOF then split pending atEOF
        else (0%nat, None) in
      let pending' := drop advance pending in
      match token with
      | Some t =>
          cons t <$> tokens split maxTokenSize fuel' pending' reads atEOF
      | None =>
          if atEOF then Some []
          else if maxTokenSize <=? Z.of_nat (length pending') then Some []
          else
            match reads with
            | [] => tokens split maxTokenSize fuel' pending' [] true
            | chunk :: reads' =>
                tokens split maxTokenSize fuel' (pending' ++ chunk) reads'
                  false
            end
      end
  end.

(** What is left to do for a scan: bytes to consume, chunks to take, and
    the end of input to see. *)
Definition todo (pending : list ascii) (reads : list (list ascii))
    (atEOF : bool) : nat :=
  (length pending + length (concat reads) + length reads
   + (if atEOF then 0 else 1))%nat.

(** Fuel for a scan of [reads]: a step delivers a token, takes a chunk or
    sees the end of input. *)
Definition steps (reads : list (list ascii)) : nat :=
  S (todo [] reads false).

End bufio.

(** ** package rclone: the transfer registry and the progress parser *)

Module rclone.

(** FileItem represents a file or directory from rclone *)
Record FileItem := mkFileItem {
  FileItem_Name : string;
  FileItem_Path : string;
  FileItem_Size : Z;
  FileItem_IsDir : bool;
  FileItem_ModTime : string
}.

Inductive TransferStatus :=
| StatusPending
| StatusInProgress
| StatusCompleted
| StatusFailed.

(** [time.Time] as an instant on an integer clock; 0 is the zero value. *)
Definition Time : Type := Z.

(** The [error] interface: nil or a message. *)
Definition error : Type := option string.

Record Transfer := mkTransfer {
  ID : string;
  Source : string;
  Destination : string;
  Status : TransferStatus;
  Progress : float64;
  BytesCopied : Z;
  BytesTotal : Z;
  Speed : string;
  StartTime : Time;
  EndTime : Time;
  Error : error
}.

Record TransferManager := mkTransferManager {
  transfers : gmap string Transfer
}.

Definition NewTransferManager : TransferManager :=
  {| transfers := ∅ |}.

(** Add adds a new transfer to the manager *)
Definition Add (m : TransferManager) (id source destination : string)
    (totalBytes : Z) : TransferManager :=
  {| transfers :=
       <[id := {| ID := id; Source := source; Destination := destination;
                  Status := StatusPending; Progress := Float64.zero;
                  BytesCopied := 0; BytesTotal := totalBytes; Speed := "";
                  StartTime := 0; EndTime := 0; Error := None |}]>
         (transfers m) |}.

(** Start marks a transfer as in progress; [now] is [time.Now()]. *)
Definition Start (m : TransferManager) (id : string) (now : Time)
    : TransferManager :=
  match transfers m !! id with
  | Some t =>
      {| transfers :=
           <[id := {| ID := ID t; Source := Source t;
                      Destination := Destination t;
                      Status := StatusInProgress; Progress := Progress t;
                      BytesCopied := BytesCopied t;
                      BytesTotal := BytesTotal t; Speed := Speed t;
                      StartTime := now; EndTime := EndTime t;
                      Error := Error t |}]> (transfers m) |}
  | None => m
  end.

(** UpdateProgress updates the progress of a transfer *)
Definition UpdateProgress (m : TransferManager) (id : string)
    (progress : float64) (bytesCopied bytesTotal : Z) (speed : string)
    : TransferManager :=
  match transfers m !! id with
  | Some t =>
      {| transfers :=
           <[id := {| ID := ID t; Source := Source t;
                      Destination := Destination t;
                      Status := Status t; Progress := progress;
                      BytesCopied := bytesCopied;
                      BytesTotal :=
                        if 0 <? bytesTotal then bytesTotal else BytesTotal t;
                      Speed := speed;
                      StartTime := StartTime t; EndTime := EndTime t;
                      Error := Error t |}]> (transfers m) |}
  | None => m
  end.

(** Complete marks a transfer as completed *)
Definition Complete (m : TransferManager) (id : string) (now : Time)
    : TransferManager :=
  match transfers m !! id with
  | Some t =>
      {| transfers :=
           <[id := {| ID := ID t; Source := Source t;
                      Destination := Destination t;
                      Status := StatusCompleted;
                      Progress := Float64.of_Z 100;
                      BytesCopied := BytesCopied t;
                      BytesTotal := BytesTotal t; Speed := Speed t;
                      StartTime := StartTime t; EndTime := now;
                      Error := Error t |}]> (transfers m) |}
  | None => m
  end.

(** Fail marks a transfer as failed *)
Definition Fail (m : TransferManager) (id : string) (err : error)
    (now : Time) : TransferManager :=
  match transfers m !! id with
  | Some t =>
      {| transfers :=
           <[id := {| ID := ID t; Source := Source t;
                      Destination := Destination t;
                      Status := StatusFailed; Progress := Progress t;
                      BytesCopied := BytesCopied t;
                      BytesTotal := BytesTotal t; Speed := Speed t;
                      StartTime := StartTime t; EndTime := now;
                      Error := err |}]> (transfers m) |}
  | None => m
  end.

(** Get returns a transfer by ID *)
Definition Get (m : TransferManager) (id : string) : option Transfer :=
  transfers m !! id.

(** The calls a client can make on a manager, with their arguments. *)
Inductive Call :=
| CallAdd (id source destination : string) (totalBytes : Z)
| CallStart (id : string) (now : Time)
| CallUpdateProgress (id : string) (progress : float64)
    (bytesCopied bytesTotal : Z) (speed : string)
| CallComplete (id : string) (now : Time)
| CallFail (id : string) (err : error) (now : Time).

Definition call (m : TransferManager) (c : Call) : TransferManager :=
  match c with
  | CallAdd id s d n => Add m id s d n
  | CallStart id now => Start m id now
  | CallUpdateProgress id p c t s => UpdateProgress m id p c t s
  | CallComplete id now => Complete m id now
  | CallFail id e now => Fail m id e now
  end.

Definition calls (m : TransferManager) (cs : list Call) : TransferManager :=
  fold_left call cs m.

Definition is_Add (c : Call) : bool :=
  match c with CallAdd _ _ _ _ => true | _ => false end.

Definition status_of (m : TransferManager) (id : string)
    : option TransferStatus :=
  Status <$> transfers m !! id.

(** *** Aggregates over the registry *)

(** GetAll returns all transfers.  Go ranges over the map in an order of its
    choice; the order here is the one of [map_to_list]. *)
Definition GetAll (m : TransferManager) : list Transfer :=
  (map_to_list (transfers m)).*2.

(** One round of the loop of Stats: the counter of the status goes up. *)
Definition tally (s : TransferStatus) (counts : Z * Z * Z * Z)
    : Z * Z * Z * Z :=
  let '(pending, inProgress, completed, failed) := counts in
  match s with
  | StatusPending => (pending + 1, inProgress, completed, failed)
  | StatusInProgress => (pending, inProgress + 1, completed, failed)
  | StatusCompleted => (pending, inProgress, completed + 1, failed)
  | StatusFailed => (pending, inProgress, completed, failed + 1)
  end.

(** Stats returns pending, in-progress, completed, and failed counts.  The
    counters are Go ints that count entries of the map, which cannot wrap. *)
Definition Stats (m : TransferManager) : Z * Z * Z * Z :=
  map_fold (fun _ t counts => tally (Status t) counts) (0, 0, 0, 0)
    (transfers m).

(** *** Listing remotes *)

(** What [rclone listremotes] gave: the command failed, or this output. *)
Inductive Listremotes :=
| ListremotesFailed (err : string)
| ListremotesOutput (output : string).

(** ListRemotes returns a list of configured rclone remotes *)
Definition ListRemotes (out : Listremotes) : list string * error :=
  match out with
  | ListremotesFailed err =>
      ([], Some ("failed to list remotes: " ++ err)%string)
  | ListremotesOutput output =>
      let lines := strings.Split (strings.TrimSpace output) strings.LF in
      (flat_map
         (fun line =>
            let line := strings.TrimSpace line in
            if negb (line =? "")%string
            then [strings.TrimSuffix line ":"] else [])
         lines,
       None)
  end.

(** *** Listing files *)

(** What [rclone lsjson] gave: the command failed, its output did not
    decode, or it decoded to these items. *)
Inductive Lsjson :=
| LsjsonFailed (err : string)
| LsjsonUndecodable (err : string)
| LsjsonItems (items : list FileItem).

(** ListFiles returns the files and directories at the given remote path:
    the paths are made full paths. *)
Definition ListFiles (remote path : string) (out : Lsjson)
    : list FileItem * error :=
  let remotePath := (remote ++ ":" ++ path)%string in
  match out with
  | LsjsonFailed err =>
      ([], Some ("failed to list files at " ++ remotePath ++ ": " ++ err)%string)
  | LsjsonUndecodable err =>
      ([], Some ("failed to parse file list: " ++ err)%string)
  | LsjsonItems items =>
      (map (fun it =>
              {| FileItem_Name := FileItem_Name it;
                 FileItem_Path :=
                   if (path =? "")%string then FileItem_Name it
                   else (path ++ "/" ++ FileItem_Name it)%string;
                 FileItem_Size := FileItem_Size it;
                 FileItem_IsDir := FileItem_IsDir it;
                 FileItem_ModTime := FileItem_ModTime it |}) items,
       None)
  end.

(** *** The progress parser *)

(** Regex to match "Transferred:" lines:
    [Transferred:\s+([0-9.]+)\s*([kKMGTP]i?[Bb]?)\s*/\s*([0-9.]+)\s*([kKMGTP]i?[Bb]?),\s*([0-9]+)%] *)
Definition number : regexp.Regexp :=
  regexp.Plus (regexp.Class [("0", "9"); (".", ".")]%char).

Definition unit : regexp.Regexp :=
  regexp.Cat
    (regexp.Class
       [("k", "k"); ("K", "K"); ("M", "M"); ("G", "G"); ("T", "T");
        ("P", "P")]%char)
    (regexp.Cat (regexp.Quest (regexp.Lit "i"))
       (regexp.Quest (regexp.Class [("B", "B"); ("b", "b")]%char))).

Definition statsRegex : regexp.Regexp :=
  regexp.Str "Transferred:"
    (regexp.Cat (regexp.Plus regexp.space)
    (regexp.Cat (regexp.Capture 1 number)
    (regexp.Cat (regexp.Star regexp.space)
    (regexp.Cat (regexp.Capture 2 unit)
    (regexp.Cat (regexp.Star regexp.space)
    (regexp.Cat (regexp.Lit "/")
    (regexp.Cat (regexp.Star regexp.space)
    (regexp.Cat (regexp.Capture 3 number)
    (regexp.Cat (regexp.Star regexp.space)
    (regexp.Cat (regexp.Capture 4 unit)
    (regexp.Cat (regexp.Lit ",")
    (regexp.Cat (regexp.Star regexp.space)
    (regexp.Cat (regexp.Capture 5 (regexp.Plus (regexp.Class [("0", "9")]%char)))
                (regexp.Lit "%")))))))))))))).

(** parseSize converts size string to bytes (e.g., "1.234" with unit "GiB") *)
Definition parseSize (value unit : string) : Z :=
  match strconv.ParseFloat value with
  | None => 0
  | Some val =>
      let unit := strings.ToUpper (strings.TrimSpace unit) in
      let unit := strings.TrimSuffix unit "B" in
      let unit := strings.TrimSuffix unit "I" in
      let multiplier :=
        if (unit =? "K")%string then 1024
        else if (unit =? "M")%string then 1024 * 1024
        else if (unit =? "G")%string then 1024 * 1024 * 1024
        else if (unit =? "T")%string then 1024 * 1024 * 1024 * 1024
        else if (unit =? "P")%string then 1024 * 1024 * 1024 * 1024 * 1024
        else 1 in
      Float64.to_int64 (Float64.mul val (Float64.of_Z multiplier))
  end.

(** The split function of parseRcloneOutput: handles both \r and \n. *)
Definition splitLines : bufio.SplitFunc := fun data atEOF =>
  if atEOF && (length data =? 0)%nat then (0%nat, None)
  else
    match strings.IndexAny data [strings.CR; strings.LF] with
    | Some i =>
        let token := take i data in
        let advance := (i + 1)%nat in
        let advance :=
          if (advance <? length data)%nat
             && bool_decide (data !! i = Some strings.CR)
             && bool_decide (data !! advance = Some strings.LF)
          then (advance + 1)%nat else advance in
        (advance, Some token)
    | None =>
        if atEOF then (length data, Some data) else (0%nat, None)
    end.

Definition maxTokenSize : Z := 1024 * 1024.

(** What the body of the scan loop extracts from one line: the percentage
    and the two byte counts, when the line matches and the percentage
    parses. *)
Definition decodeLine (line : string) : option (float64 * Z * Z) :=
  let matches := regexp.FindStringSubmatch statsRegex line in
  if (6 <=? length matches)%nat then
    match strconv.ParseFloat (nth 5 matches "") with
    | Some percentage =>
        Some (percentage,
              parseSize (nth 1 matches "") (nth 2 matches ""),
              parseSize (nth 3 matches "") (nth 4 matches ""))
    | None => None
    end
  else None.

(** The body of the scan loop. *)
Definition handleLine (transferID : string) (mgr : TransferManager)
    (line : string) : TransferManager :=
  if (line =? "")%string then mgr
  else
    match decodeLine line with
    | Some (percentage, copied, total) =>
        UpdateProgress mgr transferID percentage copied total ""
    | None => mgr
    end.

(** The tokens as [scanner.Text()] gives them, without those the loop
    skips ([if line == "" { continue }]). *)
Definition nonEmpty (tokens : list (list ascii)) : list string :=
  filter (fun l => l <> "") (string_of_list_ascii <$> tokens).

(** The lines the scan loop does not skip. *)
Definition scanLines (reads : list (list ascii)) : option (list string) :=
  nonEmpty
    <$> bufio.tokens splitLines maxTokenSize (bufio.steps reads) [] reads
          false.

(** parseRcloneOutput parses rclone stderr output to extract progress
    information; [reads] is what the reader delivers. *)
Definition parseRcloneOutput (reads : list (list ascii)) (transferID : string)
    (mgr : TransferManager) : option TransferManager :=
  (fun ts => fold_left (handleLine transferID) (map string_of_list_ascii ts) mgr)
    <$> bufio.tokens splitLines maxTokenSize (bufio.steps reads) [] reads
          false.

(** *** Copying one file *)

(** What the rclone process does, as CopyFile sees it: the pipe cannot be
    made, the process cannot be started, or it runs, writes [stderr] (in
    the chunks the reader gets) and ends with the result of [cmd.Wait()]. *)
Inductive Process :=
| PipeFailed (err : string)
| StartFailed (err : string)
| Exited (stderr : list (list ascii)) (err : error).

(** CopyFile copies a file from remote to local directory with progress
    updates via TransferManager.  The command line only reaches the
    process; [started] and [finished] are the two readings of the clock.
    The result is the error returned and the manager afterwards. *)
Definition CopyFile (manager : TransferManager) (transferID : string)
    (p : Process) (started finished : Time)
    : option (error * TransferManager) :=
  match p with
  | PipeFailed err =>
      Some (Some ("failed to create stderr pipe: " ++ err)%string, manager)
  | StartFailed err =>
      let manager := Start manager transferID started in
      Some (Some ("failed to start rclone: " ++ err)%string,
            Fail manager transferID (Some err) finished)
  | Exited stderr err =>
      let manager := Start manager transferID started in
      match parseRcloneOutput stderr transferID manager with
      | Some manager =>
          match err with
          | Some e => Some (Some e, Fail manager transferID (Some e) finished)
          | None => Some (None, Complete manager transferID finished)
          end
      | None => None
      end
  end.

(** *** Formatting sizes *)

Definition wrap64 (z : Z) : Z :=
  (z + 2 ^ 63) mod 2 ^ 64 - 2 ^ 63.

(** The loop of FormatSize,
    [for n := bytes / unit; n >= unit; n /= unit { div *= unit; exp++ }],
    from the values of [n], [div] and [exp] before a test of its condition;
    [None] when [fuel] rounds do not end it. *)
Fixpoint scale (fuel : nat) (n div exp : Z) : option (Z * Z) :=
  match fuel with
  | O => None
  | S fuel' =>
      if 1024 <=? n
      then scale fuel' (Z.quot n 1024) (wrap64 (div * 1024)) (exp + 1)
      else Some (div, exp)
  end.

(** [s[i]]; [None] is the panic of an index out of range. *)
Definition byteAt (s : string) (i : Z) : option ascii :=
  if 0 <=? i then String.get (Z.to_nat i) s else None.

Section Format.

(** [fmt.Sprintf("%d B", n)] and [fmt.Sprintf("%.1f %ciB", f, c)]: how
    package fmt writes a number is not modelled. *)
Variable Sprintf_d_B : Z -> string.
Variable Sprintf_1f_ciB : float64 -> ascii -> string.

(** FormatSize formats a file size in human-readable format; [None] is a
    panic of the index into "KMGTPE" (or a loop that does not end). *)
Definition FormatSize (bytes : Z) : option string :=
  if bytes <? 1024 then Some (Sprintf_d_B bytes)
  else
    match scale 64 (Z.quot bytes 1024) 1024 0 with
    | Some (div, exp) =>
        match byteAt "KMGTPE" exp with
        | Some c =>
            Some (Sprintf_1f_ciB
                    (Float64.div (Float64.of_Z bytes) (Float64.of_Z div)) c)
        | None => None
        end
    | None => None
    end.

End Format.

End rclone.

(** ** package queue: the download queue *)

Module queue.

Inductive ItemStatus :=
| StatusPending
| StatusDownloading
| StatusCompleted
| StatusError.

Definition ItemStatus_eqb (a b : ItemStatus) : bool :=
  match a, b with
  | StatusPending, StatusPending
  | StatusDownloading, StatusDownloading
  | StatusCompleted, StatusCompleted
  | StatusError, StatusError => true
  | _, _ => false
  end.

(** Item represents a file or directory in the download queue *)
Record Item := mkItem {
  Remote : string;
  Path : string;
  Name : string;
  Size : Z;
  IsDir : bool;
  Status : ItemStatus;
  Progress : float64;
  Speed : string;
  Error : rclone.error
}.

(** The zero value of [Item], as [make] fills a fresh array with. *)
Definition zeroItem : Item :=
  {| Remote := ""; Path := ""; Name := ""; Size := 0; IsDir := false;
     Status := StatusPending; Progress := Float64.zero; Speed := "";
     Error := None |}.

(** *** Slices of items

    The store holds the backing arrays ever allocated; an array is named by
    its position in the store and is never freed.  A slice header names an
    array, an offset into it and a length; its capacity is what is left of
    the array after the offset. *)

Record Slice := mkSlice {
  base : nat;
  off : nat;
  len : nat
}.

(** A pointer [&s[i]]: an array and a position in it. *)
Record Ptr := mkPtr {
  p_base : nat;
  p_index : nat
}.

Definition backing (h : list (list Item)) (s : Slice) : list Item :=
  default [] (h !! base s).

Definition cap (h : list (list Item)) (s : Slice) : nat :=
  (length (backing h s) - off s)%nat.

(** The elements [s[0], ..., s[len(s)-1]]. *)
Definition read (h : list (list Item)) (s : Slice) : list Item :=
  take (len s) (drop (off s) (backing h s)).

(** [s[i] = x] for [i] below [len(s)]. *)
Definition store_elem (h : list (list Item)) (s : Slice) (i : nat) (x : Item)
    : list (list Item) :=
  <[base s := <[(off s + i)%nat := x]> (backing h s)]> h.

(** [*p] and [*p = x]. *)
Definition load_ptr (h : list (list Item)) (p : Ptr) : option Item :=
  default [] (h !! p_base p) !! p_index p.

Definition store_ptr (h : list (list Item)) (p : Ptr) (x : Item)
    : list (list Item) :=
  <[p_base p := <[p_index p := x]> (default [] (h !! p_base p))]> h.

(** [s[:i]] keeps the capacity; [s[i:]] moves the offset. *)
Definition slice_to (s : Slice) (i : nat) : Slice :=
  {| base := base s; off := off s; len := i |}.

Definition slice_from (s : Slice) (i : nat) : Slice :=
  {| base := base s; off := (off s + i)%nat; len := (len s - i)%nat |}.

(** [make([]Item, n)]: a fresh array of [n] zero items. *)
Definition make (h : list (list Item)) (n : nat) : list (list Item) * Slice :=
  (h ++ [replicate n zeroItem], {| base := length h; off := 0; len := n |}).

(** Overwrite [a[i], a[i+1], ...] with [xs], which fits. *)
Definition blit (a : list Item) (i : nat) (xs : list Item) : list Item :=
  take i a ++ xs ++ drop (i + length xs) a.

(** [copy(dst, src)]: the first [min(len(dst), len(src))] elements. *)
Definition copy (h : list (list Item)) (dst src : Slice) : list (list Item) :=
  let xs := take (len dst) (read h src) in
  <[base dst := blit (backing h dst) (off dst) xs]> h.

Section Append.

(** The capacity the runtime picks when [append] has to grow an array of the
    given capacity to hold at least the given number of elements; it is a
    detail of the Go runtime (growslice), and nothing below depends on it. *)
Variable growslice : nat -> nat -> nat.

Definition newcap (oldcap needed : nat) : nat :=
  Nat.max needed (growslice oldcap needed).

(** [append(s, xs...)]: in place when the capacity allows, in a fresh array
    otherwise.  [xs] are the appended values, read before anything is
    written (the runtime uses memmove). *)
Definition append (h : list (list Item)) (s : Slice) (xs : list Item)
    : list (list Item) * Slice :=
  let n := (len s + length xs)%nat in
  if (n <=? cap h s)%nat then
    (<[base s := blit (backing h s) (off s + len s) xs]> h,
     {| base := base s; off := off s; len := n |})
  else
    (h ++ [read h s ++ xs ++ replicate (newcap (cap h s) n - n) zeroItem],
     {| base := length h; off := 0; len := n |}).

(** *** The queue

    [heap] is the store of arrays the program holds, [items] the slice
    header in the [Queue] struct. *)
Record Queue := mkQueue {
  heap : list (list Item);
  items : Slice
}.

Definition elems (q : Queue) : list Item := read (heap q) (items q).

(** New creates a new download queue *)
Definition New : Queue :=
  let '(h, s) := make [] 0 in {| heap := h; items := s |}.

Definition same_key (remote path : string) (item : Item) : bool :=
  (Remote item =? remote)%string && (Path item =? path)%string.

(** The item Add makes of a file: the fields not named are zero. *)
Definition newItem (remote : string) (file : rclone.FileItem) : Item :=
  {| Remote := remote;
     Path := rclone.FileItem_Path file;
     Name := rclone.FileItem_Name file;
     Size := rclone.FileItem_Size file;
     IsDir := rclone.FileItem_IsDir file;
     Status := StatusPending;
     Progress := Float64.zero; Speed := ""; Error := None |}.

(** Add adds a file or directory to the queue *)
Definition Add (q : Queue) (remote : string) (file : rclone.FileItem)
    : Queue :=
  if existsb (same_key remote (rclone.FileItem_Path file)) (elems q) then q
  else
    let '(h, s) := append (heap q) (items q) [newItem remote file] in
    {| heap := h; items := s |}.

(** Remove removes an item from the queue by index *)
Definition Remove (q : Queue) (index : Z) : Queue :=
  if (0 <=? index) && (index <? Z.of_nat (len (items q))) then
    let i := Z.to_nat index in
    let '(h, s) :=
      append (heap q) (slice_to (items q) i)
        (read (heap q) (slice_from (items q) (i + 1))) in
    {| heap := h; items := s |}
  else q.

(** Items returns a copy of the queue items *)
Definition Items (q : Queue) : Slice * Queue :=
  let '(h, result) := make (heap q) (len (items q)) in
  (result, {| heap := copy h result (items q); items := items q |}).

(** Len returns the number of items in the queue *)
Definition Len (q : Queue) : Z := Z.of_nat (len (items q)).

(** Clear removes all items from the queue *)
Definition Clear (q : Queue) : Queue :=
  let '(h, s) := make (heap q) 0 in {| heap := h; items := s |}.

(** The first index of [l] whose element satisfies [p], as the loops
    [for i := range q.items { if ... { ...; break } }] find it. *)
Fixpoint index_where (p : Item -> bool) (l : list Item) : option nat :=
  match l with
  | [] => None
  | x :: l' => if p x then Some 0%nat else S <$> index_where p l'
  end.

(** [it] after [it.Progress = progress; it.Speed = speed;
    it.Status = StatusDownloading]. *)
Definition progressed (progress : float64) (speed : string) (it : Item)
    : Item :=
  {| Remote := Remote it; Path := Path it; Name := Name it; Size := Size it;
     IsDir := IsDir it; Status := StatusDownloading; Progress := progress;
     Speed := speed; Error := Error it |}.

(** UpdateProgress updates the progress of an item *)
Definition UpdateProgress (q : Queue) (path : string) (progress : float64)
    (speed : string) : Queue :=
  match index_where (fun it => (Path it =? path)%string) (elems q) with
  | Some i =>
      match elems q !! i with
      | Some it =>
          {| heap :=
               store_elem (heap q) (items q) i (progressed progress speed it);
             items := items q |}
      | None => q
      end
  | None => q
  end.

(** [it] after [it.Status = status; it.Error = err] and, for
    StatusCompleted, [it.Progress = 100]. *)
Definition with_status (status : ItemStatus) (err : rclone.error) (it : Item)
    : Item :=
  {| Remote := Remote it; Path := Path it; Name := Name it; Size := Size it;
     IsDir := IsDir it; Status := status;
     Progress := if ItemStatus_eqb status StatusCompleted
                 then Float64.of_Z 100 else Progress it;
     Speed := Speed it; Error := err |}.

(** SetStatus sets the status of an item *)
Definition SetStatus (q : Queue) (path : string) (status : ItemStatus)
    (err : rclone.error) : Queue :=
  match index_where (fun it => (Path it =? path)%string) (elems q) with
  | Some i =>
      match elems q !! i with
      | Some it =>
          {| heap :=
               store_elem (heap q) (items q) i (with_status status err it);
             items := items q |}
      | None => q
      end
  | None => q
  end.

(** GetNextPending returns the next pending item, or nil if none: the
    result is [&q.items[i]]. *)
Definition GetNextPending (q : Queue) : option Ptr :=
  match index_where (fun it => ItemStatus_eqb (Status it) StatusPending)
          (elems q) with
  | Some i => Some {| p_base := base (items q);
                      p_index := (off (items q) + i)%nat |}
  | None => None
  end.

(** HasPending returns true if there are pending items *)
Definition HasPending (q : Queue) : bool :=
  existsb (fun it => ItemStatus_eqb (Status it) StatusPending) (elems q).

(** Contains checks if a path is already in the queue *)
Definition Contains (q : Queue) (remote path : string) : bool :=
  existsb (same_key remote path) (elems q).

(** TotalSize returns the total size of all items in the queue; the sum
    is an int64 and wraps. *)
Definition TotalSize (q : Queue) : Z :=
  fold_left (fun total item => rclone.wrap64 (total + Size item)) (elems q) 0.

(** What a holder of a value returned by an accessor can do to it. *)
Definition write_slice (q : Queue) (s : Slice) (i : nat) (x : Item) : Queue :=
  {| heap := store_elem (heap q) s i x; items := items q |}.

Definition write_ptr (q : Queue) (p : Ptr) (x : Item) : Queue :=
  {| heap := store_ptr (heap q) p x; items := items q |}.

(** The methods of [Queue] that a client can call. *)
Inductive Call :=
| CallAdd (remote : string) (file : rclone.FileItem)
| CallRemove (index : Z)
| CallItems
| CallClear
| CallUpdateProgress (path : string) (progress : float64) (speed : string)
| CallSetStatus (path : string) (status : ItemStatus) (err : rclone.error)
| CallGetNextPending.

Definition call (q : Queue) (c : Call) : Queue :=
  match c with
  | CallAdd r f => Add q r f
  | CallRemove i => Remove q i
  | CallItems => snd (Items q)
  | CallClear => Clear q
  | CallUpdateProgress p pr sp => UpdateProgress q p pr sp
  | CallSetStatus p st e => SetStatus q p st e
  | CallGetNextPending => q
  end.

Definition calls (q : Queue) (cs : list Call) : Queue := fold_left call cs q.

Definition adds (q : Queue) (l : list (string * rclone.FileItem)) : Queue :=
  fold_left (fun q a => Add q (fst a) (snd a)) l q.

End Append.

(** A growth policy for [append], for running examples: doubling. *)
Definition double_cap (oldcap needed : nat) : nat := (2 * oldcap)%nat.

(** The (remote, path) pair that identifies an item. *)
Definition key (it : Item) : string * string := (Remote it, Path it).

Definition add_key (a : string * rclone.FileItem) : string * string :=
  (fst a, rclone.FileItem_Path (snd a)).

(** The slice header names an array of the store and stays within it. *)
Definition wf (q : Queue) : Prop :=
  exists a, heap q !! base (items q) = Some a
            /\ (off (items q) + len (items q) <= length a)%nat.

End queue.

(** ** package main: the model, its navigation and the message loop *)

Module main.

Inductive AppState :=
| StateRemoteSelect
| StateFileBrowser
| StateQueueView
| StateTransferView.

(** The fields of [Model] that navigation reads or writes; [filterInput] is
    the value held by the text input. *)
Record Model := mkModel {
  state : AppState;
  currentRemote : string;
  currentPath : string;
  pathStack : list string;
  fileIndex : Z;
  filterMode : bool;
  filterInput : string;
  filterText : string;
  loading : bool
}.

(** enterDirectory enters a directory *)
Definition enterDirectory (m : Model) (dir : string) : Model :=
  {| state := state m;
     currentRemote := currentRemote m;
     currentPath :=
       if (currentPath m =? "")%string then dir
       else (currentPath m ++ "/" ++ dir)%string;
     pathStack := pathStack m ++ [currentPath m];
     fileIndex := 0;
     filterMode := filterMode m;
     filterInput := "";
     filterText := "";
     loading := loading m |}.

(** goBack navigates to the parent directory *)
Definition goBack (m : Model) : bool * Model :=
  if (0 <? length (pathStack m))%nat then
    (true,
     {| state := state m;
        currentRemote := currentRemote m;
        currentPath :=
          default "" (pathStack m !! (length (pathStack m) - 1)%nat);
        pathStack := take (length (pathStack m) - 1)%nat (pathStack m);
        fileIndex := 0;
        filterMode := filterMode m;
        filterInput := "";
        filterText := "";
        loading := loading m |})
  else (false, m).

(** *** The file browser: filter, selection and queueing (model.go) *)

(** BrowserItem extends FileItem with selection state *)
Record BrowserItem := mkBrowserItem {
  FileItem : rclone.FileItem;
  Selected : bool
}.

(** [Model] as the views other than navigation use it: the navigation
    fields above, and the data shown.  [queue] is the queue [m.queue] points
    to and [transferMgr] the manager [m.transferMgr] points to, if any;
    [files] is the slice [m.files], of which the program keeps one header
    only.  The terminal's fields (width, height, spinner, progress bar), the
    cancellation context and the key map, which is never changed, are left
    out. *)
Record App := mkApp {
  nav : Model;
  remotes : list string;
  selectedIndex : Z;
  files : list BrowserItem;
  queue : queue.Queue;
  transferMgr : option rclone.TransferManager;
  err : rclone.error
}.

(** [sr] after [if sr >= 'A' && sr <= 'Z' { sr += 'a' - 'A' }]. *)
Definition lower (c : ascii) : ascii :=
  let n := nat_of_ascii c in
  if (65 <=? n)%nat && (n <=? 90)%nat then ascii_of_nat (n + 32) else c.

Definition equalFold (s t : string) : bool :=
  if negb (String.length s =? String.length t)%nat then false
  else
    forallb
      (fun i =>
         match String.get i s, String.get i t with
         | Some sr, Some tr => Ascii.eqb (lower sr) (lower tr)
         | _, _ => false
         end)
      (seq 0 (String.length s)).

(** The loop runs [i] from 0 to [len(s)-len(substr)], and not at all when
    that is negative. *)
Definition containsFold (s substr : string) : bool :=
  existsb
    (fun i => equalFold (substring i (String.length substr) s) substr)
    (seq 0
       (Z.to_nat
          (Z.of_nat (String.length s) - Z.of_nat (String.length substr) + 1))).

(** containsIgnoreCase checks if s contains substr (case-insensitive) *)
Definition containsIgnoreCase (s substr : string) : bool :=
  (String.length substr =? 0)%nat
  || ((String.length substr <=? String.length s)%nat && containsFold s substr).

(** filteredFiles returns files matching the current filter *)
Definition filteredFiles (m : App) : list BrowserItem :=
  if (filterText (nav m) =? "")%string then files m
  else
    List.filter
      (fun f =>
         containsIgnoreCase (rclone.FileItem_Name (FileItem f))
           (filterText (nav m)))
      (files m).

(** The loop
    [for i := range m.files { if m.files[i].Path == path {
       m.files[i].Selected = ...; break } }]:
    the flag of the first file of the path becomes [flag] of what it was. *)
Fixpoint set_first (path : string) (flag : bool -> bool)
    (l : list BrowserItem) : list BrowserItem :=
  match l with
  | [] => []
  | f :: l' =>
      if (rclone.FileItem_Path (FileItem f) =? path)%string
      then {| FileItem := FileItem f; Selected := flag (Selected f) |} :: l'
      else f :: set_first path flag l'
  end.

Definition with_files (m : App) (fs : list BrowserItem) : App :=
  {| nav := nav m; remotes := remotes m; selectedIndex := selectedIndex m;
     files := fs; queue := queue m; transferMgr := transferMgr m;
     err := err m |}.

(** toggleSelection toggles selection of the current file *)
Definition toggleSelection (m : App) : App :=
  let shown := filteredFiles m in
  if (0 <=? fileIndex (nav m))
     && (fileIndex (nav m) <? Z.of_nat (length shown))
  then
    match shown !! Z.to_nat (fileIndex (nav m)) with
    | Some f =>
        with_files m
          (set_first (rclone.FileItem_Path (FileItem f)) negb (files m))
    | None => m
    end
  else m.

(** selectAll toggles all visible files and directories.  The second loop
    ranges over the files shown while it writes flags into [m.files], which
    may be the same array; it reads paths only, and those are not written. *)
Definition selectAll (m : App) : App :=
  let shown := filteredFiles m in
  let allSelected := forallb Selected shown in
  with_files m
    (fold_left
       (fun fs f =>
          set_first (rclone.FileItem_Path (FileItem f))
            (fun _ => negb allSelected) fs)
       shown (files m)).

Section Queueing.

Variable growslice : nat -> nat -> nat.

(** addSelectedToQueue adds all selected files and directories to the
    queue *)
Definition addSelectedToQueue (m : App) : App :=
  {| nav := nav m; remotes := remotes m; selectedIndex := selectedIndex m;
     files :=
       map (fun f => {| FileItem := FileItem f; Selected := false |})
         (files m);
     queue :=
       fold_left
         (fun q f =>
            if Selected f
            then queue.Add growslice q (currentRemote (nav m)) (FileItem f)
            else q)
         (files m) (queue m);
     transferMgr := transferMgr m;
     err := err m |}.

End Queueing.

(** *** Key bindings (keys.go) *)

(** A binding is the list of the keys bound; no binding is ever disabled. *)
Record KeyMap := mkKeyMap {
  Up : list string;
  Down : list string;
  Left : list string;
  Right : list string;
  Enter : list string;
  Back : list string;
  Select : list string;
  SelectAll : list string;
  Queue : list string;
  Filter : list string;
  Escape : list string;
  Quit : list string;
  Help : list string;
  Start : list string;
  Remove : list string;
  Refresh : list string
}.

(** DefaultKeyMap returns the default keybindings *)
Definition DefaultKeyMap : KeyMap :=
  {| Up := ["k"; "up"];
     Down := ["j"; "down"];
     Left := ["h"; "left"; "backspace"];
     Right := ["l"; "right"];
     Enter := ["enter"];
     Back := ["backspace"; "h"; "left"];
     Select := [" "];
     SelectAll := ["a"];
     Queue := ["q"];
     Filter := ["/"];
     Escape := ["esc"];
     Quit := ["ctrl+c"];
     Help := ["?"];
     Start := ["s"];
     Remove := ["d"; "x"];
     Refresh := ["r"] |}.

(** [key.Matches(msg, binding)], for the key message whose [String()] is
    [key]. *)
Definition Matches (key : string) (binding : list string) : bool :=
  existsb (String.eqb key) binding.

(** *** Messages and commands (bubbletea) *)

(** The messages Update tells apart; a key message is given by its
    [String()].  [otherMsg] is any other message. *)
Inductive Msg :=
| WindowSizeMsg (width height : Z)
| KeyMsg (key : string)
| spinnerTickMsg
| progressFrameMsg
| remotesLoadedMsg (remotes : list string) (err : rclone.error)
| filesLoadedMsg (files : list rclone.FileItem) (err : rclone.error)
| tickMsg
| otherMsg.

(** The commands Update returns: none (nil, or a batch of nothing), tea.Quit,
    the batch of [m.loadFiles()], which lists [path] of [remote], with the
    tick of the spinner, [tickCmd()], or the command a widget (spinner,
    progress bar, text input) returned. *)
Inductive Cmd :=
| CmdNone
| CmdQuit
| CmdLoadFiles (remote path : string)
| CmdTick
| CmdWidget.

(** *** Update (the message loop) *)

Definition with_nav (m : App) (n : Model) : App :=
  {| nav := n; remotes := remotes m; selectedIndex := selectedIndex m;
     files := files m; queue := queue m; transferMgr := transferMgr m;
     err := err m |}.

Definition with_selectedIndex (m : App) (i : Z) : App :=
  {| nav := nav m; remotes := remotes m; selectedIndex := i;
     files := files m; queue := queue m; transferMgr := transferMgr m;
     err := err m |}.

Definition with_queue (m : App) (q : queue.Queue) : App :=
  {| nav := nav m; remotes := remotes m; selectedIndex := selectedIndex m;
     files := files m; queue := q; transferMgr := transferMgr m;
     err := err m |}.

Definition with_state (n : Model) (s : AppState) : Model :=
  {| state := s; currentRemote := currentRemote n;
     currentPath := currentPath n; pathStack := pathStack n;
     fileIndex := fileIndex n; filterMode := filterMode n;
     filterInput := filterInput n; filterText := filterText n;
     loading := loading n |}.

Definition with_fileIndex (n : Model) (i : Z) : Model :=
  {| state := state n; currentRemote := currentRemote n;
     currentPath := currentPath n; pathStack := pathStack n;
     fileIndex := i; filterMode := filterMode n;
     filterInput := filterInput n; filterText := filterText n;
     loading := loading n |}.

Definition with_loading (n : Model) (b : bool) : Model :=
  {| state := state n; currentRemote := currentRemote n;
     currentPath := currentPath n; pathStack := pathStack n;
     fileIndex := fileIndex n; filterMode := filterMode n;
     filterInput := filterInput n; filterText := filterText n;
     loading := b |}.

(** [s[i]] of a slice; [None] is the panic of an index out of range. *)
Definition index {A} (s : list A) (i : Z) : option A :=
  if 0 <=? i then s !! Z.to_nat i else None.

(** [fmt.Sprintf("transfer_%d", i)] *)
Definition transferID (i : nat) : string :=
  "transfer_" ++ pretty (Z.of_nat i).

(** The loop of startDownloads over [items], from the index [i]. *)
Fixpoint addTransfers (mgr : rclone.TransferManager) (cwd : string) (i : nat)
    (items : list queue.Item) : rclone.TransferManager :=
  match items with
  | [] => mgr
  | item :: items' =>
      addTransfers
        (rclone.Add mgr (transferID i)
           (queue.Remote item ++ ":" ++ queue.Path item) cwd
           (queue.Size item))
        cwd (S i) items'
  end.

(** The loop of runTransfers over [items], from the index [i].
    [cancelled i] tells whether the context is done when the turn of item
    [i] comes, and [run i] what the rclone process of item [i] does and the
    two readings of the clock.  [None] as for CopyFile. *)
Fixpoint copyFiles (mgr : rclone.TransferManager)
    (cancelled : nat -> bool)
    (run : nat -> rclone.Process * rclone.Time * rclone.Time) (i : nat)
    (items : list queue.Item) : option rclone.TransferManager :=
  match items with
  | [] => Some mgr
  | item :: items' =>
      if cancelled i then Some mgr
      else
        let '(p, started, finished) := run i in
        match rclone.CopyFile mgr (transferID i) p started finished with
        | Some (_, mgr') => copyFiles mgr' cancelled run (S i) items'
        | None => None
        end
  end.

(** runTransfers runs all transfers sequentially in a background
    goroutine; [q] is the queue and [mgr] the manager when it runs. *)
Definition runTransfers (q : queue.Queue) (mgr : rclone.TransferManager)
    (cancelled : nat -> bool)
    (run : nat -> rclone.Process * rclone.Time * rclone.Time)
    : option (queue.Queue * rclone.TransferManager) :=
  let '(items, q') := queue.Items q in
  match copyFiles mgr cancelled run 0 (queue.read (queue.heap q') items) with
  | Some mgr' => Some (q', mgr')
  | None => None
  end.

Section Views.

Variable growslice : nat -> nat -> nat.

(** The working directory [os.Getwd()] returns, or "." when it fails. *)
Variable cwd : string.

(** startDownloads initializes the transfer manager and starts downloads:
    the result is the model afterwards; the goroutine started is
    [runTransfers] and the command returned is [tickCmd()]. *)
Definition startDownloads (m : App) : App :=
  let '(items, q') := queue.Items (queue m) in
  {| nav := nav m; remotes := remotes m; selectedIndex := selectedIndex m;
     files := files m; queue := q';
     transferMgr :=
       Some (addTransfers rclone.NewTransferManager cwd 0
               (queue.read (queue.heap q') items));
     err := err m |}.

(** updateRemoteSelect handles input in remote selection view *)
Definition updateRemoteSelect (m : App) (key : string)
    : option (App * Cmd) :=
  if Matches key (Up DefaultKeyMap) then
    Some (if 0 <? selectedIndex m
          then with_selectedIndex m (selectedIndex m - 1) else m,
          CmdNone)
  else if Matches key (Down DefaultKeyMap) then
    Some (if selectedIndex m <? Z.of_nat (length (remotes m)) - 1
          then with_selectedIndex m (selectedIndex m + 1) else m,
          CmdNone)
  else if Matches key (Enter DefaultKeyMap)
          || Matches key (Right DefaultKeyMap) then
    if (0 <? length (remotes m))%nat then
      match index (remotes m) (selectedIndex m) with
      | Some remote =>
          Some (with_nav m
                  {| state := StateFileBrowser;
                     currentRemote := remote;
                     currentPath := "";
                     pathStack := [];
                     fileIndex := 0;
                     filterMode := filterMode (nav m);
                     filterInput := filterInput (nav m);
                     filterText := filterText (nav m);
                     loading := true |},
                CmdLoadFiles remote "")
      | None => None
      end
    else Some (m, CmdNone)
  else if (key =? "q")%string then Some (m, CmdQuit)
  else Some (m, CmdNone).

(** updateFileBrowser handles input in file browser view.  [typed] is the
    value the text input holds after it has handled the key. *)
Definition updateFileBrowser (m : App) (key : string) (typed : string)
    : option (App * Cmd) :=
  let n := nav m in
  if filterMode n then
    if Matches key (Escape DefaultKeyMap) then
      Some (with_nav m
              {| state := state n; currentRemote := currentRemote n;
                 currentPath := currentPath n; pathStack := pathStack n;
                 fileIndex := 0; filterMode := false; filterInput := "";
                 filterText := ""; loading := loading n |},
            CmdNone)
    else if (key =? "enter")%string then
      Some (with_nav m
              {| state := state n; currentRemote := currentRemote n;
                 currentPath := currentPath n; pathStack := pathStack n;
                 fileIndex := 0; filterMode := false;
                 filterInput := filterInput n;
                 filterText := filterInput n; loading := loading n |},
            CmdNone)
    else
      Some (with_nav m
              {| state := state n; currentRemote := currentRemote n;
                 currentPath := currentPath n; pathStack := pathStack n;
                 fileIndex := 0; filterMode := true; filterInput := typed;
                 filterText := typed; loading := loading n |},
            CmdWidget)
  else
    let shown := filteredFiles m in
    if Matches key (Up DefaultKeyMap) then
      Some (if 0 <? fileIndex n
            then with_nav m (with_fileIndex n (fileIndex n - 1)) else m,
            CmdNone)
    else if Matches key (Down DefaultKeyMap) then
      Some (if fileIndex n <? Z.of_nat (length shown) - 1
            then with_nav m (with_fileIndex n (fileIndex n + 1)) else m,
            CmdNone)
    else if Matches key (Enter DefaultKeyMap)
            || Matches key (Right DefaultKeyMap) then
      if (0 <=? fileIndex n) && (fileIndex n <? Z.of_nat (length shown)) then
        match index shown (fileIndex n) with
        | Some f =>
            if rclone.FileItem_IsDir (FileItem f) then
              let n' :=
                with_loading
                  (enterDirectory n (rclone.FileItem_Name (FileItem f)))
                  true in
              Some (with_nav m n',
                    CmdLoadFiles (currentRemote n') (currentPath n'))
            else
              Some (with_queue m
                      (queue.Add growslice (queue m) (currentRemote n)
                         (FileItem f)),
                    CmdNone)
        | None => None
        end
      else Some (m, CmdNone)
    else if Matches key (Left DefaultKeyMap)
            || Matches key (Back DefaultKeyMap) then
      let '(ok, n') := goBack n in
      if ok then
        Some (with_nav m (with_loading n' true),
              CmdLoadFiles (currentRemote n') (currentPath n'))
      else
        Some (with_selectedIndex (with_nav m (with_state n StateRemoteSelect))
                0,
              CmdNone)
    else if Matches key (Select DefaultKeyMap) then
      Some (if (0 <=? fileIndex n) && (fileIndex n <? Z.of_nat (length shown))
            then toggleSelection m else m,
            CmdNone)
    else if Matches key (SelectAll DefaultKeyMap) then
      Some (selectAll m, CmdNone)
    else if Matches key (Filter DefaultKeyMap) then
      Some (with_nav m
              {| state := state n; currentRemote := currentRemote n;
                 currentPath := currentPath n; pathStack := pathStack n;
                 fileIndex := fileIndex n; filterMode := true;
                 filterInput := filterInput n;
                 filterText := filterText n; loading := loading n |},
            CmdNone)
    else if Matches key (Escape DefaultKeyMap) then
      Some (if negb (filterText n =? "")%string
            then with_nav m
                   {| state := state n; currentRemote := currentRemote n;
                      currentPath := currentPath n;
                      pathStack := pathStack n;
                      fileIndex := 0; filterMode := filterMode n;
                      filterInput := ""; filterText := "";
                      loading := loading n |}
            else m,
            CmdNone)
    else if Matches key (Refresh DefaultKeyMap) then
      Some (with_nav m (with_loading n true),
            CmdLoadFiles (currentRemote n) (currentPath n))
    else if (key =? "q")%string then
      let m' := addSelectedToQueue growslice m in
      Some (if 0 <? queue.Len (queue m')
            then with_selectedIndex
                   (with_nav m' (with_state (nav m') StateQueueView)) 0
            else m',
            CmdNone)
    else Some (m, CmdNone).

(** updateQueueView handles input in queue view.  In
    [return m, m.startDownloads()] the model returned is the one
    startDownloads has written to: the Go specification leaves open whether
    [m] is read before or after the call, and the gc compiler reads it
    after. *)
Definition updateQueueView (m : App) (key : string) : option (App * Cmd) :=
  let '(items, q) := queue.Items (queue m) in
  let m := with_queue m q in
  if Matches key (Up DefaultKeyMap) then
    Some (if 0 <? selectedIndex m
          then with_selectedIndex m (selectedIndex m - 1) else m,
          CmdNone)
  else if Matches key (Down DefaultKeyMap) then
    Some (if selectedIndex m <? Z.of_nat (queue.len items) - 1
          then with_selectedIndex m (selectedIndex m + 1) else m,
          CmdNone)
  else if Matches key (Remove DefaultKeyMap) then
    Some (if (0 <? queue.len items)%nat then
            let q' := queue.Remove growslice q (selectedIndex m) in
            let m := with_queue m q' in
            if (queue.Len q' <=? selectedIndex m) && (0 <? selectedIndex m)
            then with_selectedIndex m (selectedIndex m - 1) else m
          else m,
          CmdNone)
  else if Matches key (Escape DefaultKeyMap) then
    Some (with_selectedIndex
            (with_nav m (with_state (nav m) StateFileBrowser)) 0,
          CmdNone)
  else if Matches key (Start DefaultKeyMap) || (key =? "s")%string then
    if 0 <? queue.Len q then
      Some (startDownloads
              (with_nav m (with_state (nav m) StateTransferView)),
            CmdTick)
    else Some (m, CmdNone)
  else Some (m, CmdNone).

(** updateTransferView handles input in transfer view.  The manager is
    shared with the goroutine of runTransfers; [transferMgr] is what it
    holds when the key is handled. *)
Definition updateTransferView (m : App) (key : string)
    : option (App * Cmd) :=
  match transferMgr m with
  | None => Some (m, CmdNone)
  | Some mgr =>
      let '(pending, inProgress, _, _) := rclone.Stats mgr in
      let allDone := (pending =? 0) && (inProgress =? 0) in
      if allDone then
        if Matches key (Enter DefaultKeyMap) then
          Some ({| nav := with_state (nav m) StateFileBrowser;
                   remotes := remotes m;
                   selectedIndex := selectedIndex m;
                   files := files m;
                   queue := queue.Clear (queue m);
                   transferMgr := None;
                   err := err m |},
                CmdNone)
        else if (key =? "q")%string then Some (m, CmdQuit)
        else Some (m, CmdNone)
      else Some (m, CmdNone)
  end.

(** Update handles messages and updates the model; [None] is a panic.  On
    the quit key the transfers are cancelled as well, which the goroutine
    of runTransfers sees through [cancelled]. *)
Definition Update (m : App) (msg : Msg) (typed : string)
    : option (App * Cmd) :=
  match msg with
  | WindowSizeMsg _ _ => Some (m, CmdNone)
  | KeyMsg key =>
      if Matches key (Quit DefaultKeyMap) then Some (m, CmdQuit)
      else
        match err m with
        | Some _ =>
            Some ({| nav := nav m; remotes := remotes m;
                     selectedIndex := selectedIndex m; files := files m;
                     queue := queue m; transferMgr := transferMgr m;
                     err := None |},
                  CmdNone)
        | None =>
            match state (nav m) with
            | StateRemoteSelect => updateRemoteSelect m key
            | StateFileBrowser => updateFileBrowser m key typed
            | StateQueueView => updateQueueView m key
            | StateTransferView => updateTransferView m key
            end
        end
  | spinnerTickMsg => Some (m, CmdWidget)
  | progressFrameMsg => Some (m, CmdWidget)
  | remotesLoadedMsg rs e =>
      let m := with_nav m (with_loading (nav m) false) in
      match e with
      | Some _ =>
          Some ({| nav := nav m; remotes := remotes m;
                   selectedIndex := selectedIndex m; files := files m;
                   queue := queue m; transferMgr := transferMgr m;
                   err := e |},
                CmdNone)
      | None =>
          Some ({| nav := nav m; remotes := rs;
                   selectedIndex := selectedIndex m; files := files m;
                   queue := queue m; transferMgr := transferMgr m;
                   err := err m |},
                CmdNone)
      end
  | filesLoadedMsg fs e =>
      let m := with_nav m (with_loading (nav m) false) in
      match e with
      | Some _ =>
          Some ({| nav := nav m; remotes := remotes m;
                   selectedIndex := selectedIndex m; files := files m;
                   queue := queue m; transferMgr := transferMgr m;
                   err := e |},
                CmdNone)
      | None =>
          Some (with_files m
                  (map (fun f => {| FileItem := f; Selected := false |}) fs),
                CmdNone)
      end
  | tickMsg =>
      match state (nav m), transferMgr m with
      | StateTransferView, Some _ => Some (m, CmdTick)
      | _, _ => Some (m, CmdNone)
      end
  | otherMsg => Some (m, CmdNone)
  end.

End Views.

(** The cursor of the remote list and of the queue view, [selectedIndex],
    points at an entry of the list shown, or is 0 when there is none; the
    queue's slice header stays within its array. *)
Definition cursor_ok (m : App) : Prop :=
  queue.wf (queue m)
  /\ 0 <= selectedIndex m
  /\ match state (nav m) with
     | StateRemoteSelect =>
         selectedIndex m < Z.of_nat (length (remotes m))
         \/ selectedIndex m = 0
     | StateQueueView =>
         selectedIndex m < queue.Len (queue m) \/ selectedIndex m = 0
     | _ => True
     end.

(** NewModel creates a new application model *)
Definition NewModel : App :=
  {| nav := {| state := StateRemoteSelect; currentRemote := "";
               currentPath := ""; pathStack := []; fileIndex := 0;
               filterMode := false; filterInput := ""; filterText := "";
               loading := false |};
     remotes := []; selectedIndex := 0; files := [];
     queue := queue.New; transferMgr := None; err := None |}.

End main.

(** ** The line splitting rule, as the specification words it *)

Module spec.

(** [c] in front of the first line of [ls]. *)
Definition push (c : ascii) (ls : list (list ascii)) : list (list ascii) :=
  match ls with
  | l :: ls' => (c :: l) :: ls'
  | [] => [[c]]
  end.

(** The stream cut at its line delimiters: a lone CR, a lone LF and the pair
    CR LF each end one line.  [afterCR] says that the byte before was a CR,
    so that an LF now is the second half of a pair. *)
Fixpoint split (afterCR : bool) (s : list ascii) : list (list ascii) :=
  match s with
  | [] => [[]]
  | c :: s' =>
      if Ascii.eqb c strings.LF then
        if afterCR then split false s' else [] :: split false s'
      else if Ascii.eqb c strings.CR then [] :: split true s'
      else push c (split false s')
  end.

(** The lines of the stream, empty lines discarded. *)
Definition lines (s : list ascii) : list string :=
  filter (fun l => l <> "") (string_of_list_ascii <$> split false s).

(** A byte that ends a line. *)
Definition delimiter (c : ascii) : bool :=
  Ascii.eqb c strings.CR || Ascii.eqb c strings.LF.

End spec.

(** ** Example data *)

Module examples.

(** The progress line of the comment above statsRegex. *)
Definition progressLine : string :=
  "Transferred:   1.234 GiB / 5.678 GiB, 22%, 10 MiB/s, ETA 1m30s".

(** A stream that mixes the three line delimiters:
    "progress\rline one\nTransferred:   0.0 GiB / 1.0 GiB, 0%\r\n". *)
Definition mixedStream : list ascii :=
  list_ascii_of_string "progress" ++ [strings.CR]
  ++ list_ascii_of_string "line one" ++ [strings.LF]
  ++ list_ascii_of_string "Transferred:   0.0 GiB / 1.0 GiB, 0%"
  ++ [strings.CR; strings.LF].

End examples.

(** * Properties *)

(** ** The transfer registry *)

Section TransferManager.

Import rclone.

Implicit Types (m : TransferManager) (id : string) (t : Transfer).

Lemma UpdateProgress_unregistered m id p c tot sp :
  transfers m !! id = None -> UpdateProgress m id p c tot sp = m.
Proof. intros H. unfold UpdateProgress. by rewrite H. Qed.

Lemma UpdateProgress_lookup m id t p c tot sp :
  transfers m !! id = Some t ->
  Get (UpdateProgress m id p c tot sp) id =
    Some {| ID := ID t; Source := Source t; Destination := Destination t;
            Status := Status t; Progress := p; BytesCopied := c;
            BytesTotal := if 0 <? tot then tot else BytesTotal t;
            Speed := sp; StartTime := StartTime t; EndTime := EndTime t;
            Error := Error t |}.
Proof.
  intros H. unfold UpdateProgress, Get. rewrite H. cbn.
  by rewrite lookup_insert_eq.
Qed.

Lemma UpdateProgress_lookup_ne m id id' p c tot sp :
  id' <> id -> Get (UpdateProgress m id p c tot sp) id' = Get m id'.
Proof.
  intros Hne. unfold UpdateProgress, Get.
  destruct (transfers m !! id) eqn:E; [cbn | done].
  by rewrite lookup_insert_ne.
Qed.

(** The status a call leaves at [id], from the status before it. *)
Lemma status_of_call m c id :
  status_of (call m c) id =
    match c with
    | CallAdd id' _ _ _ =>
        if decide (id' = id) then Some StatusPending else status_of m id
    | CallStart id' _ =>
        if decide (id' = id)
        then (fun _ => StatusInProgress) <$> status_of m id
        else status_of m id
    | CallUpdateProgress _ _ _ _ _ => status_of m id
    | CallComplete id' _ =>
        if decide (id' = id)
        then (fun _ => StatusCompleted) <$> status_of m id
        else status_of m id
    | CallFail id' _ _ =>
        if decide (id' = id)
        then (fun _ => StatusFailed) <$> status_of m id
        else status_of m id
    end.
Proof.
  unfold status_of.
  destruct c as [id' s d n|id' now|id' p bc bt sp|id' now|id' e now]; cbn;
    [unfold Add|unfold Start|unfold UpdateProgress|unfold Complete|unfold Fail];
    cbn.
  - rewrite lookup_insert. by case_decide.
  - destruct (transfers m !! id') eqn:E; cbn.
    + rewrite lookup_insert. case_decide; subst; [by rewrite E | done].
    + case_decide; subst; [by rewrite E | done].
  - destruct (transfers m !! id') eqn:E; cbn; [|done].
    rewrite lookup_insert. case_decide; subst; [by rewrite E | done].
  - destruct (transfers m !! id') eqn:E; cbn.
    + rewrite lookup_insert. case_decide; subst; [by rewrite E | done].
    + case_decide; subst; [by rewrite E | done].
  - destruct (transfers m !! id') eqn:E; cbn.
    + rewrite lookup_insert. case_decide; subst; [by rewrite E | done].
    + case_decide; subst; [by rewrite E | done].
Qed.

(** C1, as the code has it: on an ID that is not registered UpdateProgress
    changes nothing; on a registered ID, whatever the status of the transfer
    (Pending, Completed and Failed included), it overwrites progress,
    bytes-copied and speed, and bytes-total when the new total is positive,
    and leaves the status, the other fields and every other entry as they
    were. *)
Theorem UpdateProgress_effect m id p c tot sp :
  (transfers m !! id = None -> UpdateProgress m id p c tot sp = m) /\
  (forall t, transfers m !! id = Some t ->
     exists t', Get (UpdateProgress m id p c tot sp) id = Some t' /\
       Progress t' = p /\ BytesCopied t' = c /\ Speed t' = sp /\
       BytesTotal t' = (if 0 <? tot then tot else BytesTotal t) /\
       Status t' = Status t /\ ID t' = ID t /\ Source t' = Source t /\
       Destination t' = Destination t /\ StartTime t' = StartTime t /\
       EndTime t' = EndTime t /\ Error t' = Error t) /\
  (forall id', id' <> id ->
     Get (UpdateProgress m id p c tot sp) id' = Get m id').
Proof.
  split; [apply UpdateProgress_unregistered|]. split.
  - intros t H. eexists. split; [by apply UpdateProgress_lookup|]. by cbn.
  - intros id' Hne. by apply UpdateProgress_lookup_ne.
Qed.

(** C1, the claim as stated fails: a Pending transfer is registered by Add,
    and UpdateProgress overwrites its progress and bytes-copied. *)
Lemma UpdateProgress_on_Pending_is_not_a_noop :
  let m := Add NewTransferManager "t" "remote:a" "." 10 in
  let m' := UpdateProgress m "t" (Float64.of_Z 50) 5 0 "" in
  (Status <$> Get m "t") = Some StatusPending /\
  (Progress <$> Get m "t") = Some Float64.zero /\
  (BytesCopied <$> Get m "t") = Some 0 /\
  (Status <$> Get m' "t") = Some StatusPending /\
  (Progress <$> Get m' "t") = Some (Float64.of_Z 50) /\
  (BytesCopied <$> Get m' "t") = Some 5 /\
  Float64.of_Z 50 <> Float64.zero /\
  m' <> m.
Proof.
  cbv zeta. repeat split; by vm_compute.
Qed.

(** C7: on an InProgress transfer, UpdateProgress with a total that is zero
    or negative sets progress, bytes-copied and speed and keeps the total
    known before; the total is overwritten exactly when the new one is
    strictly positive. *)
Theorem UpdateProgress_total_only_if_positive m id t p c tot sp :
  transfers m !! id = Some t ->
  Status t = StatusInProgress ->
  exists t', Get (UpdateProgress m id p c tot sp) id = Some t' /\
    Status t' = StatusInProgress /\
    Progress t' = p /\ BytesCopied t' = c /\ Speed t' = sp /\
    (tot <= 0 -> BytesTotal t' = BytesTotal t) /\
    (0 < tot -> BytesTotal t' = tot).
Proof.
  intros H Hst. eexists. split; [by apply UpdateProgress_lookup|]. cbn.
  repeat split; try done.
  - intros Hle. destruct (Z.ltb_spec 0 tot); [lia | done].
  - intros Hlt. destruct (Z.ltb_spec 0 tot); [done | lia].
Qed.

(** C7 on a transfer started with a known total of 10 and updated with a
    total of 0. *)
Lemma UpdateProgress_total_only_if_positive_witness :
  let m := Start (Add NewTransferManager "t" "remote:a" "." 10) "t" 1 in
  exists t', Get (UpdateProgress m "t" (Float64.of_Z 50) 5 0 "") "t" = Some t' /\
    Status t' = StatusInProgress /\
    Progress t' = Float64.of_Z 50 /\ BytesCopied t' = 5 /\ Speed t' = "" /\
    (0 <= 0 -> BytesTotal t' = 10) /\
    (0 < 0 -> BytesTotal t' = 0).
Proof.
  cbv zeta.
  eapply (UpdateProgress_total_only_if_positive _ "t"
            {| ID := "t"; Source := "remote:a"; Destination := ".";
               Status := StatusInProgress; Progress := Float64.zero;
               BytesCopied := 0; BytesTotal := 10; Speed := "";
               StartTime := 1; EndTime := 0; Error := None |}).
  - by vm_compute.
  - reflexivity.
Defined.

(** C5, as the code has it.  Each call sets the status of the transfer it
    names whatever that status was: Add registers it, anew if need be, as
    Pending; Start sets InProgress, Complete sets Completed, Fail sets
    Failed, each on a registered ID only; UpdateProgress leaves the status
    alone, and so does a call that names another ID.  Hence no call but Add
    sets Pending: along any sequence of Start, UpdateProgress, Complete and
    Fail calls, a registered transfer whose status is not Pending stays
    registered and is never Pending again. *)
Theorem status_transitions m id :
  (forall c,
     status_of (call m c) id =
       match c with
       | CallAdd id' _ _ _ =>
           if decide (id' = id) then Some StatusPending else status_of m id
       | CallStart id' _ =>
           if decide (id' = id)
           then (fun _ => StatusInProgress) <$> status_of m id
           else status_of m id
       | CallUpdateProgress _ _ _ _ _ => status_of m id
       | CallComplete id' _ =>
           if decide (id' = id)
           then (fun _ => StatusCompleted) <$> status_of m id
           else status_of m id
       | CallFail id' _ _ =>
           if decide (id' = id)
           then (fun _ => StatusFailed) <$> status_of m id
           else status_of m id
       end)
  /\ (forall (cs : list Call) (s : TransferStatus),
        forallb (fun c => negb (is_Add c)) cs = true ->
        status_of m id = Some s ->
        s <> StatusPending ->
        exists s', status_of (calls m cs) id = Some s' /\ s' <> StatusPending).
Proof.
  split; [intros c; apply status_of_call|].
  intros cs. revert m. induction cs as [|c cs IH]; intros m s Hcs Hs Hne.
  - exists s. by split.
  - cbn in Hcs. apply andb_prop in Hcs as [Hc Hcs]. cbn.
    assert (exists s1, status_of (call m c) id = Some s1 /\ s1 <> StatusPending)
      as (s1 & H1 & Hne1).
    { rewrite status_of_call.
      destruct c; try discriminate Hc; repeat case_decide; rewrite ?Hs; cbn;
        eauto. }
    by apply (IH _ s1).
Qed.

(** C5 on a started transfer that is updated and then completed. *)
Lemma status_transitions_witness :
  exists s',
    status_of
      (calls (Start (Add NewTransferManager "t" "remote:a" "." 10) "t" 1)
         [CallUpdateProgress "t" (Float64.of_Z 50) 5 0 ""; CallComplete "t" 2])
      "t" = Some s' /\ s' <> StatusPending.
Proof.
  apply (proj2 (status_transitions
                  (Start (Add NewTransferManager "t" "remote:a" "." 10) "t" 1)
                  "t") _ StatusInProgress).
  - reflexivity.
  - by vm_compute.
  - discriminate.
Defined.

(** C5, the claim as stated fails: Start after Complete leaves the terminal
    status Completed for InProgress, Fail after Complete turns Completed into
    Failed, and Add on a registered ID registers it anew as Pending. *)
Lemma status_transitions_not_monotonic :
  let m := calls NewTransferManager
             [CallAdd "t" "remote:a" "." 10; CallStart "t" 1;
              CallComplete "t" 2] in
  status_of m "t" = Some StatusCompleted /\
  status_of (Start m "t" 3) "t" = Some StatusInProgress /\
  status_of (Fail m "t" (Some "exit status 1") 3) "t" = Some StatusFailed /\
  status_of (Add m "t" "remote:a" "." 10) "t" = Some StatusPending.
Proof. cbv zeta. repeat split; by vm_compute. Qed.

End TransferManager.

(** ** The download queue *)

Section Queue.

Import queue.

Variable growslice : nat -> nat -> nat.

#[local] Arguments read : simpl never.
#[local] Arguments append : simpl never.

Implicit Types (h : list (list Item)) (s : Slice) (q : Queue)
  (a xs pre mid suf : list Item).

(** A slice that stays within its array cuts it in three. *)
Lemma slice_split a (o n : nat) :
  (o + n <= length a)%nat ->
  exists pre mid suf,
    a = pre ++ mid ++ suf /\ length pre = o /\ length mid = n.
Proof.
  intros H. exists (take o a), (take n (drop o a)), (drop n (drop o a)).
  rewrite take_drop, take_drop, !length_take, length_drop.
  split; [done | lia].
Qed.

Lemma take_drop_mid pre mid suf :
  take (length mid) (drop (length pre) (pre ++ mid ++ suf)) = mid.
Proof. by rewrite drop_app_length, take_app_length. Qed.

Lemma blit_mid pre old suf xs :
  length old = length xs ->
  blit (pre ++ old ++ suf) (length pre) xs = pre ++ xs ++ suf.
Proof.
  intros H. unfold blit. rewrite take_app_length. do 2 f_equal.
  rewrite <- H, <- length_app.
  by rewrite (app_assoc pre old suf), drop_app_length.
Qed.

Lemma read_mid h s pre mid suf :
  h !! base s = Some (pre ++ mid ++ suf) ->
  length pre = off s -> length mid = len s ->
  read h s = mid.
Proof.
  intros Hb Ho Hn. unfold read, backing. rewrite Hb, <- Ho, <- Hn. cbn.
  apply take_drop_mid.
Qed.

Lemma read_length h s a :
  h !! base s = Some a -> (off s + len s <= length a)%nat ->
  length (read h s) = len s.
Proof.
  intros Hb Hle. destruct (slice_split a _ _ Hle) as (pre & mid & suf & -> & H1 & H2).
  by rewrite (read_mid h s pre mid suf).
Qed.

Lemma read_slice_to h s i :
  (i <= len s)%nat -> read h (slice_to s i) = take i (read h s).
Proof.
  intros H. unfold read, slice_to, backing. cbn.
  rewrite take_take. f_equal. lia.
Qed.

Lemma read_slice_from h s i :
  read h (slice_from s i) = drop i (read h s).
Proof.
  unfold read, slice_from, backing. cbn.
  rewrite <- drop_drop, skipn_firstn_comm. done.
Qed.

Lemma lookup_snoc_new {A} (l : list A) (x : A) : (l ++ [x]) !! length l = Some x.
Proof. by rewrite lookup_app_r, Nat.sub_diag. Qed.

(** [append] on a slice within its array: the result is within its array
    and holds the old elements followed by the new ones. *)
Lemma append_spec h s xs a h' s' :
  append growslice h s xs = (h', s') ->
  h !! base s = Some a -> (off s + len s <= length a)%nat ->
  exists a',
    h' !! base s' = Some a' /\ (off s' + len s' <= length a')%nat
    /\ read h' s' = read h s ++ xs.
Proof.
  intros Happ Hb Hle.
  destruct (slice_split a _ _ Hle) as (pre & mid & suf & -> & H1 & H2).
  pose proof (read_mid h s pre mid suf Hb H1 H2) as Hr.
  assert (backing h s = pre ++ mid ++ suf) as Hback
    by (unfold backing; by rewrite Hb).
  unfold append, cap in Happ. rewrite Hback, Hr in Happ.
  destruct (Nat.leb_spec (len s + length xs) (length (pre ++ mid ++ suf) - off s))
    as [Hfit|Hgrow]; injection Happ as <- <-; cbn [base off len]; rewrite Hr.
  - rewrite !length_app in Hfit.
    assert (length xs <= length suf)%nat as Hxs by lia.
    destruct (slice_split suf 0 (length xs)) as (e & old & suf' & -> & He & Hold);
      [lia|].
    destruct e; [|done]. cbn [app] in *.
    assert (blit (pre ++ mid ++ old ++ suf') (off s + len s) xs
            = pre ++ (mid ++ xs) ++ suf') as ->.
    { rewrite <- H1, <- H2, <- length_app.
      rewrite (app_assoc pre mid), blit_mid by done.
      by rewrite <- !app_assoc. }
    apply lookup_lt_Some in Hb as Hlt.
    rewrite list_lookup_insert_eq by done.
    eexists. split; [done|]. split.
    + rewrite !length_app in *. lia.
    + apply (read_mid _ _ pre (mid ++ xs) suf'); cbn.
      * by rewrite list_lookup_insert_eq.
      * done.
      * rewrite length_app. lia.
  - rewrite lookup_snoc_new. eexists. split; [done|]. split.
    + rewrite !length_app, length_replicate. unfold newcap. lia.
    + eapply (read_mid _ _ [] (mid ++ xs)); cbn.
      * by rewrite lookup_snoc_new, <- app_assoc.
      * done.
      * rewrite length_app. lia.
Qed.

Lemma wf_elems_length q : wf q -> length (elems q) = len (items q).
Proof. intros (a & Hb & Hle). by eapply read_length. Qed.

Lemma wf_New : wf New.
Proof. exists []. split; [done | cbn; lia]. Qed.

Lemma Add_spec q remote file :
  wf q ->
  wf (Add growslice q remote file) /\
  elems (Add growslice q remote file) =
    if Contains q remote (rclone.FileItem_Path file) then elems q
    else elems q ++ [newItem remote file].
Proof.
  intros Hwf. unfold Add, Contains.
  destruct (existsb _ (elems q)) eqn:E; [done|].
  destruct Hwf as (a & Hb & Hle).
  destruct (append growslice (heap q) (items q) [newItem remote file])
    as [h' s'] eqn:Happ.
  destruct (append_spec _ _ _ a _ _ Happ Hb Hle) as (a' & Hb' & Hle' & Hr).
  split; [by exists a' | done].
Qed.

Lemma Remove_out_of_range q (i : Z) :
  i < 0 \/ Z.of_nat (len (items q)) <= i -> Remove growslice q i = q.
Proof.
  intros H. unfold Remove.
  destruct (Z.leb_spec 0 i), (Z.ltb_spec i (Z.of_nat (len (items q))));
    cbn; (done || lia).
Qed.

Lemma Remove_in_range q (i : Z) :
  wf q -> 0 <= i < Z.of_nat (len (items q)) ->
  wf (Remove growslice q i) /\
  elems (Remove growslice q i) =
    take (Z.to_nat i) (elems q) ++ drop (S (Z.to_nat i)) (elems q).
Proof.
  intros (a & Hb & Hle) Hi. unfold Remove.
  destruct (Z.leb_spec 0 i), (Z.ltb_spec i (Z.of_nat (len (items q))));
    try lia. cbn.
  set (n := Z.to_nat i).
  assert (n < len (items q))%nat as Hn by lia.
  destruct (append growslice (heap q) (slice_to (items q) n)
              (read (heap q) (slice_from (items q) (n + 1))))
    as [h' s'] eqn:Happ.
  destruct (append_spec _ _ _ a _ _ Happ) as (a' & Hb' & Hle' & Hr);
    [done | cbn; lia |].
  split; [by exists a'|].
  unfold elems. cbn. rewrite Hr, read_slice_to, read_slice_from by lia.
  by rewrite Nat.add_1_r.
Qed.

Lemma store_elem_spec h s i x a :
  h !! base s = Some a -> (off s + len s <= length a)%nat ->
  (i < len s)%nat ->
  store_elem h s i x !! base s = Some (<[(off s + i)%nat := x]> a)
  /\ read (store_elem h s i x) s = <[i := x]> (read h s).
Proof.
  intros Hb Hle Hi.
  destruct (slice_split a _ _ Hle) as (pre & mid & suf & -> & H1 & H2).
  pose proof (read_mid h s pre mid suf Hb H1 H2) as Hr.
  apply lookup_lt_Some in Hb as Hlt.
  unfold store_elem, backing. rewrite Hb. cbn.
  rewrite list_lookup_insert_eq by done. split; [done|].
  rewrite Hr, <- H1, insert_app_r, insert_app_l by lia.
  apply (read_mid _ _ pre (<[i := x]> mid) suf).
  - by rewrite list_lookup_insert_eq.
  - done.
  - by rewrite length_insert.
Qed.

Lemma index_where_Some (p : Item -> bool) (l : list Item) (i : nat) :
  index_where p l = Some i ->
  exists l1 x l2, l = l1 ++ x :: l2 /\ length l1 = i /\ p x = true
                  /\ Forall (fun y => p y = false) l1.
Proof.
  revert i. induction l as [|y l IH]; intros i H; [done|]. cbn in H.
  destruct (p y) eqn:E.
  - injection H as <-. by exists [], y, l.
  - destruct (index_where p l) as [j|] eqn:Ej; [|done]. injection H as <-.
    destruct (IH j eq_refl) as (l1 & x & l2 & -> & Hl & Hx & Hall).
    exists (y :: l1), x, l2. cbn. repeat split; auto.
Qed.

Lemma index_where_None (p : Item -> bool) (l : list Item) :
  index_where p l = None <-> Forall (fun y => p y = false) l.
Proof.
  induction l as [|y l IH]; cbn; [done|].
  destruct (p y) eqn:E.
  - split; [done|]. intros H. apply Forall_cons in H as [H _]. congruence.
  - destruct (index_where p l); cbn.
    + split; [done|]. intros H. apply Forall_cons in H as [_ H].
      by apply IH in H.
    + split; [|done]. intros _. constructor; [done|]. by apply IH.
Qed.

Lemma same_key_true remote path (it : Item) :
  same_key remote path it = true <-> key it = (remote, path).
Proof.
  unfold same_key, key. rewrite andb_true_iff, !String.eqb_eq.
  split; [intros [-> ->]; done | intros [= -> ->]; done].
Qed.

Lemma Contains_true q remote path :
  Contains q remote path = true <-> (remote, path) ∈ key <$> elems q.
Proof.
  unfold Contains. rewrite existsb_exists, list_elem_of_fmap.
  split.
  - intros (it & Hin & Hk). exists it. apply same_key_true in Hk.
    split; [done | by apply list_elem_of_In].
  - intros (it & Hk & Hin). exists it. split; [by apply list_elem_of_In|].
    by apply same_key_true.
Qed.

(** Items, in full: a fresh array holding the elements of the queue. *)
Lemma Items_spec q :
  wf q ->
  Items q =
    ({| base := length (heap q); off := 0; len := len (items q) |},
     {| heap := heap q ++ [elems q]; items := items q |}).
Proof.
  intros (a & Hb & Hle). unfold Items, make, copy. f_equal. f_equal.
  apply lookup_lt_Some in Hb as Hlt.
  assert (read (heap q ++ [replicate (len (items q)) zeroItem]) (items q)
          = elems q) as Hr.
  { unfold elems, read, backing. by rewrite lookup_app_l. }
  rewrite Hr. cbn [base off len].
  assert (length (elems q) = len (items q)) as Hlen
    by (eapply read_length; eauto).
  rewrite (take_ge (elems q)) by lia.
  unfold backing. cbn [base]. rewrite lookup_snoc_new. cbn [default].
  unfold blit, id. cbn [take app]. rewrite Nat.add_0_l.
  rewrite drop_ge by (rewrite length_replicate; lia).
  rewrite app_nil_r, insert_app_r_alt, Nat.sub_diag by lia. done.
Qed.

Lemma wf_call q c : wf q -> wf (call growslice q c).
Proof.
  intros Hwf. destruct c as [r f|i| | |path pr sp|path st e| ]; cbn [call].
  - by apply Add_spec.
  - destruct (decide (0 <= i < Z.of_nat (len (items q)))) as [Hi|Hi].
    + by apply Remove_in_range.
    + rewrite Remove_out_of_range by lia. done.
  - rewrite Items_spec by done. cbn. destruct Hwf as (a & Hb & Hle).
    exists a. split; [|done]. cbn. rewrite lookup_app_l; [done|].
    by eapply lookup_lt_Some.
  - unfold Clear, make. cbn. exists []. cbn.
    rewrite lookup_snoc_new. split; [done | lia].
  - unfold UpdateProgress.
    destruct (index_where _ (elems q)) as [i|] eqn:Ei; [|done].
    destruct (elems q !! i) as [it|] eqn:Eit; [|done].
    destruct Hwf as (a & Hb & Hle).
    apply lookup_lt_Some in Eit. unfold elems in Eit.
    erewrite read_length in Eit by eauto.
    edestruct (store_elem_spec (heap q) (items q) i) as [Hb' _]; eauto.
    eexists. split; [exact Hb'|]. by rewrite length_insert.
  - unfold SetStatus.
    destruct (index_where _ (elems q)) as [i|] eqn:Ei; [|done].
    destruct (elems q !! i) as [it|] eqn:Eit; [|done].
    destruct Hwf as (a & Hb & Hle).
    apply lookup_lt_Some in Eit. unfold elems in Eit.
    erewrite read_length in Eit by eauto.
    edestruct (store_elem_spec (heap q) (items q) i) as [Hb' _]; eauto.
    eexists. split; [exact Hb'|]. by rewrite length_insert.
  - done.
Qed.

Lemma wf_calls q cs : wf q -> wf (calls growslice q cs).
Proof.
  revert q. induction cs as [|c cs IH]; intros q Hwf; [done|].
  cbn. apply IH. by apply wf_call.
Qed.

Lemma elems_Items q : wf q -> elems (Items q).2 = elems q.
Proof.
  intros Hwf. rewrite Items_spec by done. destruct Hwf as (a & Hb & _).
  unfold elems, read, backing. cbn. rewrite lookup_app_l; [done|].
  by eapply lookup_lt_Some.
Qed.

Lemma elems_UpdateProgress q path progress speed :
  wf q ->
  elems (UpdateProgress q path progress speed) =
    match index_where (fun it => (Path it =? path)%string) (elems q) with
    | Some i =>
        match elems q !! i with
        | Some it => <[i := progressed progress speed it]> (elems q)
        | None => elems q
        end
    | None => elems q
    end.
Proof.
  intros (a & Hb & Hle). unfold UpdateProgress.
  destruct (index_where _ (elems q)) as [i|] eqn:Ei; [|done].
  destruct (elems q !! i) as [it|] eqn:Eit; [|done].
  apply lookup_lt_Some in Eit. unfold elems in Eit.
  erewrite read_length in Eit by eauto. unfold elems at 1. cbn [heap items].
  by edestruct (store_elem_spec (heap q) (items q) i) as [_ ->].
Qed.

Lemma elems_SetStatus q path status err :
  wf q ->
  elems (SetStatus q path status err) =
    match index_where (fun it => (Path it =? path)%string) (elems q) with
    | Some i =>
        match elems q !! i with
        | Some it => <[i := with_status status err it]> (elems q)
        | None => elems q
        end
    | None => elems q
    end.
Proof.
  intros (a & Hb & Hle). unfold SetStatus.
  destruct (index_where _ (elems q)) as [i|] eqn:Ei; [|done].
  destruct (elems q !! i) as [it|] eqn:Eit; [|done].
  apply lookup_lt_Some in Eit. unfold elems in Eit.
  erewrite read_length in Eit by eauto. unfold elems at 1. cbn [heap items].
  by edestruct (store_elem_spec (heap q) (items q) i) as [_ ->].
Qed.

Lemma keys_insert_same (l : list Item) (i : nat) (it it' : Item) :
  l !! i = Some it -> key it' = key it ->
  key <$> <[i := it']> l = key <$> l.
Proof.
  intros Hl Hk. rewrite list_fmap_insert, Hk.
  apply list_insert_id. by rewrite list_lookup_fmap, Hl.
Qed.

(** Every method keeps the (remote, path) pairs of the queue distinct. *)
Lemma NoDup_keys_call q c :
  wf q -> NoDup (key <$> elems q) ->
  NoDup (key <$> elems (call growslice q c)).
Proof.
  intros Hwf Hnd.
  destruct c as [r f|i| | |path pr sp|path st e| ]; cbn [call].
  - destruct (Add_spec q r f Hwf) as [_ ->].
    destruct (Contains q r (rclone.FileItem_Path f)) eqn:E; [done|].
    rewrite fmap_app. apply NoDup_app. split; [done|]. split.
    + intros k Hk Hin. cbn in Hin. apply list_elem_of_singleton in Hin.
      subst k. apply Contains_true in Hk. unfold newItem, key in Hk.
      cbn in Hk. congruence.
    + cbn. apply NoDup_singleton.
  - destruct (decide (0 <= i < Z.of_nat (len (items q)))) as [Hi|Hi].
    + destruct (Remove_in_range q i Hwf Hi) as [_ ->].
      rewrite <- delete_take_drop, list_fmap_delete.
      eapply sublist_NoDup; [done | apply sublist_delete].
    + rewrite Remove_out_of_range by lia. done.
  - by rewrite elems_Items.
  - unfold Clear, make, elems, read, backing. cbn.
    rewrite lookup_snoc_new. cbn. apply NoDup_nil_2.
  - rewrite elems_UpdateProgress by done.
    destruct (index_where _ (elems q)) as [i|] eqn:Ei; [|done].
    destruct (elems q !! i) as [it|] eqn:Eit; [|done].
    by erewrite keys_insert_same.
  - rewrite elems_SetStatus by done.
    destruct (index_where _ (elems q)) as [i|] eqn:Ei; [|done].
    destruct (elems q !! i) as [it|] eqn:Eit; [|done].
    by erewrite keys_insert_same.
  - done.
Qed.

Lemma NoDup_keys_calls q cs :
  wf q -> NoDup (key <$> elems q) ->
  NoDup (key <$> elems (calls growslice q cs)).
Proof.
  revert q. induction cs as [|c cs IH]; intros q Hwf Hnd; [done|].
  cbn. apply IH; [by apply wf_call | by apply NoDup_keys_call].
Qed.

(** A run of Add calls appends items whose pairs are new, distinct from each
    other and taken from the calls. *)
Lemma adds_appends q (l : list (string * rclone.FileItem)) :
  wf q ->
  exists ext,
    elems (adds growslice q l) = elems q ++ ext
    /\ NoDup (key <$> ext)
    /\ (forall k, k ∈ key <$> ext -> k ∈ add_key <$> l)
    /\ (forall k, k ∈ key <$> ext -> k ∉ key <$> elems q).
Proof.
  revert q. induction l as [|[r f] l IH]; intros q Hwf.
  - exists []. rewrite app_nil_r. repeat split; try done.
    + apply NoDup_nil_2.
    + intros k Hk. by apply elem_of_nil in Hk.
  - cbn [adds fold_left fst snd].
    destruct (Add_spec q r f Hwf) as [Hwf' He].
    destruct (IH _ Hwf') as (ext & Hext & Hnd & Hsub & Hfresh).
    fold (adds growslice (Add growslice q r f) l).
    rewrite Hext, He in *.
    destruct (Contains q r (rclone.FileItem_Path f)) eqn:E.
    + exists ext. repeat split; try done.
      intros k Hk. rewrite fmap_cons. apply elem_of_cons. right. by apply Hsub.
    + exists (newItem r f :: ext). rewrite <- app_assoc. split; [done|].
      split; [|split].
      * rewrite fmap_cons. apply NoDup_cons. split; [|done].
        intros Hin. apply Hfresh in Hin. apply Hin.
        rewrite fmap_app. apply elem_of_app. right. cbn.
        apply list_elem_of_singleton. done.
      * intros k Hk. rewrite fmap_cons in Hk. apply elem_of_cons in Hk.
        rewrite fmap_cons. apply elem_of_cons.
        destruct Hk as [->|Hk]; [by left | right; by apply Hsub].
      * intros k Hk. rewrite fmap_cons in Hk. apply elem_of_cons in Hk.
        destruct Hk as [->|Hk].
        -- intros Hin. apply Contains_true in Hin. unfold newItem in Hin.
           cbn in Hin. congruence.
        -- intros Hin. apply (Hfresh k Hk). rewrite fmap_app.
           apply elem_of_app. by left.
Qed.

(** C6: a queue that Add, Remove, Items, Clear, UpdateProgress, SetStatus
    and GetNextPending have built from New holds pairwise distinct
    (remote, path) pairs; an Add of a pair that is already in it changes
    nothing; and a run of Add calls makes it longer by at most the number of
    distinct pairs in the run. *)
Theorem Add_ignores_duplicates (cs : list Call)
    (l : list (string * rclone.FileItem)) :
  let q := calls growslice New cs in
  NoDup (key <$> elems q)
  /\ (forall remote file,
        (remote, rclone.FileItem_Path file) ∈ key <$> elems q ->
        Add growslice q remote file = q)
  /\ (length (elems (adds growslice q l))
      <= length (elems q) + length (remove_dups (add_key <$> l)))%nat.
Proof.
  intros q.
  assert (wf q) as Hwf by (apply wf_calls, wf_New).
  split; [|split].
  - apply NoDup_keys_calls; [apply wf_New | apply NoDup_nil_2].
  - intros remote file Hin. apply Contains_true in Hin.
    unfold Add. unfold Contains in Hin. by rewrite Hin.
  - destruct (adds_appends q l Hwf) as (ext & -> & Hnd & Hsub & _).
    rewrite length_app. apply Nat.add_le_mono_l.
    rewrite <- (length_fmap key ext). apply submseteq_length.
    apply NoDup_submseteq; [done|].
    intros k Hk. apply elem_of_remove_dups. by apply Hsub.
Qed.

(** C9: Remove with an index outside [0, len) changes nothing at all; with
    an index inside it removes the item at that position and keeps the
    others in their order. *)
Theorem Remove_bounds_checked q (i : Z) :
  wf q ->
  (i < 0 \/ Z.of_nat (length (elems q)) <= i -> Remove growslice q i = q)
  /\ (0 <= i < Z.of_nat (length (elems q)) ->
      elems (Remove growslice q i) =
        take (Z.to_nat i) (elems q) ++ drop (S (Z.to_nat i)) (elems q)
      /\ length (elems (Remove growslice q i)) = (length (elems q) - 1)%nat).
Proof.
  intros Hwf. rewrite (wf_elems_length q Hwf). split.
  - apply Remove_out_of_range.
  - intros Hi. destruct (Remove_in_range q i Hwf Hi) as [Hwf' He].
    split; [done|].
    rewrite He, length_app, length_take, length_drop, wf_elems_length by done.
    lia.
Qed.

(** C10: when the queue holds an item whose path is p,
    UpdateProgress(p, pct, speed) rewrites the first such item, in insertion
    order and whatever its remote: it sets progress and speed and sets the
    status to Downloading, whatever the status was.  The items before and
    after it are left as they were. *)
Theorem UpdateProgress_first_match q path pct speed :
  wf q ->
  (exists it, it ∈ elems q /\ Path it = path) ->
  exists l1 it l2,
    elems q = l1 ++ it :: l2
    /\ Path it = path
    /\ Forall (fun x => Path x <> path) l1
    /\ elems (UpdateProgress q path pct speed) =
         l1 ++ {| Remote := Remote it; Path := Path it; Name := Name it;
                  Size := Size it; IsDir := IsDir it;
                  Status := StatusDownloading; Progress := pct;
                  Speed := speed; Error := Error it |} :: l2.
Proof.
  intros Hwf (it0 & Hin & Hp0).
  destruct (index_where (fun it => (Path it =? path)%string) (elems q))
    as [i|] eqn:Ei.
  - pose proof Ei as Hi.
    apply index_where_Some in Hi as (l1 & it & l2 & He & Hl & Hit & Hall).
    exists l1, it, l2. split; [done|]. split; [by apply String.eqb_eq|].
    split.
    + eapply Forall_impl; [exact Hall|]. intros x Hx. by apply String.eqb_neq.
    + rewrite elems_UpdateProgress, Ei, He by done.
      rewrite <- Hl, list_lookup_middle by done.
      by rewrite <- (Nat.add_0_r (length l1)), insert_app_r.
  - apply index_where_None in Ei. rewrite Forall_forall in Ei.
    apply Ei in Hin. apply String.eqb_neq in Hin. done.
Qed.

(** The arrays other than the queue's own are out of reach of its methods. *)
Lemma append_frame h s xs h' s' (b : nat) :
  append growslice h s xs = (h', s') ->
  (b < length h)%nat -> b <> base s -> h' !! b = h !! b.
Proof.
  intros Happ Hb Hne. unfold append in Happ.
  destruct (_ <=? _)%nat; injection Happ as <- <-.
  - by rewrite list_lookup_insert_ne.
  - by rewrite lookup_app_l.
Qed.

Lemma call_frame q c (b : nat) :
  (b < length (heap q))%nat -> b <> base (items q) ->
  heap (call growslice q c) !! b = heap q !! b.
Proof.
  intros Hb Hne.
  destruct c as [r f|i| | |path pr sp|path st e| ]; cbn [call].
  - unfold Add. destruct (existsb _ _); [done|].
    destruct (append _ _ _ _) as [h' s'] eqn:Happ. cbn.
    by eapply append_frame.
  - unfold Remove. destruct (_ && _); [|done].
    destruct (append _ _ _ _) as [h' s'] eqn:Happ. cbn.
    by eapply append_frame.
  - unfold Items, make, copy. cbn.
    rewrite list_lookup_insert_ne by lia. by rewrite lookup_app_l.
  - unfold Clear, make. cbn. by rewrite lookup_app_l.
  - unfold UpdateProgress. destruct (index_where _ _); [|done].
    destruct (elems q !! _); [|done]. cbn. unfold store_elem.
    by rewrite list_lookup_insert_ne.
  - unfold SetStatus. destruct (index_where _ _); [|done].
    destruct (elems q !! _); [|done]. cbn. unfold store_elem.
    by rewrite list_lookup_insert_ne.
  - done.
Qed.

Lemma GetNextPending_Some q (p : Ptr) :
  GetNextPending q = Some p ->
  exists i,
    index_where (fun it => ItemStatus_eqb (Status it) StatusPending) (elems q)
      = Some i
    /\ p = {| p_base := base (items q); p_index := (off (items q) + i)%nat |}.
Proof.
  unfold GetNextPending. destruct (index_where _ _) as [i|]; [|done].
  intros [= <-]. by exists i.
Qed.

Lemma ItemStatus_eqb_eq (a b : ItemStatus) :
  ItemStatus_eqb a b = true <-> a = b.
Proof. destruct a, b; cbn; split; congruence. Qed.

(** C3, as the code has it.  Items returns a copy: a slice over a fresh
    array that holds the items of the queue, so that a store through it
    leaves the queue as it was, and a later call on the queue leaves the
    copy as it was.  GetNextPending does not: it returns a pointer to the
    first Pending item inside the queue's own array, and a store through it
    is a store into the queue. *)
Theorem Items_copies_GetNextPending_aliases q :
  wf q ->
  (read (heap (Items q).2) (Items q).1 = elems q
   /\ elems (Items q).2 = elems q
   /\ base (Items q).1 <> base (items (Items q).2)
   /\ (forall i x, elems (write_slice (Items q).2 (Items q).1 i x) = elems q)
   /\ (forall c,
         read (heap (call growslice (Items q).2 c)) (Items q).1 = elems q))
  /\ (forall p, GetNextPending q = Some p ->
      exists i it,
        p_base p = base (items q)
        /\ elems q !! i = Some it
        /\ Status it = StatusPending
        /\ Forall (fun x => Status x <> StatusPending) (take i (elems q))
        /\ load_ptr (heap q) p = Some it
        /\ (forall x, elems (write_ptr q p x) = <[i := x]> (elems q))).
Proof.
  intros Hwf. pose proof Hwf as (a & Hb & Hle).
  apply lookup_lt_Some in Hb as Hlt.
  pose proof (wf_elems_length q Hwf) as Hlen.
  split.
  - rewrite Items_spec by done. cbn [fst snd heap items base].
    assert (read (heap q ++ [elems q])
              {| base := length (heap q); off := 0; len := len (items q) |}
            = elems q) as Hcopy.
    { apply (read_mid _ _ [] (elems q) []); cbn.
      - by rewrite lookup_snoc_new, app_nil_r.
      - done.
      - done. }
    split; [done|]. split; [|split; [lia|split]].
    + unfold elems, read, backing. cbn. by rewrite lookup_app_l.
    + intros i x. unfold write_slice, store_elem, elems, read, backing. cbn.
      rewrite list_lookup_insert_ne by lia. by rewrite lookup_app_l.
    + intros c. rewrite <- Hcopy at 2. unfold read, backing.
      cbn [base off len]. rewrite call_frame; [done | | cbn; lia].
      cbn. rewrite length_app. cbn. lia.
  - intros p Hp. apply GetNextPending_Some in Hp as (i & Hi & ->).
    apply index_where_Some in Hi as (l1 & it & l2 & He & Hl1 & Hit & Hall).
    exists i, it. cbn [p_base p_index].
    assert (elems q !! i = Some it) as Hlook
      by (rewrite He, <- Hl1; by apply list_lookup_middle).
    assert (i < len (items q))%nat as Hlt'
      by (rewrite <- Hlen; by eapply lookup_lt_Some).
    split; [done|]. split; [done|]. split; [by apply ItemStatus_eqb_eq|].
    split; [|split].
    + rewrite He, <- Hl1, take_app_length.
      eapply Forall_impl; [exact Hall|]. intros x Hx Hs. cbn in Hx.
      apply ItemStatus_eqb_eq in Hs. congruence.
    + unfold load_ptr. cbn. rewrite Hb. cbn.
      unfold elems, read, backing in Hlook. rewrite Hb in Hlook. cbn in Hlook.
      rewrite lookup_take_lt, lookup_drop in Hlook by done. done.
    + intros x. unfold write_ptr, elems. cbn [heap items].
      destruct (store_elem_spec (heap q) (items q) i x a Hb Hle Hlt')
        as [_ Hr].
      rewrite <- Hr. unfold store_ptr, store_elem, backing. done.
Qed.

End Queue.

(** C3, the claim as stated fails for GetNextPending: a queue holding one
    Pending item hands out a pointer to it, and setting the status through
    the pointer changes the item the queue holds. *)
Lemma GetNextPending_is_a_live_view :
  let file := {| rclone.FileItem_Name := "a"; rclone.FileItem_Path := "dir/a";
                 rclone.FileItem_Size := 100; rclone.FileItem_IsDir := false;
                 rclone.FileItem_ModTime := "" |} in
  let q := queue.Add queue.double_cap queue.New "remote" file in
  let done := queue.with_status queue.StatusCompleted None
                (queue.newItem "remote" file) in
  exists p,
    queue.GetNextPending q = Some p
    /\ queue.elems q = [queue.newItem "remote" file]
    /\ queue.elems (queue.write_ptr q p done) = [done]
    /\ queue.Status <$> queue.elems (queue.write_ptr q p done)
       = [queue.StatusCompleted]
    /\ queue.Status <$> queue.elems q = [queue.StatusPending].
Proof. cbv zeta. eexists. repeat split; by vm_compute. Qed.

(** C3 on a queue holding one Pending item. *)
Lemma Items_copies_GetNextPending_aliases_witness :
  let file := {| rclone.FileItem_Name := "a"; rclone.FileItem_Path := "dir/a";
                 rclone.FileItem_Size := 100; rclone.FileItem_IsDir := false;
                 rclone.FileItem_ModTime := "" |} in
  let q := queue.Add queue.double_cap queue.New "remote" file in
  queue.wf q
  /\ (queue.read (queue.heap (queue.Items q).2) (queue.Items q).1
        = queue.elems q
      /\ queue.elems (queue.Items q).2 = queue.elems q
      /\ queue.base (queue.Items q).1
           <> queue.base (queue.items (queue.Items q).2)
      /\ (forall i x,
            queue.elems (queue.write_slice (queue.Items q).2 (queue.Items q).1 i x)
            = queue.elems q)
      /\ (forall c,
            queue.read
              (queue.heap (queue.call queue.double_cap (queue.Items q).2 c))
              (queue.Items q).1
            = queue.elems q))
    /\ (forall p, queue.GetNextPending q = Some p ->
        exists i it,
          queue.p_base p = queue.base (queue.items q)
          /\ queue.elems q !! i = Some it
          /\ queue.Status it = queue.StatusPending
          /\ Forall (fun x => queue.Status x <> queue.StatusPending)
               (take i (queue.elems q))
          /\ queue.load_ptr (queue.heap q) p = Some it
          /\ (forall x,
                queue.elems (queue.write_ptr q p x) = <[i := x]> (queue.elems q))).
Proof.
  cbv zeta.
  assert (queue.wf
            (queue.Add queue.double_cap queue.New "remote"
               {| rclone.FileItem_Name := "a"; rclone.FileItem_Path := "dir/a";
                  rclone.FileItem_Size := 100; rclone.FileItem_IsDir := false;
                  rclone.FileItem_ModTime := "" |})) as Hwf.
  { eexists. split; [vm_compute; reflexivity | vm_compute; lia]. }
  split; [exact Hwf|].
  exact (Items_copies_GetNextPending_aliases queue.double_cap _ Hwf).
Defined.

(** C9 on a queue of three items and the index 1. *)
Lemma Remove_bounds_checked_witness :
  let file name :=
    {| rclone.FileItem_Name := name; rclone.FileItem_Path := name;
       rclone.FileItem_Size := 1; rclone.FileItem_IsDir := false;
       rclone.FileItem_ModTime := "" |} in
  let q := queue.adds queue.double_cap queue.New
             [("remote", file "a"); ("remote", file "b");
              ("remote", file "c")] in
  queue.wf q
  /\ 0 <= 1 < Z.of_nat (length (queue.elems q))
  /\ (1 < 0 \/ Z.of_nat (length (queue.elems q)) <= 1 ->
      queue.Remove queue.double_cap q 1 = q)
  /\ (0 <= 1 < Z.of_nat (length (queue.elems q)) ->
      queue.elems (queue.Remove queue.double_cap q 1) =
        take (Z.to_nat 1) (queue.elems q)
        ++ drop (S (Z.to_nat 1)) (queue.elems q)
      /\ length (queue.elems (queue.Remove queue.double_cap q 1))
         = (length (queue.elems q) - 1)%nat).
Proof.
  cbv zeta.
  split; [eexists; split; [vm_compute; reflexivity | vm_compute; lia]|].
  split; [vm_compute; split; [discriminate | reflexivity]|].
  apply (Remove_bounds_checked queue.double_cap).
  eexists. split; [vm_compute; reflexivity | vm_compute; lia].
Defined.

(** C10 on a queue whose second item is Completed and has the path of the
    third: the second goes back to Downloading, the third is left alone. *)
Lemma UpdateProgress_first_match_witness :
  let file name :=
    {| rclone.FileItem_Name := name; rclone.FileItem_Path := name;
       rclone.FileItem_Size := 1; rclone.FileItem_IsDir := false;
       rclone.FileItem_ModTime := "" |} in
  let q := queue.calls queue.double_cap queue.New
             [queue.CallAdd "one" (file "b"); queue.CallAdd "one" (file "a");
              queue.CallAdd "two" (file "a");
              queue.CallSetStatus "a" queue.StatusCompleted None] in
  (queue.Status <$> queue.elems q
   = [queue.StatusPending; queue.StatusCompleted; queue.StatusPending]
   /\ queue.Status
        <$> queue.elems
              (queue.UpdateProgress q "a" (Float64.of_Z 50) "1 MiB/s")
      = [queue.StatusPending; queue.StatusDownloading; queue.StatusPending])
  /\ exists l1 it l2,
       queue.elems q = l1 ++ it :: l2
       /\ queue.Path it = "a"
       /\ Forall (fun x => queue.Path x <> "a") l1
       /\ queue.elems (queue.UpdateProgress q "a" (Float64.of_Z 50) "1 MiB/s")
          = l1 ++ {| queue.Remote := queue.Remote it;
                     queue.Path := queue.Path it;
                     queue.Name := queue.Name it;
                     queue.Size := queue.Size it;
                     queue.IsDir := queue.IsDir it;
                     queue.Status := queue.StatusDownloading;
                     queue.Progress := Float64.of_Z 50;
                     queue.Speed := "1 MiB/s";
                     queue.Error := queue.Error it |} :: l2.
Proof.
  cbv zeta. split; [split; vm_compute; reflexivity|].
  apply UpdateProgress_first_match.
  - eexists. split; [vm_compute; reflexivity | vm_compute; lia].
  - eexists. split.
    + apply list_elem_of_lookup. exists 1%nat. vm_compute. reflexivity.
    + reflexivity.
Defined.

(** ** Navigation *)

(** C8: entering a directory and going back restores the path that was
    current before, the empty root path included, and takes the pushed
    entry off the back-stack again. *)
Theorem goBack_after_enterDirectory (m : main.Model) (dir : string) :
  main.goBack (main.enterDirectory m dir) =
    (true,
     {| main.state := main.state m;
        main.currentRemote := main.currentRemote m;
        main.currentPath := main.currentPath m;
        main.pathStack := main.pathStack m;
        main.fileIndex := 0;
        main.filterMode := main.filterMode m;
        main.filterInput := "";
        main.filterText := "";
        main.loading := main.loading m |}).
Proof.
  unfold main.goBack, main.enterDirectory. cbn.
  rewrite length_app. cbn.
  replace (length (main.pathStack m) + 1 - 1)%nat
    with (length (main.pathStack m)) by lia.
  rewrite lookup_snoc_new, take_app_length. cbn.
  by rewrite Nat.add_1_r.
Qed.

(** ** The progress parser *)

Section Parser.

Import rclone.

Lemma UpdateProgress_idempotent (m : TransferManager) (id : string)
    (p : float64) (c tot : Z) (sp : string) :
  UpdateProgress (UpdateProgress m id p c tot sp) id p c tot sp
  = UpdateProgress m id p c tot sp.
Proof.
  unfold UpdateProgress at 2.
  destruct (transfers m !! id) as [t|] eqn:E.
  - unfold UpdateProgress. cbn. rewrite lookup_insert_eq, E. cbn.
    rewrite insert_insert_eq. do 3 f_equal. by destruct (0 <? tot).
  - unfold UpdateProgress. by rewrite E.
Qed.

(** C2, as the code has it: the example line decodes to the percentage 22,
    1324997410 bytes copied and 6096706076 bytes in total, which are
    1.234 * 1024^3 and 5.678 * 1024^3 with the fraction cut off; and
    handling the line a second time changes nothing more. *)
Theorem decode_progress_line :
  decodeLine examples.progressLine
    = Some (Float64.of_Z 22, 1324997410, 6096706076)
  /\ 1324997410 * 1000 <= 1234 * 1024 ^ 3 < (1324997410 + 1) * 1000
  /\ 6096706076 * 1000 <= 5678 * 1024 ^ 3 < (6096706076 + 1) * 1000
  /\ (forall id mgr,
        handleLine id (handleLine id mgr examples.progressLine)
          examples.progressLine
        = handleLine id mgr examples.progressLine)
  /\ (forall id mgr,
        parseRcloneOutput
          [list_ascii_of_string examples.progressLine ++ [strings.LF]] id mgr
        = Some (UpdateProgress mgr id (Float64.of_Z 22) 1324997410
                  6096706076 "")
        /\ parseRcloneOutput
             [list_ascii_of_string examples.progressLine ++ [strings.CR];
              list_ascii_of_string examples.progressLine ++ [strings.LF]]
             id mgr
           = Some (UpdateProgress mgr id (Float64.of_Z 22) 1324997410
                     6096706076 "")).
Proof.
  assert (decodeLine examples.progressLine
          = Some (Float64.of_Z 22, 1324997410, 6096706076)) as Hd
    by (vm_compute; reflexivity).
  assert (forall id mgr,
            handleLine id mgr examples.progressLine
            = UpdateProgress mgr id (Float64.of_Z 22) 1324997410
                6096706076 "") as Hh.
  { intros id mgr. unfold handleLine.
    change (examples.progressLine =? "")%string with false. cbv iota.
    by rewrite Hd. }
  split; [exact Hd|]. split; [lia|]. split; [lia|]. split.
  - intros id mgr. rewrite !Hh. apply UpdateProgress_idempotent.
  - intros id mgr. unfold parseRcloneOutput. split.
    + replace (bufio.tokens splitLines maxTokenSize _ _ _ _)
        with (Some [list_ascii_of_string examples.progressLine])
        by (vm_compute; reflexivity).
      cbn [fmap option_fmap option_map map fold_left].
      change (string_of_list_ascii (list_ascii_of_string examples.progressLine))
        with examples.progressLine.
      by rewrite Hh.
    + replace (bufio.tokens splitLines maxTokenSize _ _ _ _)
        with (Some [list_ascii_of_string examples.progressLine;
                    list_ascii_of_string examples.progressLine])
        by (vm_compute; reflexivity).
      cbn [fmap option_fmap option_map map fold_left].
      change (string_of_list_ascii (list_ascii_of_string examples.progressLine))
        with examples.progressLine.
      rewrite !Hh. by rewrite UpdateProgress_idempotent.
Qed.

(** C2, the claim as stated fails: the byte counts decoded from the example
    line are not the ones the claim gives. *)
Lemma decode_progress_line_not_as_claimed :
  exists p copied total,
    decodeLine examples.progressLine = Some (p, copied, total)
    /\ copied <> 1325723204 /\ total <> 6097700864.
Proof.
  exists (Float64.of_Z 22), 1324997410, 6096706076.
  split; [vm_compute; reflexivity|]. split; discriminate.
Qed.

End Parser.

(** ** The line splitter *)

Section Splitter.

Import rclone strings.

Implicit Types (data pending pre post s : list ascii)
  (reads : list (list ascii)) (ts : list (list ascii)).

Lemma nonEmpty_nil_cons ts : nonEmpty ([] :: ts) = nonEmpty ts.
Proof.
  unfold nonEmpty. rewrite fmap_cons.
  by rewrite filter_cons_False by (cbn; tauto).
Qed.

Lemma nonEmpty_cons t ts : nonEmpty (t :: ts) = nonEmpty [t] ++ nonEmpty ts.
Proof.
  unfold nonEmpty. rewrite !fmap_cons, fmap_nil.
  change ((string_of_list_ascii t) :: (string_of_list_ascii <$> ts))
    with ([string_of_list_ascii t] ++ (string_of_list_ascii <$> ts)).
  by rewrite filter_app.
Qed.

Lemma delimiter_cases (c : ascii) :
  (c = CR /\ spec.delimiter c = true)
  \/ (c = LF /\ spec.delimiter c = true)
  \/ (c <> CR /\ c <> LF /\ spec.delimiter c = false).
Proof.
  unfold spec.delimiter.
  destruct (Ascii.eqb_spec c CR) as [->|H1]; [by left|].
  destruct (Ascii.eqb_spec c LF) as [->|H2]; [right; by left|].
  right. right. done.
Qed.

Lemma existsb_delimiter (c : ascii) :
  existsb (Ascii.eqb c) [CR; LF] = spec.delimiter c.
Proof. unfold spec.delimiter. cbn. by rewrite orb_false_r. Qed.

(** What IndexAny finds: the first delimiter, or that there is none. *)
Lemma IndexAny_None data :
  IndexAny data [CR; LF] = None ->
  Forall (fun c => spec.delimiter c = false) data.
Proof.
  induction data as [|c data IH]; [constructor|].
  cbn [IndexAny]. rewrite existsb_delimiter.
  destruct (spec.delimiter c) eqn:E; [done|].
  destruct (IndexAny data [CR; LF]); [done|]. intros _.
  constructor; [done | by apply IH].
Qed.

Lemma IndexAny_Some data (i : nat) :
  IndexAny data [CR; LF] = Some i ->
  exists pre d post,
    data = pre ++ d :: post /\ length pre = i /\ spec.delimiter d = true
    /\ Forall (fun c => spec.delimiter c = false) pre.
Proof.
  revert i. induction data as [|c data IH]; intros i; [done|].
  cbn [IndexAny]. rewrite existsb_delimiter.
  destruct (spec.delimiter c) eqn:E.
  - intros [= <-]. by exists [], c, data.
  - destruct (IndexAny data [CR; LF]) as [j|]; [|done]. intros [= <-].
    destruct (IH j eq_refl) as (pre & d & post & -> & Hl & Hd & Hall).
    exists (c :: pre), d, post. cbn. repeat split; auto.
Qed.

(** The specification's split, at the first delimiter and without one. *)
Lemma split_push (c : ascii) s :
  spec.delimiter c = false ->
  spec.split false (c :: s) = spec.push c (spec.split false s).
Proof.
  intros H. destruct (delimiter_cases c) as [[-> H']|[[-> H']|(H1 & H2 & _)]];
    try congruence.
  cbn. apply Ascii.eqb_neq in H1, H2. by rewrite H1, H2.
Qed.

Lemma split_at_delimiter pre (d : ascii) post :
  Forall (fun c => spec.delimiter c = false) pre ->
  spec.delimiter d = true ->
  spec.split false (pre ++ d :: post) = pre :: spec.split (Ascii.eqb d CR) post.
Proof.
  intros Hpre Hd. induction Hpre as [|c pre Hc Hpre IH].
  - cbn. destruct (delimiter_cases d) as [[-> _]|[[-> _]|(_ & _ & H)]];
      [done | done | congruence].
  - cbn [app]. rewrite split_push, IH by done. done.
Qed.

Lemma split_no_delimiter data :
  Forall (fun c => spec.delimiter c = false) data ->
  spec.split false data = [data].
Proof.
  intros H. induction H as [|c data Hc H IH]; [done|].
  rewrite split_push, IH by done. done.
Qed.

(** Once empty lines are dropped, it does not matter whether an LF that
    follows a CR ends a line of its own. *)
Lemma nonEmpty_split_flag (b : bool) s :
  nonEmpty (spec.split b s) = nonEmpty (spec.split false s).
Proof.
  destruct b; [|done]. destruct s as [|c s]; [done|]. cbn [spec.split].
  destruct (Ascii.eqb c LF); [by rewrite nonEmpty_nil_cons | done].
Qed.

Lemma nonEmpty_split_LF s :
  nonEmpty (spec.split false (LF :: s)) = nonEmpty (spec.split false s).
Proof.
  cbn [spec.split]. change (Ascii.eqb LF LF) with true. cbv iota.
  apply nonEmpty_nil_cons.
Qed.

Lemma IndexAny_first pre (d : ascii) post :
  Forall (fun c => spec.delimiter c = false) pre ->
  spec.delimiter d = true ->
  IndexAny (pre ++ d :: post) [CR; LF] = Some (length pre).
Proof.
  intros Hpre Hd. induction Hpre as [|c pre Hc Hpre IH]; cbn [app IndexAny].
  - by rewrite existsb_delimiter, Hd.
  - by rewrite existsb_delimiter, Hc, IH.
Qed.

(** The split function on data that holds a delimiter: the token is the
    line before the first delimiter, and what is skipped is that delimiter,
    a CR LF pair being skipped whole when both bytes are there. *)
Lemma splitLines_delimiter pre (d : ascii) post (atEOF : bool) :
  Forall (fun c => spec.delimiter c = false) pre ->
  spec.delimiter d = true ->
  exists advance,
    splitLines (pre ++ d :: post) atEOF = (advance, Some pre)
    /\ (length pre < advance <= length (pre ++ d :: post))%nat
    /\ (forall rest,
          nonEmpty (spec.split false ((pre ++ d :: post) ++ rest))
          = nonEmpty [pre]
            ++ nonEmpty (spec.split false
                           (drop advance (pre ++ d :: post) ++ rest)))
    /\ (forall (P : list ascii -> Prop) rest,
          P [] ->
          Forall P (spec.split false ((pre ++ d :: post) ++ rest)) ->
          Forall P (spec.split false
                      (drop advance (pre ++ d :: post) ++ rest))).
Proof.
  intros Hpre Hd. unfold splitLines.
  rewrite IndexAny_first by done. rewrite take_app_length.
  assert ((length (pre ++ d :: post) =? 0)%nat = false) as ->
    by (apply Nat.eqb_neq; rewrite length_app; cbn; lia).
  rewrite andb_false_r.
  rewrite list_lookup_middle by done.
  assert ((pre ++ d :: post) !! (length pre + 1)%nat = post !! 0%nat) as ->.
  { rewrite lookup_app_r by lia.
    replace (length pre + 1 - length pre)%nat with 1%nat by lia. done. }
  assert (forall rest,
            nonEmpty (spec.split false ((pre ++ d :: post) ++ rest))
            = nonEmpty [pre] ++ nonEmpty (spec.split false (post ++ rest)))
    as Hone.
  { intros rest. rewrite <- app_assoc. cbn [app].
    rewrite split_at_delimiter, nonEmpty_cons by done.
    by rewrite nonEmpty_split_flag. }
  assert (forall (P : list ascii -> Prop) rest,
            Forall P (spec.split false ((pre ++ d :: post) ++ rest)) ->
            Forall P (spec.split (Ascii.eqb d CR) (post ++ rest))) as Hall.
  { intros P rest. rewrite <- app_assoc. cbn [app].
    rewrite split_at_delimiter by done. intros H.
    by apply Forall_cons in H as [_ H]. }
  destruct ((length pre + 1 <? length (pre ++ d :: post))%nat
            && bool_decide (Some d = Some CR)
            && bool_decide (post !! 0%nat = Some LF)) eqn:E.
  - apply andb_prop in E as [E E3]. apply andb_prop in E as [E1 E2].
    apply bool_decide_eq_true in E2, E3. injection E2 as ->.
    destruct post as [|c post']; [done|]. cbn in E3. injection E3 as ->.
    assert (drop (length pre + 1 + 1) (pre ++ CR :: LF :: post') = post')
      as Hdrop.
    { replace (length pre + 1 + 1)%nat with (length (pre ++ [CR; LF]))
        by (rewrite length_app; cbn; lia).
      replace (pre ++ CR :: LF :: post') with ((pre ++ [CR; LF]) ++ post')
        by (by rewrite <- app_assoc).
      by rewrite drop_app_length. }
    exists (length pre + 1 + 1)%nat. rewrite Hdrop.
    split; [done|]. split; [|split].
    + rewrite length_app. cbn. lia.
    + intros rest. rewrite Hone. cbn [app]. by rewrite nonEmpty_split_LF.
    + intros P rest _ H. apply Hall in H. done.
  - assert (drop (length pre + 1) (pre ++ d :: post) = post) as Hdrop.
    { replace (length pre + 1)%nat with (length (pre ++ [d]))
        by (rewrite length_app; cbn; lia).
      replace (pre ++ d :: post) with ((pre ++ [d]) ++ post)
        by (by rewrite <- app_assoc).
      by rewrite drop_app_length. }
    exists (length pre + 1)%nat. rewrite Hdrop.
    split; [done|]. split; [|split].
    + rewrite length_app. cbn. lia.
    + intros rest. by rewrite Hone.
    + intros P rest HP H. apply Hall in H.
      destruct (Ascii.eqb d CR); [|done].
      destruct (post ++ rest) as [|c s]; [done|]. cbn [spec.split] in *.
      destruct (Ascii.eqb c LF); [by constructor | done].
Qed.

(** Data without a delimiter is the beginning of one line. *)
Lemma split_prefix pre rest :
  Forall (fun c => spec.delimiter c = false) pre ->
  exists l ls, spec.split false (pre ++ rest) = (pre ++ l) :: ls.
Proof.
  intros H. induction H as [|c pre Hc H (l & ls & IH)]; cbn [app].
  - destruct rest as [|c rest]; [by exists [], []|]. cbn [spec.split].
    destruct (Ascii.eqb c LF); [by eexists _, _|].
    destruct (Ascii.eqb c CR); [by eexists _, _|].
    unfold spec.push. destruct (spec.split false rest); by eexists _, _.
  - rewrite split_push, IH by done. by exists l, ls.
Qed.

(** The split function on data without a delimiter: it asks for more, or,
    at the end of the input, hands out what is left. *)
Lemma splitLines_no_delimiter data (atEOF : bool) :
  Forall (fun c => spec.delimiter c = false) data ->
  splitLines data atEOF =
    if atEOF then
      match data with
      | [] => (0%nat, None)
      | _ => (length data, Some data)
      end
    else (0%nat, None).
Proof.
  intros H. unfold splitLines.
  assert (IndexAny data [CR; LF] = None) as ->.
  { induction H as [|c data Hc H IH]; [done|]. cbn [IndexAny].
    by rewrite existsb_delimiter, Hc, IH. }
  destruct atEOF; [|done]. by destruct data.
Qed.

Lemma tokens_lines (fuel : nat) : forall pending reads (atEOF : bool),
  (atEOF = true -> reads = []) ->
  Forall (fun l => Z.of_nat (length l) < maxTokenSize)
    (spec.split false (pending ++ concat reads)) ->
  (bufio.todo pending reads atEOF < fuel)%nat ->
  exists ts,
    bufio.tokens splitLines maxTokenSize fuel pending reads atEOF = Some ts
    /\ nonEmpty ts = nonEmpty (spec.split false (pending ++ concat reads)).
Proof.
  induction fuel as [|fuel IH]; intros pending reads atEOF Heof Hshort Hfuel;
    [lia|].
  cbn [bufio.tokens].
  assert (Forall (fun c => spec.delimiter c = false) pending ->
          (maxTokenSize <=? Z.of_nat (length pending)) = false) as Hroom.
  { intros Hnd. apply Z.leb_gt.
    destruct (split_prefix pending (concat reads) Hnd) as (l & ls & Hs).
    rewrite Hs in Hshort. apply Forall_cons in Hshort as [Hl _].
    rewrite length_app in Hl. lia. }
  (* reading on, when no token can be cut from [pending] *)
  assert (atEOF = false ->
          exists ts,
            match reads with
            | [] => bufio.tokens splitLines maxTokenSize fuel pending [] true
            | chunk :: reads' =>
                bufio.tokens splitLines maxTokenSize fuel (pending ++ chunk)
                  reads' false
            end = Some ts
            /\ nonEmpty ts
               = nonEmpty (spec.split false (pending ++ concat reads)))
    as Hread.
  { intros ->. destruct reads as [|chunk reads'].
    - apply IH; [done | done | unfold bufio.todo in *; cbn in *; lia].
    - destruct (IH (pending ++ chunk) reads' false) as (ts & Hts & Hne).
      + done.
      + by rewrite <- app_assoc.
      + unfold bufio.todo in *. cbn in *. rewrite !length_app in *. lia.
      + exists ts. split; [done|]. rewrite Hne. by rewrite <- app_assoc. }
  destruct ((0 <? length pending)%nat || atEOF) eqn:Ecall.
  - destruct (IndexAny pending [CR; LF]) as [i|] eqn:Ei.
    + apply IndexAny_Some in Ei as (pre & d & post & -> & _ & Hd & Hpre).
      destruct (splitLines_delimiter pre d post atEOF Hpre Hd)
        as (advance & -> & Hadv & Hspec & Hkeep).
      destruct (IH (drop advance (pre ++ d :: post)) reads atEOF)
        as (ts & Hts & Hne).
      * done.
      * apply Hkeep; [unfold maxTokenSize; cbn; lia | done].
      * unfold bufio.todo in *. rewrite length_drop. lia.
      * exists (pre :: ts). rewrite Hts. split; [done|].
        by rewrite nonEmpty_cons, Hne, Hspec.
    + apply IndexAny_None in Ei.
      rewrite splitLines_no_delimiter by done.
      destruct atEOF.
      * rewrite (Heof eq_refl) in *. cbn [concat]. rewrite app_nil_r.
        destruct pending as [|c pending'].
        -- exists []. by split.
        -- destruct (IH [] [] true) as (ts & Hts & Hne);
             [done | repeat constructor
              | unfold bufio.todo in *; cbn in *; lia |].
           rewrite drop_all, Hts. exists ((c :: pending') :: ts).
           split; [done|].
           rewrite nonEmpty_cons, Hne.
           rewrite (split_no_delimiter (c :: pending')) by done.
           cbn [app concat spec.split]. rewrite nonEmpty_nil_cons.
           by rewrite app_nil_r.
      * rewrite drop_0, Hroom by done. by apply Hread.
  - apply orb_false_elim in Ecall as [Elen ->].
    destruct pending as [|c pending']; [|done].
    rewrite drop_0, Hroom by constructor. by apply Hread.
Qed.

(** C4: the scan loop sees the lines of the stream as the specification
    cuts them, a lone CR, a lone LF and the pair CR LF each ending one
    line and empty lines being dropped, however the reader delivers the
    stream in chunks, as long as each line is shorter than the scanner's
    buffer; the example stream gives exactly its three lines. *)
Theorem scanLines_mixed_delimiters :
  (forall reads,
     Forall (fun l => Z.of_nat (length l) < maxTokenSize)
       (spec.split false (concat reads)) ->
     scanLines reads = Some (spec.lines (concat reads)))
  /\ spec.lines examples.mixedStream
     = ["progress"; "line one"; "Transferred:   0.0 GiB / 1.0 GiB, 0%"]
  /\ scanLines [examples.mixedStream]
     = Some ["progress"; "line one"; "Transferred:   0.0 GiB / 1.0 GiB, 0%"]
  /\ (forall reads,
        concat reads = examples.mixedStream ->
        scanLines reads
        = Some ["progress"; "line one";
                "Transferred:   0.0 GiB / 1.0 GiB, 0%"]).
Proof.
  assert (forall reads,
            Forall (fun l => Z.of_nat (length l) < maxTokenSize)
              (spec.split false (concat reads)) ->
            scanLines reads = Some (spec.lines (concat reads))) as Hgen.
  { intros reads Hmax. unfold scanLines.
    destruct (tokens_lines (bufio.steps reads) [] reads false)
      as (ts & -> & Hne); [done | done | unfold bufio.todo, bufio.steps; cbn; lia |].
    cbn. by rewrite Hne. }
  assert (spec.lines examples.mixedStream
          = ["progress"; "line one"; "Transferred:   0.0 GiB / 1.0 GiB, 0%"])
    as Hex by (by vm_compute).
  assert (Forall (fun l => Z.of_nat (length l) < maxTokenSize)
            (spec.split false examples.mixedStream)) as Hshort.
  { replace (spec.split false examples.mixedStream)
      with [list_ascii_of_string "progress"; list_ascii_of_string "line one";
            list_ascii_of_string "Transferred:   0.0 GiB / 1.0 GiB, 0%"; []]
      by (vm_compute; reflexivity).
    repeat (constructor; [unfold maxTokenSize; cbn; lia|]). constructor. }
  split; [exact Hgen|]. split; [exact Hex|]. split.
  - rewrite Hgen; cbn [concat]; rewrite app_nil_r; [by rewrite Hex | done].
  - intros reads Hreads. rewrite Hgen; rewrite Hreads; [by rewrite Hex | done].
Qed.

End Splitter.

(** ** More on the transfer registry *)

Section Registry.

Import rclone.

Implicit Types (m : TransferManager) (id : string) (t : Transfer)
  (tm : gmap string Transfer).

Lemma tally_comm (s1 s2 : TransferStatus) (counts : Z * Z * Z * Z) :
  tally s1 (tally s2 counts) = tally s2 (tally s1 counts).
Proof. destruct counts as [[[p i] c] f], s1, s2; reflexivity. Qed.

(** Stats of a map with an entry at [id], from Stats of the rest. *)
Lemma Stats_entry tm id t :
  tm !! id = Some t ->
  Stats {| transfers := tm |}
  = tally (Status t) (Stats {| transfers := delete id tm |}).
Proof.
  intros H. unfold Stats. cbn.
  apply (map_fold_delete_L (fun _ t counts => tally (Status t) counts));
    [|done].
  intros. apply tally_comm.
Qed.

Lemma Stats_insert_fresh tm id t :
  tm !! id = None ->
  Stats {| transfers := <[id := t]> tm |}
  = tally (Status t) (Stats {| transfers := tm |}).
Proof.
  intros H. unfold Stats. cbn.
  apply (map_fold_insert_L (fun _ t counts => tally (Status t) counts));
    [|done].
  intros. apply tally_comm.
Qed.

Lemma Stats_insert tm id t :
  Stats {| transfers := <[id := t]> tm |}
  = tally (Status t) (Stats {| transfers := delete id tm |}).
Proof.
  rewrite <- insert_delete_eq. apply Stats_insert_fresh, lookup_delete_eq.
Qed.

(** Replacing an entry by one of the same status keeps the counts. *)
Lemma Stats_same_status tm id t t' :
  tm !! id = Some t -> Status t' = Status t ->
  Stats {| transfers := <[id := t']> tm |} = Stats {| transfers := tm |}.
Proof.
  intros H Hs. by rewrite Stats_insert, (Stats_entry tm id t), Hs.
Qed.

(** X1: the four counts of Stats are non-negative and add up to the number
    of registered transfers, which is also the number of transfers GetAll
    returns. *)
Theorem Stats_counts_every_transfer m :
  0 <= (Stats m).1.1.1 /\ 0 <= (Stats m).1.1.2 /\ 0 <= (Stats m).1.2
  /\ 0 <= (Stats m).2
  /\ (Stats m).1.1.1 + (Stats m).1.1.2 + (Stats m).1.2 + (Stats m).2
     = Z.of_nat (size (transfers m))
  /\ length (GetAll m) = size (transfers m).
Proof.
  assert (0 <= (Stats m).1.1.1 /\ 0 <= (Stats m).1.1.2 /\ 0 <= (Stats m).1.2
          /\ 0 <= (Stats m).2
          /\ (Stats m).1.1.1 + (Stats m).1.1.2 + (Stats m).1.2 + (Stats m).2
             = Z.of_nat (size (transfers m))) as H.
  { unfold Stats.
    apply (map_fold_weak_ind
             (fun (r : Z * Z * Z * Z) (tm : gmap string Transfer) =>
                0 <= r.1.1.1 /\ 0 <= r.1.1.2 /\ 0 <= r.1.2 /\ 0 <= r.2
                /\ r.1.1.1 + r.1.1.2 + r.1.2 + r.2 = Z.of_nat (size tm))).
    - cbn. rewrite map_size_empty. lia.
    - intros i x tm [[[p a] c] f] Hi IH.
      rewrite map_size_insert_None by done.
      destruct (Status x); cbn in *; lia. }
  destruct H as (H1 & H2 & H3 & H4 & H5). split_and!; try done.
  unfold GetAll. by rewrite length_fmap, length_map_to_list.
Qed.

(** No transfer is counted as pending or in progress exactly when every
    one is Completed or Failed. *)
Lemma Stats_done_iff m :
  ((Stats m).1.1.1 = 0 /\ (Stats m).1.1.2 = 0)
  <-> (forall id t, Get m id = Some t ->
         Status t = StatusCompleted \/ Status t = StatusFailed).
Proof.
  unfold Stats, Get.
  apply (map_fold_weak_ind
           (fun (r : Z * Z * Z * Z) (tm : gmap string Transfer) =>
              0 <= r.1.1.1 /\ 0 <= r.1.1.2
              /\ ((r.1.1.1 = 0 /\ r.1.1.2 = 0)
                  <-> (forall id t, tm !! id = Some t ->
                         Status t = StatusCompleted
                         \/ Status t = StatusFailed)))).
  - cbn. split_and!; try lia. split; [|done].
    intros _ id t H. by rewrite lookup_empty in H.
  - intros i x tm [[[p a] c] f] Hi (Hp & Ha & IH). cbn in *.
    assert (0 <= (tally (Status x) (p, a, c, f)).1.1.1
            /\ 0 <= (tally (Status x) (p, a, c, f)).1.1.2) as [Hp' Ha']
      by (destruct (Status x); cbn; lia).
    split; [done|]. split; [done|]. split.
    + intros [H1 H2] id t Hl.
      destruct (decide (i = id)) as [->|Hne].
      * rewrite lookup_insert_eq in Hl. injection Hl as ->.
        destruct (Status t); cbn in *; auto; lia.
      * rewrite lookup_insert_ne in Hl by done. apply IH in Hl; [done|].
        destruct (Status x); cbn in *; lia.
    + intros H.
      assert (Status x = StatusCompleted \/ Status x = StatusFailed) as Hx
        by (apply (H i); by rewrite lookup_insert_eq).
      assert (p = 0 /\ a = 0) as [-> ->].
      { apply IH. intros id t Hl. apply (H id).
        rewrite lookup_insert_ne; [done|]. intros ->. congruence. }
      destruct Hx as [-> | ->]; by cbn.
Qed.

(** X2: the test [pending == 0 && inProgress == 0] that the transfer view
    makes on Stats holds exactly when every registered transfer is
    Completed or Failed. *)
Theorem Stats_all_done m :
  ((Stats m).1.1.1 = 0 /\ (Stats m).1.1.2 = 0)
  <-> (forall id t, Get m id = Some t ->
         Status t = StatusCompleted \/ Status t = StatusFailed).
Proof. apply Stats_done_iff. Qed.

Lemma Stats_UpdateProgress m id pr bc bt sp :
  Stats (UpdateProgress m id pr bc bt sp) = Stats m.
Proof.
  destruct m as [tm]. unfold UpdateProgress. cbn [transfers].
  destruct (tm !! id) as [t|] eqn:E; [|done].
  by erewrite Stats_same_status.
Qed.

Ltac counts_eq :=
  repeat match goal with |- (_, _) = (_, _) => f_equal end; lia.

(** X3: Stats follows the life of a transfer.  Registering a new ID counts
    one more Pending; Start of a Pending transfer moves one from pending to
    in-progress; Complete and Fail of an InProgress transfer move one from
    in-progress to completed and to failed; UpdateProgress never changes
    the counts. *)
Theorem Stats_follows_lifecycle m id (p i c f : Z) :
  Stats m = (p, i, c, f) ->
  (forall pr bc bt sp, Stats (UpdateProgress m id pr bc bt sp) = (p, i, c, f))
  /\ (forall s d n, Get m id = None ->
        Stats (Add m id s d n) = (p + 1, i, c, f))
  /\ (forall t now, Get m id = Some t -> Status t = StatusPending ->
        Stats (Start m id now) = (p - 1, i + 1, c, f))
  /\ (forall t now, Get m id = Some t -> Status t = StatusInProgress ->
        Stats (Complete m id now) = (p, i - 1, c + 1, f))
  /\ (forall t e now, Get m id = Some t -> Status t = StatusInProgress ->
        Stats (Fail m id e now) = (p, i - 1, c, f + 1)).
Proof.
  destruct m as [tm]. unfold Get. cbn [transfers]. intros HS. split_and!.
  - intros pr bc bt sp. by rewrite Stats_UpdateProgress, HS.
  - intros s d n E. unfold Add. cbn [transfers].
    rewrite Stats_insert_fresh, HS by done. done.
  - intros t now E Hs. unfold Start. cbn [transfers]. rewrite E.
    rewrite Stats_insert. rewrite (Stats_entry tm id t E), Hs in HS.
    cbn [Status].
    destruct (Stats {| transfers := delete id tm |}) as [[[p0 i0] c0] f0].
    cbn in *. injection HS as <- <- <- <-. counts_eq.
  - intros t now E Hs. unfold Complete. cbn [transfers]. rewrite E.
    rewrite Stats_insert. rewrite (Stats_entry tm id t E), Hs in HS.
    cbn [Status].
    destruct (Stats {| transfers := delete id tm |}) as [[[p0 i0] c0] f0].
    cbn in *. injection HS as <- <- <- <-. counts_eq.
  - intros t e now E Hs. unfold Fail. cbn [transfers]. rewrite E.
    rewrite Stats_insert. rewrite (Stats_entry tm id t E), Hs in HS.
    cbn [Status].
    destruct (Stats {| transfers := delete id tm |}) as [[[p0 i0] c0] f0].
    cbn in *. injection HS as <- <- <- <-. counts_eq.
Qed.

(** X3 on a registry with one Pending transfer. *)
Lemma Stats_follows_lifecycle_witness :
  let m := Add NewTransferManager "t" "remote:a" "." 10 in
  Stats m = (1, 0, 0, 0)
  /\ Stats (Start m "t" 1) = (0, 1, 0, 0)
  /\ Stats (Complete (Start m "t" 1) "t" 2) = (0, 0, 1, 0).
Proof.
  cbv zeta.
  assert (Stats (Add NewTransferManager "t" "remote:a" "." 10) = (1, 0, 0, 0))
    as H0 by (vm_compute; reflexivity).
  pose proof (Stats_follows_lifecycle _ "t" _ _ _ _ H0) as (_ & _ & HS & _).
  assert (Stats (Start (Add NewTransferManager "t" "remote:a" "." 10) "t" 1)
          = (0, 1, 0, 0)) as H1.
  { eapply HS; vm_compute; reflexivity. }
  pose proof (Stats_follows_lifecycle _ "t" _ _ _ _ H1) as (_ & _ & _ & HC & _).
  split; [exact H0|]. split; [exact H1|].
  eapply HC; vm_compute; reflexivity.
Defined.

(** X4: only Add registers an ID and no call unregisters one; Start,
    UpdateProgress, Complete and Fail on an ID that is not registered
    return the registry as it was. *)
Theorem calls_keep_the_registered_IDs m (c : Call) :
  dom (transfers (call m c))
  = match c with
    | CallAdd id _ _ _ => {[id]} ∪ dom (transfers m)
    | _ => dom (transfers m)
    end
  /\ match c with
     | CallAdd _ _ _ _ => True
     | CallStart id _ | CallUpdateProgress id _ _ _ _ | CallComplete id _
     | CallFail id _ _ => Get m id = None -> call m c = m
     end.
Proof.
  destruct c as [id s d n|id now|id p bc bt sp|id now|id e now]; cbn [call];
    [unfold Add|unfold Start|unfold UpdateProgress|unfold Complete|unfold Fail];
    unfold Get.
  - cbn. split; [|done]. apply dom_insert_L.
  - destruct (transfers m !! id) as [t|] eqn:E; cbn; [|done].
    split; [|done]. by apply dom_insert_lookup_L.
  - destruct (transfers m !! id) as [t|] eqn:E; cbn; [|done].
    split; [|done]. by apply dom_insert_lookup_L.
  - destruct (transfers m !! id) as [t|] eqn:E; cbn; [|done].
    split; [|done]. by apply dom_insert_lookup_L.
  - destruct (transfers m !! id) as [t|] eqn:E; cbn; [|done].
    split; [|done]. by apply dom_insert_lookup_L.
Qed.

End Registry.

(** ** More on the progress parser *)

Section ParserMore.

Import rclone strings.

Implicit Types (pending : list ascii) (reads : list (list ascii))
  (mgr : TransferManager) (id line : string).

(** A scan ends, whatever the stream is. *)
Lemma tokens_total (fuel : nat) : forall pending reads (atEOF : bool),
  (bufio.todo pending reads atEOF < fuel)%nat ->
  is_Some (bufio.tokens splitLines maxTokenSize fuel pending reads atEOF).
Proof.
  induction fuel as [|fuel IH]; intros pending reads atEOF Hfuel; [lia|].
  cbn [bufio.tokens].
  assert (forall pending',
            (length pending' <= length pending)%nat -> atEOF = false ->
            is_Some
              (if maxTokenSize <=? Z.of_nat (length pending') then Some []
               else
                 match reads with
                 | [] =>
                     bufio.tokens splitLines maxTokenSize fuel pending' [] true
                 | chunk :: reads' =>
                     bufio.tokens splitLines maxTokenSize fuel
                       (pending' ++ chunk) reads' false
                 end)) as Hread.
  { intros pending' Hle ->. destruct (maxTokenSize <=? _); [done|].
    destruct reads as [|chunk reads'].
    - apply IH. unfold bufio.todo in *. cbn in *. lia.
    - apply IH. unfold bufio.todo in *. cbn in *.
      rewrite !length_app in *. lia. }
  destruct ((0 <? length pending)%nat || atEOF) eqn:Ecall.
  - destruct (IndexAny pending [CR; LF]) as [i|] eqn:Ei.
    + apply IndexAny_Some in Ei as (pre & d & post & -> & _ & Hd & Hpre).
      destruct (splitLines_delimiter pre d post atEOF Hpre Hd)
        as (advance & -> & Hadv & _).
      apply fmap_is_Some, IH. unfold bufio.todo in *.
      rewrite length_drop. lia.
    + apply IndexAny_None in Ei.
      rewrite splitLines_no_delimiter by done.
      destruct atEOF.
      * destruct pending as [|c pending']; [done|].
        apply fmap_is_Some, IH. unfold bufio.todo in *.
        rewrite drop_all. cbn in *. lia.
      * rewrite drop_0. by apply Hread.
  - apply orb_false_elim in Ecall as [_ ->]. rewrite drop_0. by apply Hread.
Qed.

(** A line leaves the manager as it was or updates the progress of [id],
    with no speed. *)
Lemma handleLine_cases id mgr line :
  handleLine id mgr line = mgr
  \/ exists p c t, handleLine id mgr line = UpdateProgress mgr id p c t "".
Proof.
  unfold handleLine. destruct (line =? "")%string; [by left|].
  destruct (decodeLine line) as [[[p c] t]|]; [|by left].
  right. by exists p, c, t.
Qed.

Lemma status_of_UpdateProgress mgr id id' p c t sp :
  status_of (UpdateProgress mgr id p c t sp) id' = status_of mgr id'.
Proof. apply (status_of_call mgr (CallUpdateProgress id p c t sp)). Qed.

(** What a run of lines can do to the manager. *)
Lemma handleLines_frame id (lines : list string) : forall mgr,
  (forall id', id' <> id ->
     Get (fold_left (handleLine id) lines mgr) id' = Get mgr id')
  /\ (forall id',
        status_of (fold_left (handleLine id) lines mgr) id'
        = status_of mgr id')
  /\ Stats (fold_left (handleLine id) lines mgr) = Stats mgr
  /\ (Get mgr id = None -> fold_left (handleLine id) lines mgr = mgr)
  /\ (forall t, Get mgr id = Some t ->
        exists t',
          Get (fold_left (handleLine id) lines mgr) id = Some t'
          /\ ID t' = ID t /\ Source t' = Source t
          /\ Destination t' = Destination t /\ Status t' = Status t
          /\ StartTime t' = StartTime t /\ EndTime t' = EndTime t
          /\ Error t' = Error t).
Proof.
  induction lines as [|line lines IH]; intros mgr.
  - cbn. split_and!; try done. intros t Ht. exists t. by split_and!.
  - cbn [fold_left].
    destruct (handleLine_cases id mgr line) as [E|(p & c & tot & E)];
      rewrite E; [apply IH|].
    destruct (IH (UpdateProgress mgr id p c tot ""))
      as (H1 & H2 & H3 & H4 & H5).
    split_and!.
    + intros id' Hne. by rewrite H1, UpdateProgress_lookup_ne.
    + intros id'. by rewrite H2, status_of_UpdateProgress.
    + by rewrite H3, Stats_UpdateProgress.
    + intros Hn. rewrite UpdateProgress_unregistered in * by done. auto.
    + intros t Ht.
      destruct (H5 _ (UpdateProgress_lookup mgr id t p c tot "" Ht))
        as (t' & Ht' & E1 & E2 & E3 & E4 & E5 & E6 & E7).
      exists t'. by split_and!.
Qed.

Lemma parseRcloneOutput_frame reads id mgr :
  exists mgr',
    parseRcloneOutput reads id mgr = Some mgr'
    /\ (forall id', id' <> id -> Get mgr' id' = Get mgr id')
    /\ (forall id', status_of mgr' id' = status_of mgr id')
    /\ Stats mgr' = Stats mgr
    /\ (Get mgr id = None -> mgr' = mgr)
    /\ (forall t, Get mgr id = Some t ->
          exists t',
            Get mgr' id = Some t'
            /\ ID t' = ID t /\ Source t' = Source t
            /\ Destination t' = Destination t /\ Status t' = Status t
            /\ StartTime t' = StartTime t /\ EndTime t' = EndTime t
            /\ Error t' = Error t).
Proof.
  unfold parseRcloneOutput.
  destruct (tokens_total (bufio.steps reads) [] reads false) as [ts ->];
    [unfold bufio.steps; lia|].
  eexists. split; [done|]. apply handleLines_frame.
Qed.

(** X5: parseRcloneOutput ends on every stream, and all it does to the
    manager is to update the progress fields of the transfer it is given:
    the other transfers, every status, the counts of Stats and, for that
    transfer, the identity, the times and the error are as before; when
    the transfer is not registered the manager is unchanged. *)
Theorem parseRcloneOutput_only_updates_progress reads id mgr :
  exists mgr',
    parseRcloneOutput reads id mgr = Some mgr'
    /\ (forall id', id' <> id -> Get mgr' id' = Get mgr id')
    /\ (forall id', status_of mgr' id' = status_of mgr id')
    /\ Stats mgr' = Stats mgr
    /\ (Get mgr id = None -> mgr' = mgr)
    /\ (forall t, Get mgr id = Some t ->
          exists t',
            Get mgr' id = Some t'
            /\ ID t' = ID t /\ Source t' = Source t
            /\ Destination t' = Destination t /\ Status t' = Status t
            /\ StartTime t' = StartTime t /\ EndTime t' = EndTime t
            /\ Error t' = Error t).
Proof. apply parseRcloneOutput_frame. Qed.

(** Start, Complete and Fail, seen through Get. *)
Lemma Start_Get mgr id now :
  (Get mgr id = None -> Start mgr id now = mgr)
  /\ (forall id', id' <> id -> Get (Start mgr id now) id' = Get mgr id')
  /\ (forall t, Get mgr id = Some t ->
        Get (Start mgr id now) id
        = Some {| ID := ID t; Source := Source t;
                  Destination := Destination t; Status := StatusInProgress;
                  Progress := Progress t; BytesCopied := BytesCopied t;
                  BytesTotal := BytesTotal t; Speed := Speed t;
                  StartTime := now; EndTime := EndTime t;
                  Error := Error t |}).
Proof.
  unfold Start, Get. destruct (transfers mgr !! id) as [t0|] eqn:E; cbn.
  - split_and!; [done | |].
    + intros id' Hne. by rewrite lookup_insert_ne.
    + intros t [= <-]. by rewrite lookup_insert_eq.
  - by split_and!.
Qed.

Lemma Complete_Get mgr id now :
  (Get mgr id = None -> Complete mgr id now = mgr)
  /\ (forall id', id' <> id -> Get (Complete mgr id now) id' = Get mgr id')
  /\ (forall t, Get mgr id = Some t ->
        Get (Complete mgr id now) id
        = Some {| ID := ID t; Source := Source t;
                  Destination := Destination t; Status := StatusCompleted;
                  Progress := Float64.of_Z 100;
                  BytesCopied := BytesCopied t;
                  BytesTotal := BytesTotal t; Speed := Speed t;
                  StartTime := StartTime t; EndTime := now;
                  Error := Error t |}).
Proof.
  unfold Complete, Get. destruct (transfers mgr !! id) as [t0|] eqn:E; cbn.
  - split_and!; [done | |].
    + intros id' Hne. by rewrite lookup_insert_ne.
    + intros t [= <-]. by rewrite lookup_insert_eq.
  - by split_and!.
Qed.

Lemma Fail_Get mgr id err now :
  (Get mgr id = None -> Fail mgr id err now = mgr)
  /\ (forall id', id' <> id -> Get (Fail mgr id err now) id' = Get mgr id')
  /\ (forall t, Get mgr id = Some t ->
        Get (Fail mgr id err now) id
        = Some {| ID := ID t; Source := Source t;
                  Destination := Destination t; Status := StatusFailed;
                  Progress := Progress t; BytesCopied := BytesCopied t;
                  BytesTotal := BytesTotal t; Speed := Speed t;
                  StartTime := StartTime t; EndTime := now;
                  Error := err |}).
Proof.
  unfold Fail, Get. destruct (transfers mgr !! id) as [t0|] eqn:E; cbn.
  - split_and!; [done | |].
    + intros id' Hne. by rewrite lookup_insert_ne.
    + intros t [= <-]. by rewrite lookup_insert_eq.
  - by split_and!.
Qed.

(** X6: CopyFile always returns.  It returns nil exactly when the process
    ran and ended without error.  Transfers other than its own are left as
    they were, and so is the whole manager when the pipe cannot be made or
    the ID is not registered.  Otherwise its transfer ends in a terminal
    status, stamped with the two times: Completed with progress 100 when
    nil is returned, Failed with the cause recorded when not. *)
Theorem CopyFile_ends_in_a_terminal_status mgr id (p : Process)
    (started finished : Time) :
  exists err mgr',
    CopyFile mgr id p started finished = Some (err, mgr')
    /\ (err = None <-> exists stderr, p = Exited stderr None)
    /\ (forall id', id' <> id -> Get mgr' id' = Get mgr id')
    /\ (Get mgr id = None \/ (exists e, p = PipeFailed e) -> mgr' = mgr)
    /\ (forall t, Get mgr id = Some t ->
          match p with
          | PipeFailed _ => True
          | StartFailed e | Exited _ (Some e) =>
              exists t',
                Get mgr' id = Some t' /\ Status t' = StatusFailed
                /\ Error t' = Some e
                /\ StartTime t' = started /\ EndTime t' = finished
          | Exited _ None =>
              exists t',
                Get mgr' id = Some t' /\ Status t' = StatusCompleted
                /\ Progress t' = Float64.of_Z 100 /\ Error t' = Error t
                /\ StartTime t' = started /\ EndTime t' = finished
          end).
Proof.
  destruct (Start_Get mgr id started) as (S0 & S1 & S2).
  destruct p as [e|e|stderr err]; cbn [CopyFile].
  - exists (Some ("failed to create stderr pipe: " ++ e)%string), mgr.
    split_and!; try done.
    split; [done | by intros [? ?]].
  - destruct (Fail_Get (Start mgr id started) id (Some e) finished)
      as (F0 & F1 & F2).
    eexists _, _. split; [done|]. split_and!.
    + split; [done | by intros [? ?]].
    + intros id' Hne. by rewrite F1, S1.
    + intros [Hn|[? ?]]; [|done]. rewrite S0 in * by done. by apply F0.
    + intros t Ht. eexists. split; [by apply F2, S2|]. by cbn.
  - destruct (parseRcloneOutput_frame stderr id (Start mgr id started))
      as (mgr1 & -> & P1 & _ & _ & P0 & P2).
    destruct err as [e|].
    + destruct (Fail_Get mgr1 id (Some e) finished) as (F0 & F1 & F2).
      eexists _, _. split; [done|]. split_and!.
      * split; [done | by intros [? [=]]].
      * intros id' Hne. by rewrite F1, P1, S1.
      * intros [Hn|[? ?]]; [|done]. rewrite S0 in * by done.
        rewrite P0 in * by done. by apply F0.
      * intros t Ht.
        destruct (P2 _ (S2 _ Ht)) as (t1 & Ht1 & E1 & E2 & E3 & E4 & E5 & E6 & E7).
        eexists. split; [by apply F2|]. by cbn.
    + destruct (Complete_Get mgr1 id finished) as (C0 & C1 & C2).
      eexists _, _. split; [done|]. split_and!.
      * split; [by exists stderr | done].
      * intros id' Hne. by rewrite C1, P1, S1.
      * intros [Hn|[? ?]]; [|done]. rewrite S0 in * by done.
        rewrite P0 in * by done. by apply C0.
      * intros t Ht.
        destruct (P2 _ (S2 _ Ht)) as (t1 & Ht1 & E1 & E2 & E3 & E4 & E5 & E6 & E7).
        eexists. split; [by apply C2|]. by cbn.
Qed.

End ParserMore.

(** ** Sizes and units *)

Section Sizes.

Import rclone.

(** X7: on what statsRegex captures, a number of digits and points and a
    unit, parseSize reads every spelling of the unit, the prefix in either
    case, with or without "i" and with or without "B" or "b", as the binary
    multiple of its prefix: 1024 for K up to 1024^5 for P.  A number that
    does not parse gives 0. *)
Theorem parseSize_unit_spellings (value : string) (c : ascii) (i b : string) :
  Forall (fun d => d = "."%char \/ strconv.digit d <> None)
    (list_ascii_of_string value) ->
  In c ["k"; "K"; "M"; "G"; "T"; "P"]%char ->
  In i [""; "i"] ->
  In b [""; "B"; "b"] ->
  parseSize value (String c (i ++ b))
  = match strconv.ParseFloat value with
    | None => 0
    | Some val =>
        Float64.to_int64
          (Float64.mul val
             (Float64.of_Z
                (1024 ^ (if Ascii.eqb (strings.upper c) "K" then 1
                         else if Ascii.eqb (strings.upper c) "M" then 2
                         else if Ascii.eqb (strings.upper c) "G" then 3
                         else if Ascii.eqb (strings.upper c) "T" then 4
                         else 5))))
    end.
Proof.
  intros _ Hc Hi Hb. unfold parseSize.
  destruct (strconv.ParseFloat value) as [val|]; [|done].
  cbn [In] in Hc, Hi, Hb.
  repeat match goal with
         | H : _ \/ _ |- _ => destruct H as [<-|H]
         | H : False |- _ => destruct H
         end;
    reflexivity.
Qed.

(** X7 for the unit of the example line. *)
Lemma parseSize_unit_spellings_witness :
  Forall (fun d => d = "."%char \/ strconv.digit d <> None)
    (list_ascii_of_string "1.234")
  /\ parseSize "1.234" "GiB" = 1324997410
  /\ parseSize "1.234" "GiB"
     = match strconv.ParseFloat "1.234" with
       | None => 0
       | Some val =>
           Float64.to_int64 (Float64.mul val (Float64.of_Z (1024 ^ 3)))
       end.
Proof.
  assert (Forall (fun d => d = "."%char \/ strconv.digit d <> None)
            (list_ascii_of_string "1.234")) as Hv.
  { cbn [list_ascii_of_string].
    repeat (apply Forall_cons_2;
            [first [by left | right; vm_compute; discriminate]|]).
    apply Forall_nil_2. }
  split; [exact Hv|]. split; [vm_compute; reflexivity|].
  apply (parseSize_unit_spellings "1.234" "G" "i" "B" Hv); cbn; auto.
Defined.

Lemma wrap64_id (z : Z) : - 2 ^ 63 <= z < 2 ^ 63 -> wrap64 z = z.
Proof.
  intros H. unfold wrap64. rewrite Z.mod_small by lia. lia.
Qed.

(** The loop of FormatSize on an [n] that takes [k] rounds. *)
Lemma scale_rounds (k : nat) : forall (fuel : nat) (n div exp : Z),
  (k < fuel)%nat ->
  0 <= n < 1024 ^ (Z.of_nat k + 1) ->
  (k <> 0%nat -> 1024 ^ Z.of_nat k <= n) ->
  0 < div -> div * 1024 ^ Z.of_nat k < 2 ^ 63 ->
  scale fuel n div exp = Some (div * 1024 ^ Z.of_nat k, exp + Z.of_nat k).
Proof.
  induction k as [|k IH]; intros fuel n div exp Hfuel Hn Hlow Hdiv Hfit;
    (destruct fuel as [|fuel]; [lia|]); cbn [scale].
  - cbn in Hn. destruct (Z.leb_spec 1024 n); [lia|].
    f_equal. f_equal; lia.
  - rewrite Nat2Z.inj_succ in *.
    replace (Z.succ (Z.of_nat k) + 1) with (Z.succ (Z.of_nat k + 1)) in *
      by lia.
    rewrite !Z.pow_succ_r in * by lia.
    assert (0 < 1024 ^ Z.of_nat k) by (apply Z.pow_pos_nonneg; lia).
    specialize (Hlow ltac:(lia)).
    destruct (Z.leb_spec 1024 n); [|nia].
    rewrite wrap64_id by nia.
    rewrite Z.quot_div_nonneg by lia.
    rewrite (IH fuel (n / 1024) (div * 1024) (exp + 1)).
    + f_equal. f_equal; lia.
    + lia.
    + split; [apply Z.div_pos; lia|].
      apply Z.div_lt_upper_bound; lia.
    + intros _. apply Z.div_le_lower_bound; lia.
    + lia.
    + lia.
Qed.

Section Format.

Variable Sprintf_d_B : Z -> string.
Variable Sprintf_1f_ciB : float64 -> ascii -> string.

(** X9: on every int64, FormatSize returns: the index into "KMGTPE" stays
    in range and the divisor does not wrap.  Below 1024, negative sizes
    included, the bytes are printed as they are; from 1024 on, the size is
    divided by the power of 1024 that brings it into [1, 1024), and the
    letter is the one of that power. *)
Theorem FormatSize_picks_the_unit (bytes : Z) :
  Float64.min_int64 <= bytes <= Float64.max_int64 ->
  (bytes < 1024 ->
   FormatSize Sprintf_d_B Sprintf_1f_ciB bytes = Some (Sprintf_d_B bytes))
  /\ (1024 <= bytes ->
      exists (e : Z) (c : ascii),
        0 <= e <= 5
        /\ byteAt "KMGTPE" e = Some c
        /\ 1024 ^ (e + 1) <= bytes < 1024 ^ (e + 2)
        /\ FormatSize Sprintf_d_B Sprintf_1f_ciB bytes
           = Some (Sprintf_1f_ciB
                     (Float64.div (Float64.of_Z bytes)
                        (Float64.of_Z (1024 ^ (e + 1)))) c)).
Proof.
  unfold Float64.min_int64, Float64.max_int64. intros Hrange. split.
  - intros Hlt. unfold FormatSize. destruct (Z.ltb_spec bytes 1024); [done|lia].
  - intros Hge. unfold FormatSize.
    destruct (Z.ltb_spec bytes 1024); [lia|].
    assert (exists k : nat,
              (k <= 5)%nat
              /\ 1024 ^ (Z.of_nat k + 1) <= bytes < 1024 ^ (Z.of_nat k + 2))
      as (k & Hk & Hb).
    { destruct (Z.lt_ge_cases bytes (1024 ^ 2)); [exists 0%nat; cbn; lia|].
      destruct (Z.lt_ge_cases bytes (1024 ^ 3)); [exists 1%nat; cbn; lia|].
      destruct (Z.lt_ge_cases bytes (1024 ^ 4)); [exists 2%nat; cbn; lia|].
      destruct (Z.lt_ge_cases bytes (1024 ^ 5)); [exists 3%nat; cbn; lia|].
      destruct (Z.lt_ge_cases bytes (1024 ^ 6)); [exists 4%nat; cbn; lia|].
      exists 5%nat. cbn. lia. }
    assert (0 < 1024 ^ Z.of_nat k) by (apply Z.pow_pos_nonneg; lia).
    rewrite Z.quot_div_nonneg by lia.
    rewrite (scale_rounds k 64 (bytes / 1024) 1024 0).
    + exists (Z.of_nat k).
      assert (exists c, byteAt "KMGTPE" (Z.of_nat k) = Some c) as [c Hc].
      { do 6 (destruct k as [|k]; [by eexists|]). lia. }
      exists c. rewrite Z.add_0_l, Hc.
      split; [lia|]. split; [done|]. split; [done|].
      replace (1024 * 1024 ^ Z.of_nat k) with (1024 ^ (Z.of_nat k + 1));
        [done|]. rewrite Z.pow_add_r by lia. lia.
    + lia.
    + split; [apply Z.div_pos; lia|].
      apply Z.div_lt_upper_bound; [lia|].
      destruct Hb as [_ Hb]. rewrite Z.pow_add_r in Hb by lia.
      rewrite Z.pow_add_r by lia. lia.
    + intros _. apply Z.div_le_lower_bound; [lia|].
      destruct Hb as [Hb _]. rewrite Z.pow_add_r in Hb by lia. lia.
    + lia.
    + do 6 (destruct k as [|k]; [cbn; lia|]). lia.
Qed.

End Format.

(** X9 at 1536 bytes, which are 1.5 KiB. *)
Lemma FormatSize_picks_the_unit_witness :
  Float64.min_int64 <= 1536 <= Float64.max_int64
  /\ exists (e : Z) (c : ascii),
       0 <= e <= 5
       /\ byteAt "KMGTPE" e = Some c
       /\ 1024 ^ (e + 1) <= 1536 < 1024 ^ (e + 2)
       /\ FormatSize (fun _ => "") (fun _ c => String c "") 1536
          = Some ((fun _ c => String c "")
                    (Float64.div (Float64.of_Z 1536)
                       (Float64.of_Z (1024 ^ (e + 1)))) c).
Proof.
  assert (Float64.min_int64 <= 1536 <= Float64.max_int64) as H
    by (unfold Float64.min_int64, Float64.max_int64; lia).
  split; [exact H|].
  apply (proj2 (FormatSize_picks_the_unit (fun _ => "")
                  (fun _ c => String c "") 1536 H)).
  lia.
Defined.

End Sizes.

(** ** Lines that cannot be progress lines *)

Section Marker.

Import rclone.

Lemma run_Str (lit : string) (r : regexp.Regexp) : forall s pos cs k res,
  regexp.run (regexp.Str lit r) s pos cs k = Some res ->
  exists s', s = list_ascii_of_string lit ++ s'.
Proof.
  induction lit as [|c lit IH]; intros s pos cs k res H; cbn in *.
  - by exists s.
  - destruct s as [|c' s]; [done|].
    destruct (Ascii.eqb_spec c c') as [->|]; [|done].
    apply IH in H as [s' ->]. by exists s'.
Qed.

Lemma search_Str (lit : string) (r : regexp.Regexp) (n : nat) : forall s pos res,
  regexp.search (regexp.Str lit r) s pos n = Some res ->
  exists pre post, s = pre ++ list_ascii_of_string lit ++ post.
Proof.
  induction s as [|c s IH]; intros pos res H; cbn [regexp.search] in H.
  - destruct (regexp.run _ _ _ _ _) eqn:E; [|done].
    apply run_Str in E as [s' ->]. by exists [], s'.
  - destruct (regexp.run _ _ _ _ _) eqn:E.
    + apply run_Str in E as [s' ->]. by exists [], s'.
    + apply IH in H as (pre & post & ->). by exists (c :: pre), post.
Qed.

Lemma string_app_of_list (a b : list ascii) :
  string_of_list_ascii (a ++ b)
  = (string_of_list_ascii a ++ string_of_list_ascii b)%string.
Proof. induction a as [|c a IH]; cbn; [done|by rewrite IH]. Qed.

Lemma decodeLine_marker (line : string) (r : float64 * Z * Z) :
  decodeLine line = Some r ->
  exists pre post : string, line = (pre ++ "Transferred:" ++ post)%string.
Proof.
  unfold decodeLine, regexp.FindStringSubmatch. intros H.
  destruct (regexp.search statsRegex _ _ _) as [cs|] eqn:E; [|done].
  apply (search_Str "Transferred:") in E as (pre & post & E).
  exists (string_of_list_ascii pre), (string_of_list_ascii post).
  rewrite <- (string_of_list_ascii_of_string line), E.
  by rewrite string_app_of_list, (string_app_of_list (list_ascii_of_string _)),
    string_of_list_ascii_of_string.
Qed.

(** X8: only a line with the text "Transferred:" in it can be decoded as a
    progress line; any other line of the output leaves the manager as it
    is. *)
Theorem lines_without_the_marker_are_ignored (line : string) :
  (forall r, decodeLine line = Some r ->
     exists pre post : string, line = (pre ++ "Transferred:" ++ post)%string)
  /\ ((forall pre post : string, line <> (pre ++ "Transferred:" ++ post)%string) ->
      forall id mgr, handleLine id mgr line = mgr).
Proof.
  split; [apply decodeLine_marker|].
  intros Hno id mgr. unfold handleLine.
  destruct (String.eqb line ""); [done|].
  destruct (decodeLine line) as [r|] eqn:E; [|done].
  apply decodeLine_marker in E as (pre & post & ->). by destruct (Hno pre post).
Qed.

End Marker.

(** ** Listing files *)

Section Listing.

Import rclone.

Lemma string_app_inj (p a b : string) : (p ++ a = p ++ b)%string -> a = b.
Proof. induction p as [|c p IH]; cbn; [done|]. intros [= H]. auto. Qed.

(** X10: a listing that decodes is returned item by item, in order, with no
    error, each path made the path of the item from the root of the remote.
    That path is the one enterDirectory moves to when the item is entered
    from the directory listed, and items of distinct names get distinct
    paths.  A failed command or an undecodable output gives an error and no
    item. *)
Theorem ListFiles_full_paths (remote path : string) (out : Lsjson) :
  match out with
  | LsjsonItems items =>
      (ListFiles remote path out).2 = None
      /\ FileItem_Name <$> (ListFiles remote path out).1 = FileItem_Name <$> items
      /\ FileItem_Size <$> (ListFiles remote path out).1 = FileItem_Size <$> items
      /\ FileItem_IsDir <$> (ListFiles remote path out).1
         = FileItem_IsDir <$> items
      /\ FileItem_ModTime <$> (ListFiles remote path out).1
         = FileItem_ModTime <$> items
      /\ (forall (m : main.Model) (f : FileItem),
            f ∈ (ListFiles remote path out).1 ->
            main.currentPath m = path ->
            main.currentPath (main.enterDirectory m (FileItem_Name f))
            = FileItem_Path f)
      /\ (NoDup (FileItem_Name <$> items) ->
          NoDup (FileItem_Path <$> (ListFiles remote path out).1))
  | _ =>
      (ListFiles remote path out).1 = []
      /\ exists msg, (ListFiles remote path out).2 = Some msg
  end.
Proof.
  destruct out as [err|err|items]; cbn [ListFiles fst snd];
    [by eauto|by eauto|].
  change (map ?f items) with (f <$> items).
  split; [done|].
  rewrite <- !list_fmap_compose.
  do 4 (split; [done|]).
  split.
  - intros m f Hf <-. apply list_elem_of_fmap in Hf as (it & -> & _). done.
  - intros Hnd.
    assert (FileItem_Path
            ∘ (fun it : FileItem =>
                 {| FileItem_Name := FileItem_Name it;
                    FileItem_Path :=
                      if (path =? "")%string then FileItem_Name it
                      else (path ++ "/" ++ FileItem_Name it)%string;
                    FileItem_Size := FileItem_Size it;
                    FileItem_IsDir := FileItem_IsDir it;
                    FileItem_ModTime := FileItem_ModTime it |})
            = (fun n => if (path =? "")%string then n
                        else (path ++ "/" ++ n)%string) ∘ FileItem_Name) as ->
      by done.
    rewrite list_fmap_compose. apply NoDup_fmap_2; [|done].
    intros a b. destruct (path =? "")%string; [done|].
    intros H. by apply string_app_inj, (string_app_inj "/") in H.
Qed.

End Listing.

(** ** Listing remotes *)

Section Remotes.

Import rclone strings.

Lemma trimLeft_head (c : ascii) (l : list ascii) :
  isSpace c = false -> trimLeft (c :: l) = c :: l.
Proof. intros H. cbn. by rewrite H. Qed.

Lemma list_ascii_app (a b : string) :
  list_ascii_of_string (a ++ b)
  = list_ascii_of_string a ++ list_ascii_of_string b.
Proof. induction a as [|c a IH]; simpl; [done|by rewrite IH]. Qed.

(** TrimSpace keeps a string that neither starts nor ends in white space,
    and drops one line feed behind it. *)
Lemma TrimSpace_ends (s : string) (c d : ascii) (mid tail : list ascii) :
  list_ascii_of_string s = c :: mid ++ d :: tail ->
  isSpace c = false -> isSpace d = false ->
  tail = [] \/ tail = [LF] ->
  TrimSpace s = string_of_list_ascii (c :: mid ++ [d]).
Proof.
  intros Hs Hc Hd Ht. unfold TrimSpace. rewrite Hs.
  rewrite trimLeft_head by done. f_equal.
  assert (rev (c :: mid ++ d :: tail) = rev tail ++ d :: rev (c :: mid)) as ->.
  { change (c :: mid ++ d :: tail) with ((c :: mid) ++ d :: tail).
    rewrite rev_app_distr. cbn [rev]. by rewrite <- !app_assoc. }
  assert (trimLeft (rev tail ++ d :: rev (c :: mid)) = d :: rev (c :: mid))
    as ->.
  { destruct Ht as [-> | ->]; cbn [rev app trimLeft]; by rewrite ?Hd. }
  change (rev (d :: rev (c :: mid))) with (rev (rev (c :: mid)) ++ [d]).
  by rewrite rev_involutive.
Qed.

(** A piece without the separator is cut off at the first separator. *)
Lemma Split_piece (sep : ascii) (s : string) :
  Forall (fun c => c <> sep) (list_ascii_of_string s) ->
  Split s sep = [s]
  /\ forall t, Split (s ++ String sep t) sep = s :: Split t sep.
Proof.
  induction s as [|c s IH]; intros H.
  - split; [done|]. intros t. simpl. by rewrite Ascii.eqb_refl.
  - cbn [list_ascii_of_string] in H.
    apply Forall_cons in H as [Hc H]. destruct (IH H) as [IH1 IH2].
    simpl.
    destruct (Ascii.eqb_spec c sep) as [->|_]; [done|].
    split; [by rewrite IH1|]. intros t. by rewrite IH2.
Qed.

Lemma TrimSuffix_colon (n : string) :
  TrimSuffix (n ++ ":") ":" = n.
Proof.
  unfold TrimSuffix, HasSuffix.
  assert (String.length (n ++ ":") = S (String.length n)) as ->.
  { induction n as [|c n IH]; simpl; [done|by rewrite IH]. }
  replace (String.length ":") with 1%nat by done.
  replace (S (String.length n) - 1)%nat with (String.length n) by lia.
  assert (substring (String.length n) 1 (n ++ ":") = ":") as ->.
  { induction n as [|c n IH]; simpl; [done|exact IH]. }
  replace ((1 <=? S (String.length n))%nat && (":" =? ":")%string)
    with true by done.
  induction n as [|c n IH]; simpl; [done|by rewrite IH].
Qed.

Lemma no_space_line (n : string) :
  n <> "" ->
  Forall (fun c => isSpace c = false) (list_ascii_of_string n) ->
  TrimSpace (n ++ ":") = (n ++ ":")%string
  /\ (n ++ ":")%string <> ""
  /\ Forall (fun c => c <> LF) (list_ascii_of_string (n ++ ":")).
Proof.
  intros Hne Hsp. destruct n as [|c n]; [done|].
  cbn in Hsp. apply Forall_cons in Hsp as [Hc Hsp]. split; [|split].
  - rewrite (TrimSpace_ends _ c ":" (list_ascii_of_string n) []);
      [|by rewrite list_ascii_app|done|done|by left].
    rewrite <- (string_of_list_ascii_of_string (String c n ++ ":")).
    by rewrite list_ascii_app.
  - done.
  - rewrite list_ascii_app. apply Forall_app. split.
    + constructor; [by intros ->|].
      eapply Forall_impl; [exact Hsp|]. by intros a Ha ->.
    + by repeat constructor.
Qed.

Lemma append_cons (x : ascii) (a b : string) :
  (String x a ++ b = String x (a ++ b))%string.
Proof. reflexivity. Qed.

Lemma string_app_assoc (a b c : string) :
  ((a ++ b) ++ c = a ++ (b ++ c))%string.
Proof.
  induction a as [|x a IH]; [done|]. by rewrite !append_cons, IH.
Qed.

(** The output for a non-empty list of names, without its last line feed:
    how it splits, and how it starts and ends. *)
Lemma listing_body (n : string) (names : list string) :
  Forall (fun n =>
            n <> ""
            /\ Forall (fun c => isSpace c = false) (list_ascii_of_string n))
    (n :: names) ->
  exists (body : string) (c : ascii) (mid : list ascii),
    fold_right (fun n out => (n ++ ":" ++ String LF out)%string) ""
      (n :: names)
    = (body ++ String LF "")%string
    /\ Split body LF = (fun n => (n ++ ":")%string) <$> (n :: names)
    /\ list_ascii_of_string body = c :: mid ++ [":"%char]
    /\ isSpace c = false.
Proof.
  revert n. induction names as [|n2 names IH]; intros n H.
  - apply Forall_cons in H as [[Hne Hsp] _].
    destruct (no_space_line n Hne Hsp) as (_ & _ & Hlf).
    destruct n as [|c n']; [done|].
    exists (String c n' ++ ":")%string, c, (list_ascii_of_string n').
    split; [by rewrite string_app_assoc|].
    split; [by apply Split_piece|].
    split; [by rewrite list_ascii_app|].
    cbn in Hsp. by apply Forall_cons in Hsp as [? _].
  - apply Forall_cons in H as [[Hne Hsp] H].
    destruct (IH n2 H) as (body & c2 & mid2 & Hout & HS & Hl & Hc2).
    destruct (no_space_line n Hne Hsp) as (_ & _ & Hlf).
    destruct n as [|c n']; [done|].
    exists (String c n' ++ ":" ++ String LF body)%string, c,
      (list_ascii_of_string n' ++ ":"%char :: LF :: c2 :: mid2).
    split; [|split; [|split]].
    + change (fold_right
                (fun n out => (n ++ ":" ++ String LF out)%string) ""
                (String c n' :: n2 :: names))
        with (String c n' ++ ":"
              ++ String LF
                   (fold_right
                      (fun n out => (n ++ ":" ++ String LF out)%string) ""
                      (n2 :: names)))%string.
      rewrite Hout, !string_app_assoc. by rewrite !append_cons.
    + rewrite <- string_app_assoc.
      rewrite (proj2 (Split_piece LF _ Hlf)), HS. done.
    + simpl. rewrite list_ascii_app. simpl. rewrite Hl.
      by rewrite <- !app_assoc.
    + cbn in Hsp. by apply Forall_cons in Hsp as [? _].
Qed.

Lemma lines_to_names (names : list string) :
  Forall (fun n =>
            n <> ""
            /\ Forall (fun c => isSpace c = false) (list_ascii_of_string n))
    names ->
  flat_map
    (fun line =>
       if negb (TrimSpace line =? "")%string
       then [TrimSuffix (TrimSpace line) ":"] else [])
    ((fun n => (n ++ ":")%string) <$> names)
  = names.
Proof.
  induction 1 as [|n names [Hne Hsp] _ IH]; [done|].
  cbn [fmap list_fmap flat_map].
  destruct (no_space_line n Hne Hsp) as (-> & Hne' & _).
  destruct (String.eqb_spec (n ++ ":") "") as [|_]; [done|].
  cbn [negb app]. by rewrite TrimSuffix_colon, IH.
Qed.

(** X27: ListRemotes gives back the names that [rclone listremotes] prints,
    one "name:" per line, in order: for names that are not empty and made of
    ASCII bytes other than white space, the output of the lines is read as
    exactly these names, with no error.  A failed command gives an error
    and no name. *)
Theorem ListRemotes_reads_the_names (names : list string) :
  Forall (fun n =>
            n <> ""
            /\ Forall (fun c => isSpace c = false
                                /\ (nat_of_ascii c < 128)%nat)
                 (list_ascii_of_string n))
    names ->
  ListRemotes
    (ListremotesOutput
       (fold_right (fun n out => (n ++ ":" ++ String LF out)%string) ""
          names))
  = (names, None)
  /\ forall e,
       ListRemotes (ListremotesFailed e)
       = ([], Some ("failed to list remotes: " ++ e)%string).
Proof.
  intros Hascii. split; [|done].
  assert (Forall (fun n =>
                    n <> ""
                    /\ Forall (fun c => isSpace c = false)
                         (list_ascii_of_string n)) names) as H.
  { eapply Forall_impl; [exact Hascii|]. intros n [Hne Hn].
    split; [done|]. eapply Forall_impl; [exact Hn|]. by intros c [? _]. }
  clear Hascii. unfold ListRemotes. cbv zeta. f_equal.
  destruct names as [|n names]; [done|].
  destruct (listing_body n names H) as (body & c & mid & -> & HS & Hl & Hc).
  rewrite (TrimSpace_ends _ c ":" mid [LF]);
    [|rewrite list_ascii_app, Hl; cbn; by rewrite <- app_assoc
     |done|done|by right].
  rewrite <- Hl, string_of_list_ascii_of_string, HS.
  by apply lines_to_names.
Qed.

End Remotes.

(** X27 on two remotes. *)
Lemma ListRemotes_reads_the_names_witness :
  Forall (fun n =>
            n <> ""
            /\ Forall (fun c => strings.isSpace c = false
                                /\ (nat_of_ascii c < 128)%nat)
                 (list_ascii_of_string n))
    ["gdrive"; "s3"]
  /\ rclone.ListRemotes
       (rclone.ListremotesOutput
          ("gdrive:" ++ String strings.LF ("s3:" ++ String strings.LF "")))
     = (["gdrive"; "s3"], None).
Proof.
  assert (Forall (fun n =>
                    n <> ""
                    /\ Forall (fun c => strings.isSpace c = false
                                        /\ (nat_of_ascii c < 128)%nat)
                         (list_ascii_of_string n))
            ["gdrive"; "s3"]) as H.
  { repeat (apply Forall_cons_2;
            [split; [discriminate|];
             cbn [list_ascii_of_string];
             repeat (apply Forall_cons_2;
                     [split; [reflexivity | vm_compute; lia]|]);
             apply Forall_nil_2|]).
    apply Forall_nil_2. }
  split; [exact H|].
  exact (proj1 (ListRemotes_reads_the_names ["gdrive"; "s3"] H)).
Defined.

(** ** More of the download queue *)

Section QueueMore.

Import queue.

Variable growslice : nat -> nat -> nat.

#[local] Arguments read : simpl never.
#[local] Arguments append : simpl never.

Lemma wrap64_add_l (a b : Z) :
  rclone.wrap64 (rclone.wrap64 a + b) = rclone.wrap64 (a + b).
Proof.
  unfold rclone.wrap64. f_equal.
  replace ((a + 2 ^ 63) mod 2 ^ 64 - 2 ^ 63 + b + 2 ^ 63)
    with ((a + 2 ^ 63) mod 2 ^ 64 + b) by lia.
  rewrite Z.add_mod_idemp_l by lia. f_equal. lia.
Qed.

Lemma wrap64_range (z : Z) : - 2 ^ 63 <= rclone.wrap64 z < 2 ^ 63.
Proof.
  unfold rclone.wrap64.
  pose proof (Z.mod_pos_bound (z + 2 ^ 63) (2 ^ 64) ltac:(lia)). lia.
Qed.

(** The loop of TotalSize from a running total. *)
Lemma total_fold (l : list Item) : forall (t : Z),
  fold_left (fun total item => rclone.wrap64 (total + Size item)) l
    (rclone.wrap64 t)
  = rclone.wrap64 (t + foldr Z.add 0 (Size <$> l)).
Proof.
  induction l as [|it l IH]; intros t; cbn.
  - f_equal. lia.
  - rewrite wrap64_add_l, IH. f_equal. lia.
Qed.

Lemma TotalSize_sum (q : Queue) :
  TotalSize q = rclone.wrap64 (foldr Z.add 0 (Size <$> elems q)).
Proof.
  unfold TotalSize.
  rewrite <- (wrap64_id 0) at 1 by lia. by rewrite total_fold.
Qed.

Lemma sizes_insert (l : list Item) (i : nat) (it it' : Item) :
  l !! i = Some it -> Size it' = Size it ->
  Size <$> <[i := it']> l = Size <$> l.
Proof.
  intros Hi Hs. rewrite list_fmap_insert, Hs.
  apply list_insert_id. by rewrite list_lookup_fmap, Hi.
Qed.

Lemma sum_nonneg (l : list Z) :
  Forall (fun z => 0 <= z) l -> 0 <= foldr Z.add 0 l.
Proof. induction 1; cbn; lia. Qed.

(** X11: TotalSize is the sum of the sizes, reduced to an int64; the sum
    itself when the sizes are not negative and their sum fits.  Progress
    and status updates do not change it, and an Add that appends adds the
    size of the file. *)
Theorem TotalSize_sums_the_sizes (q : Queue) :
  TotalSize q = rclone.wrap64 (foldr Z.add 0 (Size <$> elems q))
  /\ (Forall (fun it => 0 <= Size it) (elems q) ->
      foldr Z.add 0 (Size <$> elems q) <= Float64.max_int64 ->
      TotalSize q = foldr Z.add 0 (Size <$> elems q))
  /\ (wf q ->
      (forall path progress speed,
         TotalSize (UpdateProgress q path progress speed) = TotalSize q)
      /\ (forall path status err,
            TotalSize (SetStatus q path status err) = TotalSize q)
      /\ (forall remote file,
            Contains q remote (rclone.FileItem_Path file) = false ->
            TotalSize (Add growslice q remote file)
            = rclone.wrap64 (TotalSize q + rclone.FileItem_Size file))).
Proof.
  split; [apply TotalSize_sum|]. split.
  - intros Hpos Hfit. rewrite TotalSize_sum. apply wrap64_id.
    unfold Float64.max_int64 in Hfit.
    assert (0 <= foldr Z.add 0 (Size <$> elems q)); [|lia].
    apply sum_nonneg, Forall_fmap. by eapply Forall_impl.
  - intros Hwf. split; [|split].
    + intros path progress speed. rewrite !TotalSize_sum.
      rewrite elems_UpdateProgress by done.
      destruct (index_where _ _) as [i|]; [|done].
      destruct (elems q !! i) as [it|] eqn:E; [|done].
      by rewrite (sizes_insert _ _ it).
    + intros path status err. rewrite !TotalSize_sum.
      rewrite elems_SetStatus by done.
      destruct (index_where _ _) as [i|]; [|done].
      destruct (elems q !! i) as [it|] eqn:E; [|done].
      by rewrite (sizes_insert _ _ it).
    + intros remote file Hc. unfold TotalSize.
      destruct (Add_spec growslice q remote file Hwf) as [_ ->].
      rewrite Hc, fold_left_app. done.
Qed.

Lemma existsb_index_where (p : Item -> bool) (l : list Item) :
  existsb p l = true <-> exists i, index_where p l = Some i.
Proof.
  induction l as [|x l IH]; cbn.
  - split; [done|by intros [? ?]].
  - destruct (p x); cbn; [split; by eauto|].
    rewrite IH. split; intros [i Hi].
    + rewrite Hi. by eauto.
    + destruct (index_where p l); [by eauto|done].
Qed.

(** X12: HasPending answers whether GetNextPending finds an item: both
    look for an item whose status is StatusPending, and an Add that appends
    makes one. *)
Theorem HasPending_iff_GetNextPending (q : Queue) :
  (HasPending q = true <-> exists p, GetNextPending q = Some p)
  /\ (HasPending q = true
      <-> exists it, it ∈ elems q /\ Status it = StatusPending)
  /\ (HasPending q = false <-> GetNextPending q = None)
  /\ (wf q -> forall remote file,
        Contains q remote (rclone.FileItem_Path file) = false ->
        HasPending (Add growslice q remote file) = true).
Proof.
  assert (HasPending q = true <-> exists p, GetNextPending q = Some p) as H1.
  { unfold HasPending, GetNextPending. rewrite existsb_index_where.
    split.
    - intros [i ->]. by eauto.
    - intros [p Hp]. destruct (index_where _ _); [by eauto|done]. }
  split; [done|]. split; [|split].
  - unfold HasPending. rewrite existsb_exists.
    split; intros (it & Hin & Hs); exists it.
    + split; [by apply list_elem_of_In|by apply ItemStatus_eqb_eq].
    + split; [by apply list_elem_of_In|by apply ItemStatus_eqb_eq].
  - destruct (HasPending q) eqn:E.
    + destruct (proj1 H1 eq_refl) as [p ->]. done.
    + split; [|done]. intros _.
      destruct (GetNextPending q) eqn:E'; [|done].
      assert (false = true) by (apply H1; eauto). done.
  - intros Hwf remote file Hc. unfold HasPending.
    destruct (Add_spec growslice q remote file Hwf) as [_ ->].
    rewrite Hc, existsb_app. cbn. by rewrite orb_true_r.
Qed.

(** X13: SetStatus writes the first item of the path and no other: the
    status and the error are replaced, and the progress is set to 100 when
    the status is StatusCompleted and kept otherwise.  A second call hits
    the same item, so the last status and error win, while a progress of
    100 set by StatusCompleted stays. *)
Theorem SetStatus_first_match q path status err :
  wf q ->
  (exists it, it ∈ elems q /\ Path it = path) ->
  exists l1 it l2,
    elems q = l1 ++ it :: l2
    /\ Path it = path
    /\ Forall (fun x => Path x <> path) l1
    /\ elems (SetStatus q path status err) =
         l1 ++ {| Remote := Remote it; Path := Path it; Name := Name it;
                  Size := Size it; IsDir := IsDir it; Status := status;
                  Progress := match status with
                              | StatusCompleted => Float64.of_Z 100
                              | _ => Progress it
                              end;
                  Speed := Speed it; Error := err |} :: l2
    /\ forall status' err',
         elems (SetStatus (SetStatus q path status err) path status' err') =
           l1 ++ {| Remote := Remote it; Path := Path it; Name := Name it;
                    Size := Size it; IsDir := IsDir it; Status := status';
                    Progress := match status', status with
                                | StatusCompleted, _ | _, StatusCompleted =>
                                    Float64.of_Z 100
                                | _, _ => Progress it
                                end;
                    Speed := Speed it; Error := err' |} :: l2.
Proof.
  intros Hwf (it0 & Hin & Hp0).
  destruct (index_where (fun it => (Path it =? path)%string) (elems q))
    as [i|] eqn:Ei.
  - pose proof Ei as Hi.
    apply index_where_Some in Hi as (l1 & it & l2 & He & Hl & Hit & Hall).
    exists l1, it, l2. split; [done|]. split; [by apply String.eqb_eq|].
    split; [|split].
    + eapply Forall_impl; [exact Hall|]. intros x Hx. by apply String.eqb_neq.
    + rewrite elems_SetStatus, Ei, He by done.
      rewrite <- Hl, list_lookup_middle by done.
      rewrite <- (Nat.add_0_r (length l1)), insert_app_r.
      cbn. unfold with_status. by destruct status.
    + intros status' err'.
      assert (wf (SetStatus q path status err)) as Hwf'
        by apply (wf_call growslice q (CallSetStatus path status err) Hwf).
      assert (elems (SetStatus q path status err)
              = l1 ++ with_status status err it :: l2) as He'.
      { rewrite elems_SetStatus, Ei, He by done.
        rewrite <- Hl, list_lookup_middle by done.
        by rewrite <- (Nat.add_0_r (length l1)), insert_app_r. }
      assert (index_where (fun it => (Path it =? path)%string)
                (l1 ++ with_status status err it :: l2) = Some i) as Ei'.
      { rewrite <- Hl. clear -Hall Hit.
        induction Hall as [|x l1 Hx Hall IH]; cbn.
        - by rewrite Hit.
        - by rewrite Hx, IH. }
      rewrite elems_SetStatus, He', Ei' by done.
      rewrite <- Hl, list_lookup_middle by done.
      rewrite <- (Nat.add_0_r (length l1)), insert_app_r.
      cbn. unfold with_status. by destruct status, status'.
  - apply index_where_None in Ei. rewrite Forall_forall in Ei.
    apply Ei in Hin. apply String.eqb_neq in Hin. done.
Qed.

(** X14: on a path that no item has, UpdateProgress and SetStatus leave the
    queue, its array included, as it is. *)
Theorem unknown_path_changes_nothing q path :
  (forall it, it ∈ elems q -> Path it <> path) ->
  (forall progress speed, UpdateProgress q path progress speed = q)
  /\ (forall status err, SetStatus q path status err = q).
Proof.
  intros Hno.
  assert (index_where (fun it => (Path it =? path)%string) (elems q) = None)
    as E.
  { apply index_where_None, Forall_forall. intros it Hin.
    by apply String.eqb_neq, Hno. }
  split; intros; unfold UpdateProgress, SetStatus; by rewrite E.
Qed.

(** X15: Clear leaves an empty queue in a fresh array: nothing is contained
    or pending, the total is 0, and the next Add starts the queue anew.
    The arrays held before, and so the copies handed out by Items, are not
    touched. *)
Theorem Clear_empties_the_queue q :
  elems (Clear q) = []
  /\ Len (Clear q) = 0
  /\ wf (Clear q)
  /\ HasPending (Clear q) = false
  /\ TotalSize (Clear q) = 0
  /\ (forall remote path, Contains (Clear q) remote path = false)
  /\ (forall s, (base s < length (heap q))%nat ->
        read (heap (Clear q)) s = read (heap q) s)
  /\ (forall remote file,
        elems (Add growslice (Clear q) remote file) = [newItem remote file]).
Proof.
  assert (wf (Clear q)) as Hwf.
  { exists []. cbn. rewrite lookup_snoc_new. split; [done|cbn; lia]. }
  assert (elems (Clear q) = []) as He.
  { apply nil_length_inv. by rewrite wf_elems_length. }
  split; [done|]. split; [done|]. split; [done|].
  split; [by unfold HasPending; rewrite He|].
  split; [by unfold TotalSize; rewrite He|].
  split; [by intros; unfold Contains; rewrite He|].
  split.
  - intros s Hs. unfold read, backing. cbn. by rewrite lookup_app_l.
  - intros remote file.
    destruct (Add_spec growslice (Clear q) remote file Hwf) as [_ ->].
    unfold Contains. by rewrite He.
Qed.

Lemma Contains_Add q remote file r p :
  wf q ->
  Contains (Add growslice q remote file) r p
  = Contains q r p
    || ((remote =? r)%string && (rclone.FileItem_Path file =? p)%string).
Proof.
  intros Hwf.
  destruct (Add_spec growslice q remote file Hwf) as [_ He].
  unfold Contains at 1. rewrite He.
  destruct (Contains q remote (rclone.FileItem_Path file)) eqn:E.
  - fold (Contains q r p).
    destruct (String.eqb_spec remote r) as [<-|]; [|by rewrite orb_false_r].
    destruct (String.eqb_spec (rclone.FileItem_Path file) p) as [<-|];
      [|by rewrite orb_false_r].
    by rewrite E.
  - rewrite existsb_app. fold (Contains q r p). cbn.
    by rewrite orb_false_r.
Qed.

Lemma Len_length q : wf q -> Len q = Z.of_nat (length (elems q)).
Proof. intros H. unfold Len. by rewrite wf_elems_length. Qed.

(** X16: after Add the file is contained, whether Add appended it or found
    it; the length grows by one exactly when it was not contained, and no
    other key becomes contained. *)
Theorem Add_then_Contains q remote file :
  wf q ->
  Contains (Add growslice q remote file) remote (rclone.FileItem_Path file)
  = true
  /\ Len (Add growslice q remote file)
     = Len q + (if Contains q remote (rclone.FileItem_Path file) then 0 else 1)
  /\ (forall r p,
        Contains (Add growslice q remote file) r p
        = Contains q r p
          || ((remote =? r)%string && (rclone.FileItem_Path file =? p)%string))
  /\ Len q = Z.of_nat (length (elems q)).
Proof.
  intros Hwf.
  destruct (Add_spec growslice q remote file Hwf) as [Hwf' He].
  split; [|split; [|split]].
  - by rewrite Contains_Add, !String.eqb_refl, orb_true_r.
  - rewrite !Len_length, He by done.
    destruct (Contains q remote (rclone.FileItem_Path file)); [lia|].
    rewrite length_app. cbn. lia.
  - intros r p. by apply Contains_Add.
  - by apply Len_length.
Qed.

(** X17: on a queue built by calls from New, where no two items share a
    key, once an item is removed its key is no longer contained, the other
    keys are as before, and the length is one less. *)
Theorem Remove_forgets_the_item (cs : list Call) (i : nat) (it : Item) :
  let q := calls growslice New cs in
  elems q !! i = Some it ->
  Contains (Remove growslice q (Z.of_nat i)) (Remote it) (Path it) = false
  /\ (forall r p, (r, p) <> key it ->
        Contains (Remove growslice q (Z.of_nat i)) r p = Contains q r p)
  /\ Len (Remove growslice q (Z.of_nat i)) = Len q - 1.
Proof.
  intros q Hi.
  assert (wf q) as Hwf by apply wf_calls, wf_New.
  assert (NoDup (key <$> elems q)) as Hnd.
  { apply NoDup_keys_calls; [apply wf_New|]. cbn. constructor. }
  apply lookup_lt_Some in Hi as Hlt.
  assert (0 <= Z.of_nat i < Z.of_nat (len (items q))) as Hr
    by (rewrite <- wf_elems_length by done; lia).
  destruct (Remove_in_range growslice q (Z.of_nat i) Hwf Hr) as [Hwf' He].
  rewrite Nat2Z.id in He.
  apply take_drop_middle in Hi as Hsplit.
  rewrite <- Hsplit, fmap_app, fmap_cons in Hnd.
  apply NoDup_app in Hnd as (Hn1 & Hdisj & Hn2).
  apply NoDup_cons in Hn2 as [Hnot2 Hn2].
  assert (forall r p,
            Contains (Remove growslice q (Z.of_nat i)) r p = true
            <-> (r, p) ∈ key <$> take i (elems q)
                \/ (r, p) ∈ key <$> drop (S i) (elems q)) as HC.
  { intros r p. by rewrite Contains_true, He, fmap_app, elem_of_app. }
  assert (forall r p,
            Contains q r p = true
            <-> (r, p) ∈ key <$> take i (elems q)
                \/ (r, p) = key it
                \/ (r, p) ∈ key <$> drop (S i) (elems q)) as HQ.
  { intros r p. rewrite Contains_true. rewrite <- Hsplit at 1.
    by rewrite fmap_app, fmap_cons, elem_of_app, elem_of_cons. }
  split; [|split].
  - apply not_true_is_false. rewrite HC. intros [H|H].
    + apply (Hdisj _ H). apply elem_of_cons. by left.
    + by apply Hnot2.
  - intros r p Hne.
    destruct (Contains q r p) eqn:E.
    + apply HC. apply HQ in E as [?|[?|?]]; by auto.
    + apply not_true_is_false. rewrite HC. intros H.
      assert (Contains q r p = true); [|congruence].
      apply HQ. by destruct H; auto.
  - unfold Len. rewrite <- !wf_elems_length, He by done.
    rewrite length_app, length_take, length_drop. lia.
Qed.

End QueueMore.

(** X13 on a queue of two items of the path "a": the first is completed,
    then set to StatusError, and keeps the progress of 100. *)
Lemma SetStatus_first_match_witness :
  let file name :=
    {| rclone.FileItem_Name := name; rclone.FileItem_Path := name;
       rclone.FileItem_Size := 1; rclone.FileItem_IsDir := false;
       rclone.FileItem_ModTime := "" |} in
  let q := queue.adds queue.double_cap queue.New
             [("one", file "a"); ("two", file "a")] in
  (queue.Progress
     <$> queue.elems
           (queue.SetStatus
              (queue.SetStatus q "a" queue.StatusCompleted None)
              "a" queue.StatusError (Some "exit status 1"))
   = [Float64.of_Z 100; Float64.zero])
  /\ exists l1 it l2,
       queue.elems q = l1 ++ it :: l2
       /\ queue.Path it = "a"
       /\ Forall (fun x => queue.Path x <> "a") l1
       /\ queue.elems (queue.SetStatus q "a" queue.StatusCompleted None) =
            l1 ++ {| queue.Remote := queue.Remote it;
                     queue.Path := queue.Path it;
                     queue.Name := queue.Name it;
                     queue.Size := queue.Size it;
                     queue.IsDir := queue.IsDir it;
                     queue.Status := queue.StatusCompleted;
                     queue.Progress := Float64.of_Z 100;
                     queue.Speed := queue.Speed it;
                     queue.Error := None |} :: l2
       /\ forall status' err',
            queue.elems
              (queue.SetStatus
                 (queue.SetStatus q "a" queue.StatusCompleted None)
                 "a" status' err') =
              l1 ++ {| queue.Remote := queue.Remote it;
                       queue.Path := queue.Path it;
                       queue.Name := queue.Name it;
                       queue.Size := queue.Size it;
                       queue.IsDir := queue.IsDir it;
                       queue.Status := status';
                       queue.Progress :=
                         match status', queue.StatusCompleted with
                         | queue.StatusCompleted, _
                         | _, queue.StatusCompleted => Float64.of_Z 100
                         | _, _ => queue.Progress it
                         end;
                       queue.Speed := queue.Speed it;
                       queue.Error := err' |} :: l2.
Proof.
  cbv zeta. split; [vm_compute; reflexivity|].
  apply (SetStatus_first_match queue.double_cap _ "a" queue.StatusCompleted
           None).
  - eexists. split; [vm_compute; reflexivity | vm_compute; lia].
  - eexists. split.
    + apply list_elem_of_lookup. exists 0%nat. vm_compute. reflexivity.
    + reflexivity.
Defined.

(** X14 on a queue of one item and another path. *)
Lemma unknown_path_changes_nothing_witness :
  let file :=
    {| rclone.FileItem_Name := "a"; rclone.FileItem_Path := "dir/a";
       rclone.FileItem_Size := 1; rclone.FileItem_IsDir := false;
       rclone.FileItem_ModTime := "" |} in
  let q := queue.Add queue.double_cap queue.New "remote" file in
  (forall it, it ∈ queue.elems q -> queue.Path it <> "a")
  /\ (forall progress speed, queue.UpdateProgress q "a" progress speed = q)
  /\ (forall status err, queue.SetStatus q "a" status err = q).
Proof.
  cbv zeta.
  assert (forall it,
            it ∈ queue.elems
                   (queue.Add queue.double_cap queue.New "remote"
                      {| rclone.FileItem_Name := "a";
                         rclone.FileItem_Path := "dir/a";
                         rclone.FileItem_Size := 1;
                         rclone.FileItem_IsDir := false;
                         rclone.FileItem_ModTime := "" |}) ->
            queue.Path it <> "a") as H.
  { intros it Hin. apply list_elem_of_lookup in Hin as [i Hi].
    destruct i as [|[|i]]; vm_compute in Hi; [|done|done].
    injection Hi as <-. done. }
  split; [exact H|]. exact (unknown_path_changes_nothing _ "a" H).
Defined.

(** X16 on the empty queue. *)
Lemma Add_then_Contains_witness :
  let file :=
    {| rclone.FileItem_Name := "a"; rclone.FileItem_Path := "dir/a";
       rclone.FileItem_Size := 1; rclone.FileItem_IsDir := false;
       rclone.FileItem_ModTime := "" |} in
  queue.wf queue.New
  /\ queue.Contains (queue.Add queue.double_cap queue.New "remote" file)
       "remote" (rclone.FileItem_Path file) = true
  /\ queue.Len (queue.Add queue.double_cap queue.New "remote" file)
     = queue.Len queue.New
       + (if queue.Contains queue.New "remote" (rclone.FileItem_Path file)
          then 0 else 1)
  /\ (forall r p,
        queue.Contains (queue.Add queue.double_cap queue.New "remote" file) r p
        = queue.Contains queue.New r p
          || (("remote" =? r)%string
              && (rclone.FileItem_Path file =? p)%string))
  /\ queue.Len queue.New = Z.of_nat (length (queue.elems queue.New)).
Proof.
  cbv zeta. split; [apply wf_New|].
  apply (Add_then_Contains queue.double_cap). apply wf_New.
Defined.

(** X17 on a queue of three items and the second. *)
Lemma Remove_forgets_the_item_witness :
  let file name :=
    {| rclone.FileItem_Name := name; rclone.FileItem_Path := name;
       rclone.FileItem_Size := 1; rclone.FileItem_IsDir := false;
       rclone.FileItem_ModTime := "" |} in
  let q := queue.calls queue.double_cap queue.New
             [queue.CallAdd "remote" (file "a");
              queue.CallAdd "remote" (file "b");
              queue.CallAdd "remote" (file "c")] in
  queue.elems q !! 1%nat = Some (queue.newItem "remote" (file "b"))
  /\ queue.Contains (queue.Remove queue.double_cap q (Z.of_nat 1))
       "remote" "b" = false
  /\ (forall r p, (r, p) <> ("remote", "b") ->
        queue.Contains (queue.Remove queue.double_cap q (Z.of_nat 1)) r p
        = queue.Contains q r p)
  /\ queue.Len (queue.Remove queue.double_cap q (Z.of_nat 1))
     = queue.Len q - 1.
Proof.
  cbv zeta. split; [vm_compute; reflexivity|].
  apply (Remove_forgets_the_item queue.double_cap
           [queue.CallAdd "remote" _; queue.CallAdd "remote" _;
            queue.CallAdd "remote" _] 1
           (queue.newItem "remote"
              {| rclone.FileItem_Name := "b"; rclone.FileItem_Path := "b";
                 rclone.FileItem_Size := 1; rclone.FileItem_IsDir := false;
                 rclone.FileItem_ModTime := "" |})).
  vm_compute. reflexivity.
Defined.

(** ** The file browser *)

Section Browser.

Import main.

Lemma get_lookup (s : string) (i : nat) :
  String.get i s = list_ascii_of_string s !! i.
Proof.
  revert i. induction s as [|c s IH]; intros [|i]; cbn; auto.
Qed.

Lemma length_list_ascii (s : string) :
  length (list_ascii_of_string s) = String.length s.
Proof. induction s as [|c s IH]; cbn; auto. Qed.

Lemma substring_take_drop (s : string) : forall (i n : nat),
  list_ascii_of_string (substring i n s)
  = take n (drop i (list_ascii_of_string s)).
Proof.
  induction s as [|c s IH]; intros [|i] [|n]; cbn; auto.
  - by rewrite (IH 0%nat n), drop_0.
Qed.

(** equalFold compares the two strings byte by byte after lower-casing the
    ASCII letters. *)
Lemma equalFold_spec (s t : string) :
  equalFold s t = true
  <-> lower <$> list_ascii_of_string s = lower <$> list_ascii_of_string t.
Proof.
  unfold equalFold.
  destruct (Nat.eqb_spec (String.length s) (String.length t)) as [Hlen|Hlen];
    cbn [negb].
  - rewrite forallb_forall. split.
    + intros H. apply list_eq_same_length with (String.length s);
        [by rewrite length_fmap, length_list_ascii
        |by rewrite length_fmap, length_list_ascii|].
      intros i x y Hi Hx Hy.
      specialize (H i ltac:(apply in_seq; lia)).
      rewrite !get_lookup in H.
      rewrite list_lookup_fmap in Hx, Hy.
      destruct (list_ascii_of_string s !! i) as [a|]; [|done].
      destruct (list_ascii_of_string t !! i) as [b|]; [|done].
      apply Ascii.eqb_eq in H. cbn in Hx, Hy. congruence.
    + intros H i Hi. apply in_seq in Hi.
      rewrite !get_lookup.
      assert (is_Some (list_ascii_of_string s !! i)) as [a Ha]
        by (apply lookup_lt_is_Some; rewrite length_list_ascii; lia).
      assert (is_Some (list_ascii_of_string t !! i)) as [b Hb]
        by (apply lookup_lt_is_Some; rewrite length_list_ascii; lia).
      rewrite Ha, Hb. apply Ascii.eqb_eq.
      assert ((lower <$> list_ascii_of_string s) !! i
              = (lower <$> list_ascii_of_string t) !! i) as E by by rewrite H.
      rewrite !list_lookup_fmap, Ha, Hb in E. by injection E.
  - split; [done|]. intros H.
    apply (f_equal length) in H.
    rewrite !length_fmap, !length_list_ascii in H. done.
Qed.

(** containsIgnoreCase: the lower-cased [substr] occurs in the lower-cased
    [s]. *)
Lemma containsIgnoreCase_spec (s substr : string) :
  containsIgnoreCase s substr = true
  <-> exists pre post : list ascii,
        lower <$> list_ascii_of_string s
        = pre ++ (lower <$> list_ascii_of_string substr) ++ post.
Proof.
  unfold containsIgnoreCase, containsFold.
  set (ls := list_ascii_of_string s).
  set (lt := list_ascii_of_string substr).
  assert (String.length s = length ls) as Hs
    by (symmetry; apply length_list_ascii).
  assert (String.length substr = length lt) as Ht
    by (symmetry; apply length_list_ascii).
  rewrite Hs, Ht.
  split.
  - intros H. apply orb_true_iff in H as [H|H].
    + apply Nat.eqb_eq in H. destruct lt; [|done].
      exists [], (lower <$> ls). done.
    + apply andb_true_iff in H as [Hle H]. apply Nat.leb_le in Hle.
      apply existsb_exists in H as (i & Hi & H). apply in_seq in Hi.
      apply equalFold_spec in H. rewrite substring_take_drop in H.
      fold ls in H. fold lt in H.
      exists (lower <$> take i ls), (lower <$> drop (i + length lt) ls).
      rewrite <- H, <- !fmap_app. f_equal.
      rewrite <- (take_drop i ls) at 1. f_equal.
      rewrite <- (take_drop (length lt) (drop i ls)) at 1.
      by rewrite drop_drop.
  - intros (pre & post & H).
    destruct (Nat.eqb_spec (length lt) 0) as [|Hne]; [done|]. cbn.
    apply (f_equal length) in H as Hlen.
    rewrite !length_app, !length_fmap in Hlen.
    apply andb_true_iff. split; [apply Nat.leb_le; lia|].
    apply existsb_exists. exists (length pre). split.
    + apply in_seq. lia.
    + apply equalFold_spec. rewrite substring_take_drop.
      fold ls. fold lt.
      rewrite fmap_take, fmap_drop, H.
      rewrite drop_app_length.
      rewrite <- (length_fmap lower lt).
      by rewrite take_app_length.
Qed.

(** The test on the empty filter text is a shortcut: every name contains
    the empty string. *)
Lemma filteredFiles_filter (m : App) :
  filteredFiles m
  = List.filter
      (fun f =>
         containsIgnoreCase (rclone.FileItem_Name (FileItem f))
           (filterText (nav m)))
      (files m).
Proof.
  unfold filteredFiles.
  destruct (String.eqb_spec (filterText (nav m)) "") as [->|]; [|done].
  induction (files m) as [|f l IH]; [done|].
  cbn [List.filter]. unfold containsIgnoreCase at 1.
  cbn [String.length Nat.eqb orb]. by rewrite <- IH.
Qed.

(** X18: the files shown are the files whose name contains the filter
    text, upper and lower case ASCII letters taken as equal, in the order
    of the listing; the selection flags play no part. *)
Theorem filter_shows_the_matching_files (m : App) :
  (forall s substr : string,
     containsIgnoreCase s substr = true
     <-> exists pre post : list ascii,
           lower <$> list_ascii_of_string s
           = pre ++ (lower <$> list_ascii_of_string substr) ++ post)
  /\ filteredFiles m
     = List.filter
         (fun f =>
            containsIgnoreCase (rclone.FileItem_Name (FileItem f))
              (filterText (nav m)))
         (files m)
  /\ (forall f,
        f ∈ filteredFiles m
        <-> f ∈ files m
            /\ exists pre post : list ascii,
                 lower <$> list_ascii_of_string
                             (rclone.FileItem_Name (FileItem f))
                 = pre
                   ++ (lower <$> list_ascii_of_string (filterText (nav m)))
                   ++ post)
  /\ (filterText (nav m) = "" -> filteredFiles m = files m).
Proof.
  split; [apply containsIgnoreCase_spec|].
  split; [apply filteredFiles_filter|]. split.
  - intros f. rewrite filteredFiles_filter, list_elem_of_In, filter_In.
    by rewrite <- list_elem_of_In, containsIgnoreCase_spec.
  - intros H. unfold filteredFiles. by rewrite H.
Qed.

Lemma set_first_FileItem path flag (l : list BrowserItem) :
  FileItem <$> set_first path flag l = FileItem <$> l.
Proof.
  induction l as [|f l IH]; cbn; [done|].
  destruct (_ =? _)%string; cbn; [done|by rewrite IH].
Qed.

Lemma set_first_twice path (l : list BrowserItem) :
  set_first path negb (set_first path negb l) = l.
Proof.
  induction l as [|f l IH]; cbn; [done|].
  destruct (_ =? _)%string eqn:E; cbn; rewrite E.
  - rewrite negb_involutive. by destruct f.
  - by rewrite IH.
Qed.

Lemma set_first_split path flag (l : list BrowserItem) (f : BrowserItem) :
  f ∈ l -> rclone.FileItem_Path (FileItem f) = path ->
  exists l1 g l2,
    l = l1 ++ g :: l2
    /\ rclone.FileItem_Path (FileItem g) = path
    /\ Forall (fun x => rclone.FileItem_Path (FileItem x) <> path) l1
    /\ set_first path flag l
       = l1 ++ {| FileItem := FileItem g; Selected := flag (Selected g) |}
            :: l2.
Proof.
  intros Hin Hp. induction l as [|x l IH]; [by apply elem_of_nil in Hin|].
  cbn. destruct (String.eqb_spec (rclone.FileItem_Path (FileItem x)) path)
    as [E|E].
  - exists [], x, l. by repeat split.
  - apply elem_of_cons in Hin as [->|Hin]; [done|].
    destruct (IH Hin) as (l1 & g & l2 & -> & Hg & Hall & ->).
    exists (x :: l1), g, l2. repeat split; [done|by constructor].
Qed.

(** Filtering by a predicate on the FileItem commutes with forgetting the
    flags. *)
Lemma filter_FileItem (P : rclone.FileItem -> bool) (l : list BrowserItem) :
  forall l', FileItem <$> l = FileItem <$> l' ->
  FileItem <$> List.filter (fun f => P (FileItem f)) l
  = FileItem <$> List.filter (fun f => P (FileItem f)) l'.
Proof.
  induction l as [|x l IH]; intros [|y l'] H; try done.
  cbn in H. injection H as Hxy H. cbn. rewrite Hxy.
  destruct (P (FileItem y)); cbn; [rewrite Hxy; f_equal|]; by apply IH.
Qed.

Lemma filteredFiles_FileItem (m : App) (fs : list BrowserItem) :
  FileItem <$> fs = FileItem <$> files m ->
  FileItem <$> filteredFiles (with_files m fs) = FileItem <$> filteredFiles m.
Proof.
  intros H. rewrite !filteredFiles_filter. cbn.
  by apply (filter_FileItem
              (fun f => containsIgnoreCase (rclone.FileItem_Name f)
                          (filterText (nav m)))).
Qed.

Lemma filteredFiles_subset (m : App) (f : BrowserItem) :
  f ∈ filteredFiles m -> f ∈ files m.
Proof.
  rewrite filteredFiles_filter, !list_elem_of_In, filter_In. tauto.
Qed.

Lemma NoDup_fmap_eq {A B} (h : A -> B) (l : list A) (x y : A) :
  NoDup (h <$> l) -> x ∈ l -> y ∈ l -> h x = h y -> x = y.
Proof.
  induction l as [|a l IH]; cbn; intros Hnd Hx Hy E;
    [by apply elem_of_nil in Hx|].
  apply NoDup_cons in Hnd as [Hna Hnd].
  apply elem_of_cons in Hx as [->|Hx]; apply elem_of_cons in Hy as [->|Hy].
  - done.
  - destruct Hna. rewrite E. by apply list_elem_of_fmap_2.
  - destruct Hna. rewrite <- E. by apply list_elem_of_fmap_2.
  - by apply IH.
Qed.

(** X19: toggleSelection flips the flag of one file and changes nothing
    else: the first file of the listing that has the path of the file
    under the cursor, which is that file when the paths of the listing are
    distinct.  A second call flips it back, and a cursor outside the files
    shown selects nothing. *)
Theorem toggleSelection_flips_one_flag (m : App) :
  toggleSelection (toggleSelection m) = m
  /\ (forall f,
        0 <= fileIndex (nav m) ->
        filteredFiles m !! Z.to_nat (fileIndex (nav m)) = Some f ->
        exists l1 g l2,
          files m = l1 ++ g :: l2
          /\ rclone.FileItem_Path (FileItem g)
             = rclone.FileItem_Path (FileItem f)
          /\ Forall (fun x => rclone.FileItem_Path (FileItem x)
                              <> rclone.FileItem_Path (FileItem f)) l1
          /\ toggleSelection m
             = with_files m
                 (l1 ++ {| FileItem := FileItem g;
                           Selected := negb (Selected g) |} :: l2)
          /\ (NoDup ((fun x => rclone.FileItem_Path (FileItem x))
                       <$> files m) -> g = f))
  /\ (fileIndex (nav m) < 0
      \/ Z.of_nat (length (filteredFiles m)) <= fileIndex (nav m) ->
      toggleSelection m = m).
Proof.
  split; [|split].
  - unfold toggleSelection at 2.
    destruct ((0 <=? _) && _) eqn:Hc; [|unfold toggleSelection; by rewrite Hc].
    destruct (filteredFiles m !! _) as [f|] eqn:Hf;
      [|unfold toggleSelection; by rewrite Hc, Hf].
    set (p := rclone.FileItem_Path (FileItem f)).
    pose proof (filteredFiles_FileItem m (set_first p negb (files m))
                  (set_first_FileItem _ _ _)) as HF.
    unfold toggleSelection. cbn [nav with_files].
    assert (length (filteredFiles (with_files m (set_first p negb (files m))))
            = length (filteredFiles m)) as Hlen.
    { apply (f_equal length) in HF. by rewrite !length_fmap in HF. }
    rewrite Hlen, Hc.
    assert ((FileItem <$> filteredFiles
                            (with_files m (set_first p negb (files m))))
              !! Z.to_nat (fileIndex (nav m))
            = Some (FileItem f)) as Hf'
      by by rewrite HF, list_lookup_fmap, Hf.
    rewrite list_lookup_fmap in Hf'.
    destruct (filteredFiles (with_files m _) !! _) as [f'|]; [|done].
    injection Hf' as ->. fold p. cbn [files with_files].
    rewrite set_first_twice. by destruct m.
  - intros f Hidx Hf. unfold toggleSelection.
    apply lookup_lt_Some in Hf as Hlt.
    destruct (Z.leb_spec 0 (fileIndex (nav m))); [|lia].
    destruct (Z.ltb_spec (fileIndex (nav m))
                (Z.of_nat (length (filteredFiles m)))); [|lia].
    cbn [andb]. rewrite Hf.
    assert (f ∈ files m) as Hin
      by (apply filteredFiles_subset; by eapply list_elem_of_lookup_2).
    destruct (set_first_split (rclone.FileItem_Path (FileItem f)) negb
                (files m) f Hin eq_refl) as (l1 & g & l2 & E & Hg & Hall & ->).
    exists l1, g, l2. repeat split; try done.
    intros Hnd.
    apply (NoDup_fmap_eq (fun x => rclone.FileItem_Path (FileItem x))
             (files m)); [done| |done|done].
    rewrite E. apply elem_of_app. right. by left.
  - intros H. unfold toggleSelection.
    destruct (Z.leb_spec 0 (fileIndex (nav m)));
      destruct (Z.ltb_spec (fileIndex (nav m))
                  (Z.of_nat (length (filteredFiles m)))); try done; lia.
Qed.

Lemma set_first_lookup path flag (l : list BrowserItem) : forall j g,
  l !! j = Some g ->
  set_first path flag l !! j
  = Some (if (rclone.FileItem_Path (FileItem g) =? path)%string
             && forallb
                  (fun x =>
                     negb (rclone.FileItem_Path (FileItem x) =? path)%string)
                  (take j l)
          then {| FileItem := FileItem g; Selected := flag (Selected g) |}
          else g).
Proof.
  induction l as [|x l IH]; intros [|j] g H; try done; cbn in H |- *.
  - injection H as ->.
    destruct (_ =? _)%string; cbn; done.
  - destruct (rclone.FileItem_Path (FileItem x) =? path)%string eqn:E; cbn.
    + by rewrite H, andb_false_r.
    + by apply IH.
Qed.

Lemma forallb_FileItem (P : rclone.FileItem -> bool) (l l' : list BrowserItem) :
  FileItem <$> l = FileItem <$> l' ->
  forallb (fun x => P (FileItem x)) l = forallb (fun x => P (FileItem x)) l'.
Proof.
  revert l'. induction l as [|x l IH]; intros [|y l'] H; try done.
  cbn in H. injection H as Hxy H. cbn. by rewrite Hxy, (IH l').
Qed.

(** The second loop of selectAll, from any listing. *)
Lemma select_fold (v : bool) (shown : list BrowserItem) :
  forall (fs : list BrowserItem) (j : nat) (g : BrowserItem),
  fs !! j = Some g ->
  fold_left
    (fun fs f =>
       set_first (rclone.FileItem_Path (FileItem f)) (fun _ => v) fs)
    shown fs !! j
  = Some (if existsb
               (fun f =>
                  (rclone.FileItem_Path (FileItem g)
                   =? rclone.FileItem_Path (FileItem f))%string)
               shown
             && forallb
                  (fun x =>
                     negb (rclone.FileItem_Path (FileItem x)
                           =? rclone.FileItem_Path (FileItem g))%string)
                  (take j fs)
          then {| FileItem := FileItem g; Selected := v |}
          else g).
Proof.
  induction shown as [|f shown IH]; intros fs j g H; cbn [fold_left existsb].
  - done.
  - pose proof (set_first_lookup (rclone.FileItem_Path (FileItem f))
                  (fun _ => v) fs j g H) as H1.
    assert (forall p,
              forallb
                (fun x => negb (rclone.FileItem_Path (FileItem x) =? p)%string)
                (take j (set_first (rclone.FileItem_Path (FileItem f))
                           (fun _ => v) fs))
              = forallb
                  (fun x =>
                     negb (rclone.FileItem_Path (FileItem x) =? p)%string)
                  (take j fs)) as HF.
    { intros p.
      apply (forallb_FileItem
               (fun x => negb (rclone.FileItem_Path x =? p)%string)).
      by rewrite !fmap_take, set_first_FileItem. }
    revert H1.
    destruct (String.eqb_spec (rclone.FileItem_Path (FileItem g))
                (rclone.FileItem_Path (FileItem f))) as [E|E];
      cbn [andb orb]; intros H1.
    + assert (forallb
                (fun x =>
                   negb (rclone.FileItem_Path (FileItem x)
                         =? rclone.FileItem_Path (FileItem f))%string)
                (take j fs)
              = forallb
                  (fun x =>
                     negb (rclone.FileItem_Path (FileItem x)
                           =? rclone.FileItem_Path (FileItem g))%string)
                  (take j fs)) as EFeq by by rewrite E.
      rewrite EFeq in H1. rewrite (IH _ _ _ H1).
      destruct (forallb _ (take j fs)) eqn:EF; cbn [FileItem].
      * rewrite HF, EF. by destruct (existsb _ shown).
      * by rewrite HF, EF, !andb_false_r.
    + rewrite (IH _ _ _ H1). by rewrite HF.
Qed.

Lemma select_fold_FileItem (v : bool) (shown : list BrowserItem) :
  forall fs : list BrowserItem,
  FileItem
    <$> fold_left
          (fun fs f =>
             set_first (rclone.FileItem_Path (FileItem f)) (fun _ => v) fs)
          shown fs
  = FileItem <$> fs.
Proof.
  induction shown as [|f l IH]; intros fs; cbn [fold_left]; [done|].
  by rewrite IH, set_first_FileItem.
Qed.

Lemma NoDup_first {A B} (h : A -> B) (l : list A) (j : nat) (g : A) :
  NoDup (h <$> l) -> l !! j = Some g ->
  Forall (fun x => h x <> h g) (take j l).
Proof.
  intros Hnd Hj. apply Forall_forall. intros x Hx E.
  apply list_elem_of_lookup in Hx as [i Hi].
  apply lookup_take_Some in Hi as [Hi Hlt].
  assert ((h <$> l) !! i = Some (h x)) as H1
    by by rewrite list_lookup_fmap, Hi.
  assert ((h <$> l) !! j = Some (h x)) as H2
    by by rewrite list_lookup_fmap, Hj, E.
  pose proof (NoDup_lookup _ _ _ _ Hnd H1 H2). lia.
Qed.

(** X20: selectAll writes one value into flags and changes nothing else:
    false when every file shown is selected, true otherwise.  The value
    goes to the first file of each path that a file shown has.  When the
    paths of the listing are distinct, these are the files shown: all of
    them end with the same flag, and the hidden files keep theirs. *)
Theorem selectAll_sets_the_files_shown (m : App) :
  FileItem <$> files (selectAll m) = FileItem <$> files m
  /\ (forall j g,
        files m !! j = Some g ->
        files (selectAll m) !! j
        = Some (if existsb
                     (fun f =>
                        (rclone.FileItem_Path (FileItem g)
                         =? rclone.FileItem_Path (FileItem f))%string)
                     (filteredFiles m)
                   && forallb
                        (fun x =>
                           negb (rclone.FileItem_Path (FileItem x)
                                 =? rclone.FileItem_Path (FileItem g))%string)
                        (take j (files m))
                then {| FileItem := FileItem g;
                        Selected := negb (forallb Selected (filteredFiles m)) |}
                else g))
  /\ (NoDup ((fun x => rclone.FileItem_Path (FileItem x)) <$> files m) ->
      filteredFiles (selectAll m)
      = (fun g => {| FileItem := FileItem g;
                     Selected := negb (forallb Selected (filteredFiles m)) |})
          <$> filteredFiles m
      /\ (forall j g,
            files m !! j = Some g -> g ∉ filteredFiles m ->
            files (selectAll m) !! j = Some g))
  /\ nav (selectAll m) = nav m
  /\ queue (selectAll m) = queue m.
Proof.
  set (v := negb (forallb Selected (filteredFiles m))).
  assert (forall j g,
            files m !! j = Some g ->
            files (selectAll m) !! j
            = Some (if existsb
                         (fun f =>
                            (rclone.FileItem_Path (FileItem g)
                             =? rclone.FileItem_Path (FileItem f))%string)
                         (filteredFiles m)
                       && forallb
                            (fun x =>
                               negb (rclone.FileItem_Path (FileItem x)
                                     =? rclone.FileItem_Path (FileItem g))%string)
                            (take j (files m))
                    then {| FileItem := FileItem g; Selected := v |}
                    else g)) as Hlook.
  { intros j g Hj. unfold selectAll. cbn [files with_files].
    by apply select_fold. }
  assert (FileItem <$> files (selectAll m) = FileItem <$> files m) as HFI.
  { unfold selectAll. cbn [files with_files]. apply select_fold_FileItem. }
  split; [done|]. split; [done|]. split; [|done].
  intros Hnd.
  set (h := fun g : BrowserItem =>
              if existsb
                   (fun f =>
                      (rclone.FileItem_Path (FileItem g)
                       =? rclone.FileItem_Path (FileItem f))%string)
                   (filteredFiles m)
              then {| FileItem := FileItem g; Selected := v |} else g).
  assert (files (selectAll m) = h <$> files m) as Hmap.
  { apply list_eq. intros j. rewrite list_lookup_fmap.
    destruct (files m !! j) as [g|] eqn:Hj;
      cbn [fmap option_fmap option_map].
    - rewrite (Hlook j g Hj). unfold h.
      assert (forallb
                (fun x =>
                   negb (rclone.FileItem_Path (FileItem x)
                         =? rclone.FileItem_Path (FileItem g))%string)
                (take j (files m)) = true) as ->; [|by rewrite andb_true_r].
      apply forallb_forall. intros x Hx. apply list_elem_of_In in Hx.
      pose proof (NoDup_first _ _ _ _ Hnd Hj) as Hall.
      rewrite Forall_forall in Hall. apply Hall in Hx.
      by apply negb_true_iff, String.eqb_neq.
    - apply lookup_ge_None. apply lookup_ge_None in Hj.
      apply (f_equal length) in HFI. rewrite !length_fmap in HFI. lia. }
  assert (forall g, g ∈ files m ->
            existsb
              (fun f =>
                 (rclone.FileItem_Path (FileItem g)
                  =? rclone.FileItem_Path (FileItem f))%string)
              (filteredFiles m) = true
            -> g ∈ filteredFiles m) as Hshown.
  { intros g Hg Hex. apply existsb_exists in Hex as (f & Hf & E).
    apply list_elem_of_In in Hf. apply String.eqb_eq in E.
    assert (g = f) as ->; [|done].
    apply (NoDup_fmap_eq (fun x => rclone.FileItem_Path (FileItem x))
             (files m)); [done|done| |done].
    by apply filteredFiles_subset. }
  split.
  - rewrite !filteredFiles_filter.
    replace (files (selectAll m)) with (h <$> files m).
    replace (nav (selectAll m)) with (nav m) by done.
    remember (fun f =>
                containsIgnoreCase (rclone.FileItem_Name (FileItem f))
                  (filterText (nav m))) as P.
    assert (forall g, g ∈ files m -> P g = true ->
              h g = {| FileItem := FileItem g; Selected := v |}) as Hh.
    { intros g Hg HP. unfold h.
      assert (existsb
                (fun f =>
                   (rclone.FileItem_Path (FileItem g)
                    =? rclone.FileItem_Path (FileItem f))%string)
                (filteredFiles m) = true) as ->; [|done].
      apply existsb_exists. exists g. split; [|apply String.eqb_refl].
      rewrite filteredFiles_filter. apply filter_In.
      split; [by apply list_elem_of_In|]. by rewrite HeqP in HP. }
    assert (forall g, P (h g) = P g) as HP.
    { intros g. rewrite HeqP. unfold h. by destruct (existsb _ _). }
    clear -Hh HP. induction (files m) as [|g l IH]; [done|].
    cbn. rewrite HP.
    destruct (P g) eqn:E; cbn.
    + rewrite Hh by (by left || done). f_equal.
      apply IH. intros g' Hg'. apply Hh. by right.
    + apply IH. intros g' Hg'. apply Hh. by right.
  - intros j g Hj Hhid. rewrite Hmap, list_lookup_fmap, Hj. cbn.
    unfold h. destruct (existsb _ _) eqn:E; [|done].
    destruct Hhid. apply Hshown; [|done]. by eapply list_elem_of_lookup_2.
Qed.

End Browser.

(** ** From the selection to the queue *)

Section Queueing.

Import main.

Variable growslice : nat -> nat -> nat.

(** The first loop of addSelectedToQueue, from any queue. *)
Lemma queue_selected (remote : string) (fs : list BrowserItem) :
  forall q : queue.Queue,
  queue.wf q ->
  let q' :=
    fold_left
      (fun q f =>
         if Selected f then queue.Add growslice q remote (FileItem f) else q)
      fs q in
  queue.wf q'
  /\ (NoDup (queue.key <$> queue.elems q) ->
      NoDup (queue.key <$> queue.elems q'))
  /\ (exists ext,
        queue.elems q' = queue.elems q ++ ext
        /\ Forall (fun it =>
                     exists f, f ∈ fs /\ Selected f = true
                               /\ it = queue.newItem remote (FileItem f)) ext)
  /\ (forall r p,
        queue.Contains q' r p
        = queue.Contains q r p
          || ((remote =? r)%string
              && existsb
                   (fun f =>
                      Selected f
                      && (rclone.FileItem_Path (FileItem f) =? p)%string)
                   fs)).
Proof.
  induction fs as [|f fs IH]; intros q Hwf; cbn [fold_left existsb].
  - split; [done|]. split; [done|]. split.
    + exists []. by rewrite app_nil_r.
    + intros r p. by rewrite andb_false_r, orb_false_r.
  - destruct (Selected f) eqn:Hsel.
    + destruct (Add_spec growslice q remote (FileItem f) Hwf) as [Hwf1 He1].
      destruct (IH _ Hwf1) as (Hwf' & Hnd' & (ext & He & Hext) & HC).
      split; [done|]. split; [|split].
      * intros Hnd. apply Hnd'. rewrite He1.
        destruct (queue.Contains q remote _) eqn:E; [done|].
        rewrite fmap_app. apply NoDup_app. split; [done|]. split.
        -- intros k Hk Hk'. apply list_elem_of_singleton in Hk'. subst k.
           apply Contains_true in Hk. cbn in Hk. congruence.
        -- apply NoDup_singleton.
      * rewrite He1 in He.
        destruct (queue.Contains q remote _).
        -- exists ext. split; [done|].
           eapply Forall_impl; [exact Hext|].
           intros it (g & Hg & Hs & ->). exists g.
           split; [by right|done].
        -- exists (queue.newItem remote (FileItem f) :: ext).
           split; [by rewrite He, <- app_assoc|].
           constructor.
           ++ exists f. split; [by left|done].
           ++ eapply Forall_impl; [exact Hext|].
              intros it (g & Hg & Hs & ->). exists g.
              split; [by right|done].
      * intros r p. rewrite HC, (Contains_Add growslice) by done. cbn [andb].
        destruct (queue.Contains q r p), (remote =? r)%string,
          (rclone.FileItem_Path (FileItem f) =? p)%string; done.
    + destruct (IH _ Hwf) as (Hwf' & Hnd' & (ext & He & Hext) & HC).
      split; [done|]. split; [done|]. split.
      * exists ext. split; [done|].
        eapply Forall_impl; [exact Hext|].
        intros it (g & Hg & Hs & ->). exists g. split; [by right|done].
      * intros r p. by rewrite HC.
Qed.

(** What addSelectedToQueue does to the listing and to the queue. *)
Lemma addSelectedToQueue_spec (m : App) :
  queue.wf (queue m) ->
  FileItem <$> files (addSelectedToQueue growslice m) = FileItem <$> files m
  /\ Forall (fun f => Selected f = false)
       (files (addSelectedToQueue growslice m))
  /\ queue.wf (queue (addSelectedToQueue growslice m))
  /\ (NoDup (queue.key <$> queue.elems (queue m)) ->
      NoDup (queue.key
               <$> queue.elems (queue (addSelectedToQueue growslice m))))
  /\ (exists ext,
        queue.elems (queue (addSelectedToQueue growslice m))
        = queue.elems (queue m) ++ ext
        /\ Forall (fun it =>
                     exists f,
                       f ∈ files m /\ Selected f = true
                       /\ it = queue.newItem (currentRemote (nav m))
                                 (FileItem f)) ext)
  /\ (forall r p,
        queue.Contains (queue (addSelectedToQueue growslice m)) r p
        = queue.Contains (queue m) r p
          || ((currentRemote (nav m) =? r)%string
              && existsb
                   (fun f =>
                      Selected f
                      && (rclone.FileItem_Path (FileItem f) =? p)%string)
                   (files m)))
  /\ nav (addSelectedToQueue growslice m) = nav m.
Proof.
  intros Hwf. unfold addSelectedToQueue. cbn [files queue nav].
  destruct (queue_selected (currentRemote (nav m)) (files m) (queue m) Hwf)
    as (Hwf' & Hnd & Hext & HC).
  split; [|split]; [| |by repeat split].
  - change (map ?f ?l) with (f <$> l). rewrite <- list_fmap_compose.
    done.
  - apply Forall_forall. intros f Hf. apply list_elem_of_In in Hf.
    apply in_map_iff in Hf as (g & <- & _). done.
Qed.

(** X21: after addSelectedToQueue no file is selected and the listing is
    otherwise the same.  The queue keeps its items and gets, at the end,
    items made from selected files; exactly the selected paths of the
    current remote become contained, and keys stay distinct. *)
Theorem addSelectedToQueue_queues_the_selection (m : App) :
  queue.wf (queue m) ->
  FileItem <$> files (addSelectedToQueue growslice m) = FileItem <$> files m
  /\ Forall (fun f => Selected f = false)
       (files (addSelectedToQueue growslice m))
  /\ queue.wf (queue (addSelectedToQueue growslice m))
  /\ (NoDup (queue.key <$> queue.elems (queue m)) ->
      NoDup (queue.key
               <$> queue.elems (queue (addSelectedToQueue growslice m))))
  /\ (exists ext,
        queue.elems (queue (addSelectedToQueue growslice m))
        = queue.elems (queue m) ++ ext
        /\ Forall (fun it =>
                     exists f,
                       f ∈ files m /\ Selected f = true
                       /\ it = queue.newItem (currentRemote (nav m))
                                 (FileItem f)) ext)
  /\ (forall r p,
        queue.Contains (queue (addSelectedToQueue growslice m)) r p
        = queue.Contains (queue m) r p
          || ((currentRemote (nav m) =? r)%string
              && existsb
                   (fun f =>
                      Selected f
                      && (rclone.FileItem_Path (FileItem f) =? p)%string)
                   (files m)))
  /\ nav (addSelectedToQueue growslice m) = nav m.
Proof. apply addSelectedToQueue_spec. Qed.

End Queueing.

(** X21 on a listing of two files, the second selected, and the empty
    queue. *)
Lemma addSelectedToQueue_queues_the_selection_witness :
  let file name :=
    {| rclone.FileItem_Name := name; rclone.FileItem_Path := name;
       rclone.FileItem_Size := 1; rclone.FileItem_IsDir := false;
       rclone.FileItem_ModTime := "" |} in
  let m :=
    {| main.nav :=
         {| main.state := main.StateFileBrowser;
            main.currentRemote := "remote"; main.currentPath := "";
            main.pathStack := []; main.fileIndex := 0;
            main.filterMode := false; main.filterInput := "";
            main.filterText := ""; main.loading := false |};
       main.remotes := ["remote"]; main.selectedIndex := 0;
       main.files :=
         [{| main.FileItem := file "a"; main.Selected := false |};
          {| main.FileItem := file "b"; main.Selected := true |}];
       main.queue := queue.New; main.transferMgr := None;
       main.err := None |} in
  queue.wf (main.queue m)
  /\ queue.elems (main.queue (main.addSelectedToQueue queue.double_cap m))
     = [queue.newItem "remote" (file "b")]
  /\ main.Selected <$> main.files (main.addSelectedToQueue queue.double_cap m)
     = [false; false]
  /\ Forall (fun f => main.Selected f = false)
       (main.files (main.addSelectedToQueue queue.double_cap m)).
Proof.
  cbv zeta. split; [apply wf_New|].
  split; [vm_compute; reflexivity|]. split; [vm_compute; reflexivity|].
  refine (proj1 (proj2
            (addSelectedToQueue_queues_the_selection queue.double_cap _ _))).
  apply wf_New.
Defined.

(** ** From the queue to the transfers *)

Section Transfers.

Import rclone.

Lemma transferID_inj (i j : nat) : main.transferID i = main.transferID j -> i = j.
Proof.
  unfold main.transferID. intros H. apply string_app_inj in H.
  apply (inj pretty) in H. lia.
Qed.

Lemma status_of_Start mgr id now id' :
  status_of (Start mgr id now) id'
  = if decide (id = id') then (fun _ => StatusInProgress) <$> status_of mgr id'
    else status_of mgr id'.
Proof. apply (status_of_call mgr (CallStart id now)). Qed.

Lemma status_of_Complete mgr id now id' :
  status_of (Complete mgr id now) id'
  = if decide (id = id') then (fun _ => StatusCompleted) <$> status_of mgr id'
    else status_of mgr id'.
Proof. apply (status_of_call mgr (CallComplete id now)). Qed.

Lemma status_of_Fail mgr id err now id' :
  status_of (Fail mgr id err now) id'
  = if decide (id = id') then (fun _ => StatusFailed) <$> status_of mgr id'
    else status_of mgr id'.
Proof. apply (status_of_call mgr (CallFail id err now)). Qed.

(** The status a transfer is left in by CopyFile. *)
Lemma CopyFile_status mgr id (p : Process) (started finished : Time) :
  exists err mgr',
    CopyFile mgr id p started finished = Some (err, mgr')
    /\ forall id',
         status_of mgr' id'
         = if decide (id = id')
           then (fun s => match p with
                          | PipeFailed _ => s
                          | Exited _ None => StatusCompleted
                          | _ => StatusFailed
                          end) <$> status_of mgr id'
           else status_of mgr id'.
Proof.
  destruct p as [e|e|stderr err]; cbn [CopyFile].
  - eexists _, _. split; [done|]. intros id'.
    destruct (decide _); [|done]. by destruct (status_of mgr id').
  - eexists _, _. split; [done|]. intros id'.
    rewrite status_of_Fail, status_of_Start.
    destruct (decide _); [|done]. by destruct (status_of mgr id').
  - destruct (parseRcloneOutput_frame stderr id (Start mgr id started))
      as (mgr1 & -> & _ & P & _).
    destruct err as [e|]; eexists _, _; (split; [done|]); intros id'.
    + rewrite status_of_Fail, P, status_of_Start.
      destruct (decide _); [|done]. by destruct (status_of mgr id').
    + rewrite status_of_Complete, P, status_of_Start.
      destruct (decide _); [|done]. by destruct (status_of mgr id').
Qed.

(** The loop of startDownloads: the transfers registered, and the others. *)
Lemma addTransfers_Get (cwd : string) (items : list queue.Item) :
  forall (i : nat) mgr,
  (forall id, (forall j, items !! j = None \/ id <> main.transferID (i + j)) ->
     Get (main.addTransfers mgr cwd i items) id = Get mgr id)
  /\ (forall j item, items !! j = Some item ->
        Get (main.addTransfers mgr cwd i items) (main.transferID (i + j))
        = Some {| ID := main.transferID (i + j);
                  Source := (queue.Remote item ++ ":" ++ queue.Path item)%string;
                  Destination := cwd; Status := StatusPending;
                  Progress := Float64.zero; BytesCopied := 0;
                  BytesTotal := queue.Size item; Speed := "";
                  StartTime := 0; EndTime := 0; Error := None |}).
Proof.
  induction items as [|item items IH]; intros i mgr; cbn [main.addTransfers].
  - split; [done|]. intros j it Hj. by rewrite lookup_nil in Hj.
  - destruct (IH (S i)
                (Add mgr (main.transferID i)
                   (queue.Remote item ++ ":" ++ queue.Path item) cwd
                   (queue.Size item))) as [H1 H2].
    split.
    + intros id Hid. rewrite H1.
      * unfold Get, Add. cbn. rewrite lookup_insert_ne; [done|].
        destruct (Hid 0%nat) as [?|Hne]; [done|].
        rewrite Nat.add_0_r in Hne. congruence.
      * intros j. destruct (Hid (S j)) as [?|Hne]; [by left|].
        right. by rewrite Nat.add_succ_comm.
    + intros [|j] it Hj.
      * cbn in Hj. injection Hj as <-. rewrite Nat.add_0_r.
        rewrite H1.
        -- unfold Get, Add. cbn. by rewrite lookup_insert_eq.
        -- intros j. right. intros E. apply transferID_inj in E. lia.
      * cbn in Hj. rewrite <- Nat.add_succ_comm. by apply H2.
Qed.

(** The loop of runTransfers: it ends, and leaves each transfer it has
    reached in the status CopyFile gives it. *)
Lemma copyFiles_status (cancelled : nat -> bool)
    (run : nat -> Process * Time * Time) (items : list queue.Item) :
  forall (i : nat) mgr,
  exists mgr',
    main.copyFiles mgr cancelled run i items = Some mgr'
    /\ (forall id,
          (forall j, (j < length items)%nat -> id <> main.transferID (i + j)) ->
          status_of mgr' id = status_of mgr id)
    /\ (forall j, (j < length items)%nat ->
          status_of mgr' (main.transferID (i + j))
          = if existsb cancelled (seq i (S j))
            then status_of mgr (main.transferID (i + j))
            else (fun s => match (run (i + j)%nat).1.1 with
                           | PipeFailed _ => s
                           | Exited _ None => StatusCompleted
                           | _ => StatusFailed
                           end) <$> status_of mgr (main.transferID (i + j))).
Proof.
  induction items as [|item items IH]; intros i mgr; cbn [main.copyFiles].
  - exists mgr. split; [done|]. split; [done|]. cbn. lia.
  - destruct (cancelled i) eqn:Ec.
    + exists mgr. split; [done|]. split; [done|].
      intros j Hj. cbn [seq existsb]. by rewrite Ec.
    + destruct (run i) as [[p started] finished] eqn:Er.
      destruct (CopyFile_status mgr (main.transferID i) p started finished)
        as (err & mgr1 & -> & HS).
      destruct (IH (S i) mgr1) as (mgr' & -> & H1 & H2).
      exists mgr'. split; [done|]. split.
      * intros id Hid. rewrite H1.
        -- rewrite HS. destruct (decide _) as [<-|]; [|done].
           destruct (Hid 0%nat); [cbn; lia|]. by rewrite Nat.add_0_r.
        -- intros j Hj. rewrite Nat.add_succ_comm. apply Hid. cbn. lia.
      * intros [|j] Hj.
        -- rewrite Nat.add_0_r. cbn [seq existsb]. rewrite Ec. cbn [orb].
           rewrite H1.
           ++ rewrite HS. rewrite decide_True by done. by rewrite Er.
           ++ intros j Hj' E. apply transferID_inj in E. lia.
        -- cbn in Hj. rewrite <- Nat.add_succ_comm.
           rewrite H2 by lia. rewrite HS.
           rewrite decide_False
             by (intros E; apply transferID_inj in E; lia).
           cbn [seq existsb]. by rewrite Ec.
Qed.

Lemma addTransfers_Stats (cwd : string) (items : list queue.Item) :
  forall (i : nat) mgr (p a c f : Z),
  (forall j, (i <= j)%nat -> Get mgr (main.transferID j) = None) ->
  Stats mgr = (p, a, c, f) ->
  Stats (main.addTransfers mgr cwd i items)
  = (p + Z.of_nat (length items), a, c, f).
Proof.
  induction items as [|item items IH]; intros i mgr p a c f Hfresh HS;
    cbn [main.addTransfers length].
  - rewrite HS. f_equal. f_equal. f_equal. lia.
  - rewrite (IH (S i) _ (p + 1) a c f).
    + f_equal. f_equal. f_equal. lia.
    + intros j Hj. unfold Get, Add. cbn.
      rewrite lookup_insert_ne
        by (intros E; apply transferID_inj in E; lia).
      apply Hfresh. lia.
    + destruct mgr as [tm]. unfold Add. cbn [transfers].
      rewrite Stats_insert_fresh by (apply (Hfresh i); lia).
      by rewrite HS.
Qed.

(** X22: startDownloads registers one Pending transfer per queue item,
    under the IDs transfer_0, transfer_1, ..., with the item's remote and
    path as source and its size as total.  runTransfers then ends, and
    leaves each transfer Completed or Failed as its process ended, except
    that a transfer whose pipe could not be made, and every transfer from
    the first one found cancelled on, stays Pending.  So the test of the
    transfer view, no transfer pending or in progress, holds afterwards
    exactly when nothing was cancelled and every pipe could be made. *)
Theorem transfers_end_unless_cancelled (cwd : string) (m : main.App)
    (cancelled : nat -> bool) (run : nat -> Process * Time * Time) :
  queue.wf (main.queue m) ->
  exists mgr0,
    main.transferMgr (main.startDownloads cwd m) = Some mgr0
    /\ queue.wf (main.queue (main.startDownloads cwd m))
    /\ queue.elems (main.queue (main.startDownloads cwd m))
       = queue.elems (main.queue m)
    /\ (forall j item,
          queue.elems (main.queue m) !! j = Some item ->
          Get mgr0 (main.transferID j)
          = Some {| ID := main.transferID j;
                    Source :=
                      (queue.Remote item ++ ":" ++ queue.Path item)%string;
                    Destination := cwd; Status := StatusPending;
                    Progress := Float64.zero; BytesCopied := 0;
                    BytesTotal := queue.Size item; Speed := "";
                    StartTime := 0; EndTime := 0; Error := None |})
    /\ Stats mgr0
       = (Z.of_nat (length (queue.elems (main.queue m))), 0, 0, 0)
    /\ exists q' mgr',
         main.runTransfers (main.queue (main.startDownloads cwd m)) mgr0
           cancelled run
         = Some (q', mgr')
         /\ queue.elems q' = queue.elems (main.queue m)
         /\ (forall j,
               (j < length (queue.elems (main.queue m)))%nat ->
               status_of mgr' (main.transferID j)
               = Some (if existsb cancelled (seq 0 (S j)) then StatusPending
                       else match (run j).1.1 with
                            | PipeFailed _ => StatusPending
                            | Exited _ None => StatusCompleted
                            | _ => StatusFailed
                            end))
         /\ (((Stats mgr').1.1.1 = 0 /\ (Stats mgr').1.1.2 = 0)
             <-> forall j,
                   (j < length (queue.elems (main.queue m)))%nat ->
                   cancelled j = false
                   /\ forall e, (run j).1.1 <> PipeFailed e).
Proof.
  intros Hwf. set (items := queue.elems (main.queue m)).
  unfold main.startDownloads. rewrite (Items_spec _ Hwf).
  cbn [main.transferMgr main.queue]. fold items.
  set (q1 := {| queue.heap := queue.heap (main.queue m) ++ [items];
                queue.items := queue.items (main.queue m) |}).
  assert (queue.read (queue.heap q1)
            {| queue.base := length (queue.heap (main.queue m));
               queue.off := 0;
               queue.len := queue.len (queue.items (main.queue m)) |}
          = items) as Hread.
  { unfold queue.read, queue.backing. cbn.
    rewrite lookup_snoc_new. cbn. rewrite drop_0.
    apply take_ge. unfold items. by rewrite wf_elems_length. }
  rewrite Hread.
  set (mgr0 := main.addTransfers NewTransferManager cwd 0 items).
  assert (queue.wf q1) as Hwf1.
  { pose proof (wf_call (fun _ _ => 0%nat) _ queue.CallItems Hwf) as H.
    cbn [queue.call] in H. by rewrite (Items_spec _ Hwf) in H. }
  assert (queue.elems q1 = items) as He1.
  { pose proof (elems_Items _ Hwf) as H.
    by rewrite (Items_spec _ Hwf) in H. }
  destruct (addTransfers_Get cwd items 0 NewTransferManager) as [HG1 HG2].
  exists mgr0. split; [done|]. split; [done|]. split; [done|].
  split; [intros j item Hj; by apply (HG2 j)|].
  split.
  { apply (addTransfers_Stats cwd items 0 NewTransferManager 0 0 0 0);
      [|done].
    intros j _. unfold Get. cbn. apply lookup_empty. }
  unfold main.runTransfers. rewrite (Items_spec _ Hwf1).
  assert (queue.read (queue.heap q1 ++ [queue.elems q1])
            {| queue.base := length (queue.heap q1); queue.off := 0;
               queue.len := queue.len (queue.items q1) |}
          = items) as Hread1.
  { unfold queue.read, queue.backing. cbn [queue.base queue.off queue.len].
    rewrite lookup_snoc_new. cbn [default]. rewrite drop_0, He1.
    apply take_ge. rewrite <- He1. by rewrite wf_elems_length. }
  cbn [queue.heap]. rewrite Hread1.
  destruct (copyFiles_status cancelled run items 0 mgr0)
    as (mgr' & -> & HS1 & HS2).
  eexists _, mgr'. split; [done|].
  assert (forall j, (j < length items)%nat ->
            status_of mgr0 (main.transferID j) = Some StatusPending) as H0.
  { intros j Hj. apply lookup_lt_is_Some in Hj as [item Hitem].
    pose proof (HG2 j item Hitem) as HG. cbn [Nat.add] in HG.
    unfold Get in HG. unfold status_of, mgr0. by rewrite HG. }
  assert (forall j,
            (j < length items)%nat ->
            status_of mgr' (main.transferID j)
            = Some (if existsb cancelled (seq 0 (S j)) then StatusPending
                    else match (run j).1.1 with
                         | PipeFailed _ => StatusPending
                         | Exited _ None => StatusCompleted
                         | _ => StatusFailed
                         end)) as Hfinal.
  { intros j Hj. pose proof (HS2 j Hj) as HS. cbn [Nat.add] in HS.
    rewrite HS, (H0 j Hj).
    destruct (existsb _ _); [done|]. cbn.
    by destruct ((run j).1.1) as [?|?|? [?|]]. }
  split.
  { pose proof (elems_Items _ Hwf1) as H.
    rewrite (Items_spec _ Hwf1) in H. etrans; [exact H|exact He1]. }
  split; [done|].
  rewrite Stats_done_iff. split.
  - intros Hdone j Hj.
    pose proof (Hfinal j Hj) as Hs.
    destruct (existsb cancelled (seq 0 (S j))) eqn:Ec;
      unfold status_of in Hs;
      (destruct (transfers mgr' !! main.transferID j) as [t|] eqn:Ht;
       [|done]);
      cbn [fmap option_fmap option_map] in Hs; injection Hs as Hs;
      apply Hdone in Ht; [destruct Ht; congruence|].
    split.
    + destruct (cancelled j) eqn:Ecj; [|done].
      assert (existsb cancelled (seq 0 (S j)) = true); [|congruence].
      apply existsb_exists. exists j. split; [apply in_seq; lia|done].
    + intros e He. rewrite He in Hs. destruct Ht; congruence.
  - intros Hall id t Ht.
    destruct (decide (id ∈ main.transferID <$> seq 0 (length items)))
      as [Hin|Hnin].
    + apply list_elem_of_fmap in Hin as (j & -> & Hj).
      apply list_elem_of_In, in_seq in Hj.
      pose proof (Hfinal j ltac:(lia)) as Hs.
      assert (existsb cancelled (seq 0 (S j)) = false) as Ec.
      { apply not_true_is_false. intros Hex.
        apply existsb_exists in Hex as (k & Hk & Hck).
        apply in_seq in Hk. destruct (Hall k ltac:(lia)). congruence. }
      rewrite Ec in Hs. unfold status_of in Hs.
      unfold Get in Ht. rewrite Ht in Hs.
      cbn [fmap option_fmap option_map] in Hs. injection Hs as Hs.
      destruct (Hall j ltac:(lia)) as [_ Hp].
      rewrite Hs. destruct ((run j).1.1) as [e|?|? [?|]]; auto.
      by destruct (Hp e).
    + assert (status_of mgr' id = status_of mgr0 id) as Hs.
      { apply HS1. intros j Hj ->. apply Hnin.
        apply list_elem_of_fmap. exists j. split; [done|].
        apply list_elem_of_In, in_seq. lia. }
      assert (Get mgr0 id = None) as Hn.
      { unfold mgr0. rewrite HG1; [apply lookup_empty|].
        intros j. destruct (items !! j) eqn:Hj; [|by left]. right.
        intros ->. apply Hnin. apply list_elem_of_fmap. exists j.
        split; [done|]. apply list_elem_of_In, in_seq.
        apply lookup_lt_Some in Hj. lia. }
      unfold status_of in Hs. unfold Get in Ht, Hn.
      rewrite Ht, Hn in Hs. done.
Qed.

End Transfers.

(** X22 on a queue of two files whose processes end without error and a
    context that is never cancelled: afterwards no transfer is pending or
    in progress. *)
Lemma transfers_end_unless_cancelled_witness :
  let file name :=
    {| rclone.FileItem_Name := name; rclone.FileItem_Path := name;
       rclone.FileItem_Size := 1; rclone.FileItem_IsDir := false;
       rclone.FileItem_ModTime := "" |} in
  let m :=
    main.with_queue main.NewModel
      (queue.adds queue.double_cap queue.New
         [("remote", file "a"); ("remote", file "b")]) in
  let run := fun _ : nat => (rclone.Exited [] None, 1, 2) in
  queue.wf (main.queue m)
  /\ exists mgr0,
       main.transferMgr (main.startDownloads "." m) = Some mgr0
       /\ rclone.Stats mgr0 = (2, 0, 0, 0)
       /\ exists q' mgr',
            main.runTransfers (main.queue (main.startDownloads "." m)) mgr0
              (fun _ => false) run
            = Some (q', mgr')
            /\ (rclone.Stats mgr').1.1.1 = 0
            /\ (rclone.Stats mgr').1.1.2 = 0.
Proof.
  cbv zeta.
  assert (queue.wf
            (main.queue
               (main.with_queue main.NewModel
                  (queue.adds queue.double_cap queue.New
                     [("remote",
                       {| rclone.FileItem_Name := "a";
                          rclone.FileItem_Path := "a";
                          rclone.FileItem_Size := 1;
                          rclone.FileItem_IsDir := false;
                          rclone.FileItem_ModTime := "" |});
                      ("remote",
                       {| rclone.FileItem_Name := "b";
                          rclone.FileItem_Path := "b";
                          rclone.FileItem_Size := 1;
                          rclone.FileItem_IsDir := false;
                          rclone.FileItem_ModTime := "" |})]))))
    as Hwf.
  { eexists. split; [vm_compute; reflexivity | vm_compute; lia]. }
  split; [exact Hwf|].
  destruct (transfers_end_unless_cancelled "." _ (fun _ => false)
              (fun _ : nat => (rclone.Exited [] None, 1, 2)) Hwf)
    as (mgr0 & H0 & _ & _ & _ & HS & q' & mgr' & Hrun & _ & _ & Hdone).
  exists mgr0. split; [exact H0|]. split; [exact HS|].
  exists q', mgr'. split; [exact Hrun|].
  apply Hdone. intros j _. split; [reflexivity|]. intros e. discriminate.
Defined.

(** ** The message loop *)

Section Loop.

Import main.

Variable growslice : nat -> nat -> nat.
Variable cwd : string.

Lemma index_in_range {A} (l : list A) (i : Z) :
  0 <= i < Z.of_nat (length l) -> exists x, index l i = Some x.
Proof.
  intros H. unfold index. destruct (Z.leb_spec 0 i); [|lia].
  apply lookup_lt_is_Some. lia.
Qed.

Lemma updateRemoteSelect_ok (m : App) (key : string) :
  cursor_ok m -> state (nav m) = StateRemoteSelect ->
  exists m' cmd, updateRemoteSelect m key = Some (m', cmd) /\ cursor_ok m'.
Proof.
  intros (Hwf & H0 & Hc) Hst. rewrite Hst in Hc. unfold updateRemoteSelect.
  destruct (Matches key (Up DefaultKeyMap)).
  { eexists _, _. split; [done|].
    destruct (Z.ltb_spec 0 (selectedIndex m));
      unfold cursor_ok; cbn; rewrite Hst; (split; [done|]); split; lia. }
  destruct (Matches key (Down DefaultKeyMap)).
  { eexists _, _. split; [done|].
    destruct (Z.ltb_spec (selectedIndex m)
                (Z.of_nat (length (remotes m)) - 1));
      unfold cursor_ok; cbn; rewrite Hst; (split; [done|]); split; lia. }
  destruct (Matches key (Enter DefaultKeyMap)
            || Matches key (Right DefaultKeyMap)).
  { destruct (Nat.ltb_spec 0 (length (remotes m))).
    - destruct (index_in_range (remotes m) (selectedIndex m)) as [r ->];
        [lia|].
      eexists _, _. split; [done|]. unfold cursor_ok. cbn. done.
    - eexists _, _. split; [done|]. unfold cursor_ok. by rewrite Hst. }
  destruct (key =? "q")%string;
    (eexists _, _; split; [done|]; unfold cursor_ok; by rewrite Hst).
Qed.

Lemma Len_Items (q : queue.Queue) :
  queue.wf q ->
  queue.wf (queue.Items q).2
  /\ queue.Len (queue.Items q).2 = queue.Len q
  /\ queue.len (queue.Items q).1 = queue.len (queue.items q)
  /\ queue.elems (queue.Items q).2 = queue.elems q.
Proof.
  intros Hwf. split_and!.
  - apply (wf_call (fun _ _ => 0%nat) q queue.CallItems Hwf).
  - by rewrite (Items_spec q Hwf).
  - by rewrite (Items_spec q Hwf).
  - by apply elems_Items.
Qed.

Lemma updateQueueView_ok (m : App) (key : string) :
  cursor_ok m -> state (nav m) = StateQueueView ->
  exists m' cmd,
    updateQueueView growslice cwd m key = Some (m', cmd) /\ cursor_ok m'.
Proof.
  intros (Hwf & H0 & Hc) Hst. rewrite Hst in Hc. unfold updateQueueView.
  destruct (Len_Items (queue m) Hwf) as (Hwf1 & HL & Hl & He).
  destruct (queue.Items (queue m)) as [items q] eqn:EI.
  cbn [fst snd] in *. cbn [selectedIndex with_queue nav].
  assert (Z.of_nat (queue.len items) = queue.Len (queue m)) as Hn
    by (unfold queue.Len; by rewrite Hl).
  destruct (Matches key (Up DefaultKeyMap)).
  { eexists _, _. split; [done|].
    destruct (Z.ltb_spec 0 (selectedIndex m));
      unfold cursor_ok; cbn; rewrite Hst, ?HL; (split; [done|]); split; lia. }
  destruct (Matches key (Down DefaultKeyMap)).
  { eexists _, _. split; [done|].
    destruct (Z.ltb_spec (selectedIndex m) (Z.of_nat (queue.len items) - 1));
      unfold cursor_ok; cbn; rewrite Hst, ?HL; (split; [done|]); split; lia. }
  destruct (Matches key (Remove DefaultKeyMap)).
  { eexists _, _. split; [done|].
    destruct (Nat.ltb_spec 0 (queue.len items)).
    - assert (0 <= selectedIndex m < Z.of_nat (queue.len (queue.items q)))
        as Hr by (unfold queue.Len in *; lia).
      destruct (Remove_in_range growslice q (selectedIndex m) Hwf1 Hr)
        as [Hwf2 He2].
      assert (queue.Len (queue.Remove growslice q (selectedIndex m))
              = queue.Len (queue m) - 1) as HL2.
      { unfold queue.Len at 1. rewrite <- wf_elems_length by done.
        rewrite He2, length_app, length_take, length_drop.
        rewrite wf_elems_length by done. unfold queue.Len in *. lia. }
      cbn [selectedIndex with_queue].
      destruct (Z.leb_spec
                  (queue.Len (queue.Remove growslice q (selectedIndex m)))
                  (selectedIndex m));
        destruct (Z.ltb_spec 0 (selectedIndex m)); cbn [andb];
        unfold cursor_ok; cbn; rewrite Hst, HL2; (split; [done|]);
        split; lia.
    - unfold cursor_ok. cbn. rewrite Hst, HL. done. }
  destruct (Matches key (Escape DefaultKeyMap)).
  { eexists _, _. split; [done|]. unfold cursor_ok. cbn. done. }
  destruct (Matches key (Start DefaultKeyMap) || (key =? "s")%string).
  { destruct (Z.ltb_spec 0 (queue.Len q)).
    - eexists _, _. split; [done|].
      unfold cursor_ok, startDownloads. cbn [queue with_nav with_queue].
      destruct (Len_Items q Hwf1) as (Hwf2 & _).
      destruct (queue.Items q) as [items2 q2]. cbn. done.
    - eexists _, _. split; [done|].
      unfold cursor_ok. cbn. rewrite Hst, HL. done. }
  eexists _, _. split; [done|]. unfold cursor_ok. cbn. rewrite Hst, HL. done.
Qed.

Lemma updateTransferView_ok (m : App) (key : string) :
  cursor_ok m -> state (nav m) = StateTransferView ->
  exists m' cmd, updateTransferView m key = Some (m', cmd) /\ cursor_ok m'.
Proof.
  intros (Hwf & H0 & Hc) Hst. unfold updateTransferView.
  assert (cursor_ok m) as Hok by (unfold cursor_ok; by rewrite Hst).
  destruct (transferMgr m) as [mgr|]; [|by eexists _, _].
  destruct (rclone.Stats mgr) as [[[pending inProgress] c] f].
  destruct ((pending =? 0) && (inProgress =? 0)); [|by eexists _, _].
  destruct (Matches key (Enter DefaultKeyMap)).
  { eexists _, _. split; [done|]. unfold cursor_ok. cbn.
    split; [|done].
    apply (wf_call (fun _ _ => 0%nat) (queue m) queue.CallClear Hwf). }
  destruct (key =? "q")%string; by eexists _, _.
Qed.

Lemma toggleSelection_frame (m : App) :
  nav (toggleSelection m) = nav m
  /\ queue (toggleSelection m) = queue m
  /\ selectedIndex (toggleSelection m) = selectedIndex m
  /\ remotes (toggleSelection m) = remotes m
  /\ transferMgr (toggleSelection m) = transferMgr m
  /\ err (toggleSelection m) = err m.
Proof.
  unfold toggleSelection. destruct (_ && _); [|done].
  by destruct (filteredFiles m !! _).
Qed.

Lemma goBack_state (n : Model) :
  state (goBack n).2 = state n
  /\ currentRemote (goBack n).2 = currentRemote n.
Proof. unfold goBack. by destruct (_ <? _)%nat. Qed.

Lemma updateFileBrowser_ok (m : App) (key typed : string) :
  cursor_ok m -> state (nav m) = StateFileBrowser ->
  exists m' cmd,
    updateFileBrowser growslice m key typed = Some (m', cmd) /\ cursor_ok m'.
Proof.
  intros (Hwf & H0 & Hc) Hst.
  assert (forall n fs,
            state n = StateFileBrowser ->
            cursor_ok
              {| nav := n; remotes := remotes m;
                 selectedIndex := selectedIndex m; files := fs;
                 queue := queue m; transferMgr := transferMgr m;
                 err := err m |}) as Hsame.
  { intros n fs Hn. unfold cursor_ok. cbn. by rewrite Hn. }
  assert (cursor_ok m) as Hok by (destruct m; by apply Hsame).
  unfold updateFileBrowser. cbv zeta.
  destruct (filterMode (nav m)).
  { destruct (Matches key (Escape DefaultKeyMap));
      [|destruct (key =? "enter")%string];
      (eexists _, _; split; [done|]; by apply Hsame). }
  destruct (Matches key (Up DefaultKeyMap)).
  { eexists _, _. split; [done|].
    destruct (0 <? fileIndex (nav m)); [by apply Hsame|done]. }
  destruct (Matches key (Down DefaultKeyMap)).
  { eexists _, _. split; [done|].
    destruct (fileIndex (nav m) <? _); [by apply Hsame|done]. }
  destruct (Matches key (Enter DefaultKeyMap)
            || Matches key (Right DefaultKeyMap)).
  { destruct (Z.leb_spec 0 (fileIndex (nav m)));
      destruct (Z.ltb_spec (fileIndex (nav m))
                  (Z.of_nat (length (filteredFiles m)))); cbn [andb];
      try by eexists _, _.
    destruct (index_in_range (filteredFiles m) (fileIndex (nav m)))
      as [f ->]; [lia|].
    destruct (rclone.FileItem_IsDir (FileItem f)).
    - eexists _, _. split; [done|]. by apply Hsame.
    - eexists _, _. split; [done|]. unfold cursor_ok. cbn. rewrite Hst.
      split; [|done]. by apply Add_spec. }
  destruct (Matches key (Left DefaultKeyMap)
            || Matches key (Back DefaultKeyMap)).
  { destruct (goBack_state (nav m)) as [Hs _].
    destruct (goBack (nav m)) as [[|] n'] eqn:Eg; cbn [snd] in Hs.
    - eexists _, _. split; [done|]. apply Hsame. cbn. congruence.
    - eexists _, _. split; [done|]. unfold cursor_ok. cbn.
      split; [done|]. split; [lia|by right]. }
  destruct (Matches key (Select DefaultKeyMap)).
  { eexists _, _. split; [done|].
    destruct (_ && _); [|done].
    destruct (toggleSelection_frame m) as (E1 & E2 & E3 & _).
    unfold cursor_ok. by rewrite E1, E2, E3, Hst. }
  destruct (Matches key (SelectAll DefaultKeyMap)).
  { eexists _, _. split; [done|]. by apply Hsame. }
  destruct (Matches key (Filter DefaultKeyMap)).
  { eexists _, _. split; [done|]. by apply Hsame. }
  destruct (Matches key (Escape DefaultKeyMap)).
  { eexists _, _. split; [done|].
    destruct (negb _); [by apply Hsame|done]. }
  destruct (Matches key (Refresh DefaultKeyMap)).
  { eexists _, _. split; [done|]. by apply Hsame. }
  destruct (key =? "q")%string; [|by eexists _, _].
  eexists _, _. split; [done|].
  destruct (queue_selected growslice (currentRemote (nav m)) (files m)
              (queue m) Hwf) as (Hwf' & _).
  destruct (0 <? _).
  - unfold cursor_ok. cbn. split; [done|]. split; [lia|by right].
  - unfold cursor_ok. cbn. by rewrite Hst.
Qed.

(** Update keeps [cursor_ok] and does not panic under it. *)
Lemma Update_ok_aux (m : App) (msg : Msg)
    (typed : string) :
  cursor_ok m ->
  (forall rs e, msg = remotesLoadedMsg rs e -> remotes m = []) ->
  exists m' cmd,
    Update growslice cwd m msg typed = Some (m', cmd) /\ cursor_ok m'.
Proof.
  intros Hok Hrs. pose proof Hok as (Hwf & H0 & Hc).
  assert (forall n rs fs e,
            state n = state (nav m) -> rs = remotes m ->
            cursor_ok
              {| nav := n; remotes := rs;
                 selectedIndex := selectedIndex m; files := fs;
                 queue := queue m; transferMgr := transferMgr m;
                 err := e |}) as Hsame.
  { intros n rs fs e Hn ->. unfold cursor_ok. cbn. by rewrite Hn. }
  destruct msg as [w h|key| | |rs e|fs e| |]; cbn [Update];
    try by eexists _, _.
  - destruct (Matches key (Quit DefaultKeyMap)); [by eexists _, _|].
    destruct (err m).
    { eexists _, _. split; [done|]. by apply Hsame. }
    destruct (state (nav m)) eqn:Hst.
    + by apply updateRemoteSelect_ok.
    + by apply updateFileBrowser_ok.
    + by apply updateQueueView_ok.
    + by apply updateTransferView_ok.
  - destruct e as [e|].
    + eexists _, _. split; [done|]. by apply Hsame.
    + eexists _, _. split; [done|]. unfold cursor_ok. cbn.
      split; [done|]. split; [done|].
      rewrite (Hrs rs None eq_refl) in Hc. cbn in Hc.
      destruct (state (nav m)); try done. right. lia.
  - destruct e as [e|].
    + eexists _, _. split; [done|]. by apply Hsame.
    + eexists _, _. split; [done|]. by apply Hsame.
  - destruct (state (nav m)), (transferMgr m); by eexists _, _.
Qed.

(** X23: Update never panics, and keeps the cursor on an entry.  When the
    cursor of the view points at an entry of the list shown (or is 0) and
    the queue's slice is within its array, every message is handled without
    an index out of range, and the same holds afterwards, whatever the key
    and whatever the text input makes of it.  The list of remotes is
    expected once, while none is known. *)
Theorem Update_keeps_the_cursor_in_range (m : App) (msg : Msg)
    (typed : string) :
  cursor_ok m ->
  (forall rs e, msg = remotesLoadedMsg rs e -> remotes m = []) ->
  exists m' cmd,
    Update growslice cwd m msg typed = Some (m', cmd) /\ cursor_ok m'.
Proof. apply Update_ok_aux. Qed.

Lemma Matches_single (key k : string) :
  Matches key [k] = true <-> key = k.
Proof.
  unfold Matches. cbn. rewrite orb_false_r. apply String.eqb_eq.
Qed.

(** X24: while the filter is being typed, the keys belong to the text
    input.  In filter mode every key but ctrl+c (with no error shown) stays
    in the browser and leaves the remote, the path, the back-stack, the
    listing, the selection, the queue and the transfers alone; it never
    quits.  It moves the cursor to the top and either ends the filter mode,
    esc dropping the filter and enter keeping what the input holds, or
    makes the text of the input the filter. *)
Theorem filter_mode_captures_the_keys (m : App) (key typed : string) :
  state (nav m) = StateFileBrowser ->
  filterMode (nav m) = true ->
  err m = None ->
  Matches key (Quit DefaultKeyMap) = false ->
  exists n' cmd,
    Update growslice cwd m (KeyMsg key) typed = Some (with_nav m n', cmd)
    /\ cmd <> CmdQuit
    /\ state n' = StateFileBrowser
    /\ currentRemote n' = currentRemote (nav m)
    /\ currentPath n' = currentPath (nav m)
    /\ pathStack n' = pathStack (nav m)
    /\ loading n' = loading (nav m)
    /\ fileIndex n' = 0
    /\ (key = "esc" ->
        filterMode n' = false /\ filterText n' = "" /\ filterInput n' = "")
    /\ (key = "enter" ->
        filterMode n' = false /\ filterText n' = filterInput (nav m)
        /\ filterInput n' = filterInput (nav m))
    /\ (key <> "esc" -> key <> "enter" ->
        filterMode n' = true /\ filterText n' = typed
        /\ filterInput n' = typed).
Proof.
  intros Hst Hf He Hq. cbn [Update]. rewrite Hq, He, Hst.
  unfold updateFileBrowser. cbv zeta. rewrite Hf.
  destruct (Matches key (Escape DefaultKeyMap)) eqn:Eesc.
  { apply Matches_single in Eesc as ->.
    eexists _, _. split; [done|]. cbn. by split_and!. }
  assert (key <> "esc") as Hne.
  { intros ->. by vm_compute in Eesc. }
  destruct (String.eqb_spec key "enter") as [->|Hne'].
  { eexists _, _. split; [done|]. cbn. by split_and!. }
  eexists _, _. split; [done|]. cbn. by split_and!.
Qed.

(** X25: the transfer view is left only when all is done.  While a
    transfer is Pending or InProgress, no key but ctrl+c does anything.
    Once every transfer is Completed or Failed, enter goes back to the
    browser with the queue emptied and the manager dropped, and q quits;
    any other key still does nothing. *)
Theorem transfer_view_is_left_when_all_is_done (m : App)
    (mgr : rclone.TransferManager) (key typed : string) :
  state (nav m) = StateTransferView ->
  err m = None ->
  transferMgr m = Some mgr ->
  Matches key (Quit DefaultKeyMap) = false ->
  ((exists id t,
      rclone.Get mgr id = Some t
      /\ (rclone.Status t = rclone.StatusPending
          \/ rclone.Status t = rclone.StatusInProgress)) ->
   Update growslice cwd m (KeyMsg key) typed = Some (m, CmdNone))
  /\ ((forall id t,
         rclone.Get mgr id = Some t ->
         rclone.Status t = rclone.StatusCompleted
         \/ rclone.Status t = rclone.StatusFailed) ->
      exists m' cmd,
        Update growslice cwd m (KeyMsg key) typed = Some (m', cmd)
        /\ (key = "enter" ->
            cmd = CmdNone
            /\ state (nav m') = StateFileBrowser
            /\ queue.elems (queue m') = []
            /\ transferMgr m' = None
            /\ files m' = files m
            /\ currentPath (nav m') = currentPath (nav m))
        /\ (key = "q" -> cmd = CmdQuit /\ m' = m)
        /\ (key <> "enter" -> key <> "q" -> cmd = CmdNone /\ m' = m)).
Proof.
  intros Hst He Hmgr Hq. cbn [Update]. rewrite Hq, He, Hst.
  unfold updateTransferView. rewrite Hmgr.
  pose proof (Stats_done_iff mgr) as Hdone.
  destruct (rclone.Stats mgr) as [[[pending inProgress] c] f].
  cbn [fst snd] in Hdone.
  split.
  - intros (id & t & Ht & Hs).
    destruct (Z.eqb_spec pending 0) as [Hp|]; [|done].
    destruct (Z.eqb_spec inProgress 0) as [Hi|]; [|done].
    destruct (proj1 Hdone (conj Hp Hi) id t Ht) as [E|E], Hs as [E'|E'];
      congruence.
  - intros Hall. apply Hdone in Hall as [-> ->]. cbn [Z.eqb andb].
    destruct (Matches key (Enter DefaultKeyMap)) eqn:Eent.
    { apply Matches_single in Eent as ->.
      eexists _, _. split; [done|]. split; [|by split].
      intros _. cbn. by split_and!. }
    assert (key <> "enter") as Hne.
    { intros ->. by vm_compute in Eent. }
    destruct (String.eqb_spec key "q") as [->|Hne'];
      eexists _, _; (split; [done|]); by split_and!.
Qed.

Lemma goBack_enterDirectory (n : Model) (dir : string) :
  goBack (enterDirectory n dir)
  = (true,
     {| state := state n; currentRemote := currentRemote n;
        currentPath := currentPath n; pathStack := pathStack n;
        fileIndex := 0; filterMode := filterMode n; filterInput := "";
        filterText := ""; loading := loading n |}).
Proof.
  unfold goBack, enterDirectory. cbn.
  rewrite length_app. cbn.
  replace (length (pathStack n) + 1 - 1)%nat with (length (pathStack n))
    by lia.
  rewrite lookup_snoc_new, take_app_length. cbn.
  by rewrite Nat.add_1_r.
Qed.

(** X26: in the browser, enter on a directory asks for the listing of the
    path ListFiles gave that directory, and makes it the current path; the
    backspace key then asks for the listing of the path left, and is back
    at it with the back-stack as before, the cursor at the top and no
    filter.  Neither key touches the listing held or the queue. *)
Theorem entering_and_leaving_a_directory (m : App) (f : BrowserItem)
    (items : list rclone.FileItem) (typed typed' : string) :
  state (nav m) = StateFileBrowser ->
  filterMode (nav m) = false ->
  err m = None ->
  0 <= fileIndex (nav m) ->
  filteredFiles m !! Z.to_nat (fileIndex (nav m)) = Some f ->
  rclone.FileItem_IsDir (FileItem f) = true ->
  FileItem <$> files m
  = (rclone.ListFiles (currentRemote (nav m)) (currentPath (nav m))
       (rclone.LsjsonItems items)).1 ->
  exists m1 m2,
    Update growslice cwd m (KeyMsg "enter") typed
    = Some (m1, CmdLoadFiles (currentRemote (nav m))
                  (rclone.FileItem_Path (FileItem f)))
    /\ currentPath (nav m1) = rclone.FileItem_Path (FileItem f)
    /\ pathStack (nav m1) = pathStack (nav m) ++ [currentPath (nav m)]
    /\ loading (nav m1) = true
    /\ files m1 = files m /\ queue m1 = queue m
    /\ Update growslice cwd m1 (KeyMsg "backspace") typed'
       = Some (m2, CmdLoadFiles (currentRemote (nav m))
                     (currentPath (nav m)))
    /\ nav m2
       = {| state := StateFileBrowser;
            currentRemote := currentRemote (nav m);
            currentPath := currentPath (nav m);
            pathStack := pathStack (nav m);
            fileIndex := 0; filterMode := false; filterInput := "";
            filterText := ""; loading := true |}
    /\ files m2 = files m /\ queue m2 = queue m.
Proof.
  intros Hst Hf He H0 Hsel Hdir Hlist.
  assert (rclone.FileItem_Path (FileItem f)
          = if (currentPath (nav m) =? "")%string
            then rclone.FileItem_Name (FileItem f)
            else (currentPath (nav m) ++ "/"
                  ++ rclone.FileItem_Name (FileItem f))%string) as Hpath.
  { assert (FileItem f ∈ FileItem <$> files m) as Hin.
    { apply list_elem_of_fmap_2, filteredFiles_subset.
      by eapply list_elem_of_lookup_2. }
    rewrite Hlist in Hin. cbn [rclone.ListFiles fst] in Hin.
    apply list_elem_of_In, in_map_iff in Hin as (it & <- & _). done. }
  apply lookup_lt_Some in Hsel as Hlt.
  assert (index (filteredFiles m) (fileIndex (nav m)) = Some f) as Hidx.
  { unfold index. by destruct (Z.leb_spec 0 (fileIndex (nav m))); [|lia]. }
  eexists _, _. split.
  { cbn [Update]. rewrite He, Hst.
    replace (Matches "enter" (Quit DefaultKeyMap)) with false by done.
    unfold updateFileBrowser. cbv zeta. rewrite Hf.
    replace (Matches "enter" (Up DefaultKeyMap)) with false by done.
    replace (Matches "enter" (Down DefaultKeyMap)) with false by done.
    replace (Matches "enter" (Enter DefaultKeyMap)) with true by done.
    cbn [orb].
    destruct (Z.leb_spec 0 (fileIndex (nav m))); [|lia].
    destruct (Z.ltb_spec (fileIndex (nav m))
                (Z.of_nat (length (filteredFiles m)))); [|lia].
    cbn [andb]. rewrite Hidx, Hdir. cbn [currentRemote currentPath
      with_loading enterDirectory]. by rewrite <- Hpath. }
  cbn [nav with_nav with_loading currentPath pathStack loading files queue
       enterDirectory].
  split; [by rewrite <- Hpath|]. split; [done|]. split; [done|].
  split; [done|]. split; [done|].
  split.
  { cbn [Update err with_nav nav state with_loading enterDirectory].
    rewrite He, Hst.
    replace (Matches "backspace" (Quit DefaultKeyMap)) with false by done.
    unfold updateFileBrowser. cbv zeta.
    cbn [nav with_nav filterMode with_loading enterDirectory]. rewrite Hf.
    replace (Matches "backspace" (Up DefaultKeyMap)) with false by done.
    replace (Matches "backspace" (Down DefaultKeyMap)) with false by done.
    replace (Matches "backspace" (Enter DefaultKeyMap)) with false by done.
    replace (Matches "backspace" (Right DefaultKeyMap)) with false by done.
    replace (Matches "backspace" (Left DefaultKeyMap)) with true by done.
    cbn [orb].
    change (with_loading
              (enterDirectory (nav m) (rclone.FileItem_Name (FileItem f)))
              true)
      with (enterDirectory (with_loading (nav m) true)
              (rclone.FileItem_Name (FileItem f))).
    rewrite goBack_enterDirectory. cbn. done. }
  cbn. by rewrite Hst, Hf.
Qed.

(** X28: in the queue view the remove key takes out the item under the
    cursor and no other.  The cursor keeps its position, so that it is on
    the item that followed, and steps back by one only when the last item
    was removed and another is left. *)
Theorem remove_key_removes_the_selected_item (m : App) (key typed : string) :
  cursor_ok m ->
  state (nav m) = StateQueueView ->
  err m = None ->
  queue.elems (queue m) <> [] ->
  key = "d" \/ key = "x" ->
  exists m',
    Update growslice cwd m (KeyMsg key) typed = Some (m', CmdNone)
    /\ queue.elems (queue m')
       = take (Z.to_nat (selectedIndex m)) (queue.elems (queue m))
         ++ drop (S (Z.to_nat (selectedIndex m))) (queue.elems (queue m))
    /\ selectedIndex m'
       = (if (selectedIndex m =? queue.Len (queue m) - 1)
             && (0 <? selectedIndex m)
          then selectedIndex m - 1 else selectedIndex m)
    /\ nav m' = nav m /\ files m' = files m
    /\ cursor_ok m'.
Proof.
  intros Hok Hst He Hne Hkey.
  destruct (Update_ok_aux m (KeyMsg key) typed Hok) as (m' & cmd & HU & Hok');
    [done|].
  pose proof Hok as (Hwf & H0 & Hc). rewrite Hst in Hc.
  pose proof (Len_length _ Hwf) as HLen.
  assert (0 < queue.Len (queue m)) as Hpos.
  { rewrite HLen. destruct (queue.elems (queue m)); [done|]. cbn. lia. }
  pose proof HU as HU0. cbn [Update] in HU.
  replace (Matches key (Quit DefaultKeyMap)) with false in HU
    by (by destruct Hkey as [-> | ->]).
  rewrite He, Hst in HU. unfold updateQueueView in HU.
  destruct (Len_Items (queue m) Hwf) as (Hwf1 & HL & Hl & He1).
  destruct (queue.Items (queue m)) as [items q] eqn:EI.
  cbn [fst snd] in *. cbn [selectedIndex with_queue nav] in HU.
  replace (Matches key (Up DefaultKeyMap)) with false in HU
    by (by destruct Hkey as [-> | ->]).
  replace (Matches key (Down DefaultKeyMap)) with false in HU
    by (by destruct Hkey as [-> | ->]).
  replace (Matches key (Remove DefaultKeyMap)) with true in HU
    by (by destruct Hkey as [-> | ->]).
  assert (Z.of_nat (queue.len items) = queue.Len (queue m)) as Hn
    by (unfold queue.Len; by rewrite Hl).
  destruct (Nat.ltb_spec 0 (queue.len items)); [|lia].
  assert (0 <= selectedIndex m < Z.of_nat (queue.len (queue.items q)))
    as Hr by (unfold queue.Len in *; lia).
  destruct (Remove_in_range growslice q (selectedIndex m) Hwf1 Hr)
    as [Hwf2 He2].
  assert (queue.Len (queue.Remove growslice q (selectedIndex m))
          = queue.Len (queue m) - 1) as HL2.
  { unfold queue.Len at 1. rewrite <- wf_elems_length by done.
    rewrite He2, length_app, length_take, length_drop.
    rewrite wf_elems_length by done. unfold queue.Len in *. lia. }
  rewrite HL2 in HU. rewrite He1 in He2.
  exists m'.
  destruct (Z.leb_spec (queue.Len (queue m) - 1) (selectedIndex m));
    destruct (Z.ltb_spec 0 (selectedIndex m)); cbn [andb] in HU;
    injection HU as <- <-; (split; [exact HU0|]); cbn;
    (split; [done|]); (split; [|done]).
  - by destruct (Z.eqb_spec (selectedIndex m) (queue.Len (queue m) - 1));
      [|lia].
  - destruct (Z.eqb_spec (selectedIndex m) (queue.Len (queue m) - 1));
      [by rewrite andb_false_r|done].
  - by destruct (Z.eqb_spec (selectedIndex m) (queue.Len (queue m) - 1));
      [lia|].
  - by destruct (Z.eqb_spec (selectedIndex m) (queue.Len (queue m) - 1));
      [lia|].
Qed.

(** X29: in the browser, outside filter mode, q queues the selection.
    Every selected file is in the queue afterwards and no file is selected
    any more; the queue view opens, with the cursor on its first item,
    exactly when the queue is not empty, as it is when a file was
    selected.  The key never quits here. *)
Theorem q_queues_the_selection (m : App) (typed : string) :
  cursor_ok m ->
  state (nav m) = StateFileBrowser ->
  filterMode (nav m) = false ->
  err m = None ->
  exists m',
    Update growslice cwd m (KeyMsg "q") typed = Some (m', CmdNone)
    /\ Forall (fun f => Selected f = false) (files m')
    /\ FileItem <$> files m' = FileItem <$> files m
    /\ (forall f, f ∈ files m -> Selected f = true ->
          queue.Contains (queue m') (currentRemote (nav m))
            (rclone.FileItem_Path (FileItem f)) = true)
    /\ (exists ext, queue.elems (queue m') = queue.elems (queue m) ++ ext)
    /\ (state (nav m') = StateQueueView /\ selectedIndex m' = 0
        \/ state (nav m') = StateFileBrowser
           /\ selectedIndex m' = selectedIndex m)
    /\ (state (nav m') = StateQueueView
        <-> queue.elems (queue m') <> [])
    /\ ((exists f, f ∈ files m /\ Selected f = true) ->
        state (nav m') = StateQueueView).
Proof.
  intros Hok Hst Hf He. pose proof Hok as (Hwf & _).
  destruct (addSelectedToQueue_spec growslice m Hwf)
    as (HFI & Hsel & Hwf' & _ & (ext & Hext & _) & HC & Hnav).
  pose proof (Len_length _ Hwf') as HLen.
  assert (forall f, f ∈ files m -> Selected f = true ->
            queue.Contains (queue (addSelectedToQueue growslice m))
              (currentRemote (nav m))
              (rclone.FileItem_Path (FileItem f)) = true) as Hin.
  { intros f Hfin Hs. rewrite HC, String.eqb_refl. cbn [andb].
    apply orb_true_iff. right. apply existsb_exists. exists f.
    split; [by apply list_elem_of_In|].
    by rewrite Hs, String.eqb_refl. }
  eexists. split.
  { cbn [Update]. rewrite He, Hst.
    replace (Matches "q" (Quit DefaultKeyMap)) with false by done.
    unfold updateFileBrowser. cbv zeta. rewrite Hf.
    replace (Matches "q" (Up DefaultKeyMap)) with false by done.
    replace (Matches "q" (Down DefaultKeyMap)) with false by done.
    replace (Matches "q" (Enter DefaultKeyMap)) with false by done.
    replace (Matches "q" (Right DefaultKeyMap)) with false by done.
    replace (Matches "q" (Left DefaultKeyMap)) with false by done.
    replace (Matches "q" (Back DefaultKeyMap)) with false by done.
    replace (Matches "q" (Select DefaultKeyMap)) with false by done.
    replace (Matches "q" (SelectAll DefaultKeyMap)) with false by done.
    replace (Matches "q" (Filter DefaultKeyMap)) with false by done.
    replace (Matches "q" (Escape DefaultKeyMap)) with false by done.
    replace (Matches "q" (Refresh DefaultKeyMap)) with false by done.
    cbn [orb]. replace ("q" =? "q")%string with true by done. done. }
  assert (queue.elems (queue (addSelectedToQueue growslice m)) <> []
          <-> 0 < queue.Len (queue (addSelectedToQueue growslice m))) as Hpos.
  { rewrite HLen.
    destruct (queue.elems (queue (addSelectedToQueue growslice m)));
      cbn; split; (done || lia). }
  destruct (Z.ltb_spec 0
              (queue.Len (queue (addSelectedToQueue growslice m))))
    as [Hlt|Hge].
  - cbn [files queue nav with_selectedIndex with_nav with_state state
         selectedIndex].
    split; [done|]. split; [done|]. split; [done|].
    split; [by exists ext|]. split; [by left|].
    split; [split; [intros _; by apply Hpos|done]|done].
  - rewrite Hnav, Hst.
    split; [done|]. split; [done|]. split; [done|].
    split; [by exists ext|]. split; [by right|].
    split.
    + split; [done|]. intros Hne. apply Hpos in Hne. lia.
    + intros (f & Hfin & Hs). specialize (Hin f Hfin Hs).
      apply Contains_true in Hin.
      assert (queue.elems (queue (addSelectedToQueue growslice m)) <> [])
        as Hne.
      { intros E. rewrite E in Hin. by apply elem_of_nil in Hin. }
      apply Hpos in Hne. lia.
Qed.

End Loop.

(** X23 on the new model and the message that brings the remotes. *)
Lemma Update_keeps_the_cursor_in_range_witness :
  let msg := main.remotesLoadedMsg ["gdrive"; "s3"] None in
  main.cursor_ok main.NewModel
  /\ (forall rs e, msg = main.remotesLoadedMsg rs e ->
        main.remotes main.NewModel = [])
  /\ exists m' cmd,
       main.Update queue.double_cap "." main.NewModel msg "" = Some (m', cmd)
       /\ main.cursor_ok m'.
Proof.
  cbv zeta.
  assert (main.cursor_ok main.NewModel) as Hok.
  { split; [apply wf_New|]. cbn. split; [lia|by right]. }
  assert (forall rs e,
            main.remotesLoadedMsg ["gdrive"; "s3"] None
            = main.remotesLoadedMsg rs e ->
            main.remotes main.NewModel = []) as Hrs by reflexivity.
  split; [exact Hok|]. split; [exact Hrs|].
  exact (Update_keeps_the_cursor_in_range queue.double_cap "." _ _ "" Hok Hrs).
Defined.

(** X24 on the key q, typed into the filter of a browser. *)
Lemma filter_mode_captures_the_keys_witness :
  let m :=
    main.with_nav main.NewModel
      {| main.state := main.StateFileBrowser;
         main.currentRemote := "gdrive"; main.currentPath := "docs";
         main.pathStack := [""]; main.fileIndex := 3;
         main.filterMode := true; main.filterInput := "";
         main.filterText := ""; main.loading := false |} in
  (main.state (main.nav m) = main.StateFileBrowser
   /\ main.filterMode (main.nav m) = true
   /\ main.err m = None
   /\ main.Matches "q" (main.Quit main.DefaultKeyMap) = false)
  /\ exists n' cmd,
       main.Update queue.double_cap "." m (main.KeyMsg "q") "q"
       = Some (main.with_nav m n', cmd)
       /\ cmd <> main.CmdQuit
       /\ main.state n' = main.StateFileBrowser
       /\ main.fileIndex n' = 0
       /\ main.filterText n' = "q".
Proof.
  cbv zeta. split; [by split_and!|].
  destruct (filter_mode_captures_the_keys queue.double_cap "."
              (main.with_nav main.NewModel
                 {| main.state := main.StateFileBrowser;
                    main.currentRemote := "gdrive";
                    main.currentPath := "docs";
                    main.pathStack := [""]; main.fileIndex := 3;
                    main.filterMode := true; main.filterInput := "";
                    main.filterText := ""; main.loading := false |})
              "q" "q" eq_refl eq_refl eq_refl eq_refl)
    as (n' & cmd & HU & Hc & Hs & _ & _ & _ & _ & Hi & _ & _ & Ht).
  exists n', cmd. split; [exact HU|]. split; [exact Hc|].
  split; [exact Hs|]. split; [exact Hi|].
  apply Ht; discriminate.
Defined.

(** X25 on a transfer view whose one transfer is completed, and enter. *)
Lemma transfer_view_is_left_when_all_is_done_witness :
  let mgr :=
    rclone.Complete
      (rclone.Start (rclone.Add rclone.NewTransferManager "transfer_0"
                       "gdrive:a" "." 10) "transfer_0" 1)
      "transfer_0" 2 in
  let m :=
    {| main.nav :=
         {| main.state := main.StateTransferView;
            main.currentRemote := "gdrive"; main.currentPath := "";
            main.pathStack := []; main.fileIndex := 0;
            main.filterMode := false; main.filterInput := "";
            main.filterText := ""; main.loading := false |};
       main.remotes := ["gdrive"]; main.selectedIndex := 0;
       main.files := []; main.queue := queue.New;
       main.transferMgr := Some mgr; main.err := None |} in
  (main.state (main.nav m) = main.StateTransferView
   /\ main.err m = None
   /\ main.transferMgr m = Some mgr
   /\ main.Matches "enter" (main.Quit main.DefaultKeyMap) = false
   /\ (forall id t,
         rclone.Get mgr id = Some t ->
         rclone.Status t = rclone.StatusCompleted
         \/ rclone.Status t = rclone.StatusFailed))
  /\ exists m' cmd,
       main.Update queue.double_cap "." m (main.KeyMsg "enter") ""
       = Some (m', cmd)
       /\ cmd = main.CmdNone
       /\ main.state (main.nav m') = main.StateFileBrowser
       /\ queue.elems (main.queue m') = []
       /\ main.transferMgr m' = None.
Proof.
  cbv zeta.
  set (mgr := rclone.Complete _ _ _).
  assert (forall id t,
            rclone.Get mgr id = Some t ->
            rclone.Status t = rclone.StatusCompleted
            \/ rclone.Status t = rclone.StatusFailed) as Hall.
  { intros id t Ht. unfold mgr, rclone.Get in Ht.
    destruct (decide (id = "transfer_0")) as [->|Hne].
    - vm_compute in Ht. injection Ht as <-. by left.
    - unfold rclone.Complete, rclone.Start, rclone.Add in Ht. cbn in Ht.
      rewrite lookup_insert_eq in Ht. cbn in Ht.
      rewrite lookup_insert_eq in Ht. cbn in Ht.
      rewrite !lookup_insert_ne, lookup_empty in Ht by done. done. }
  split; [by split_and!|].
  destruct (proj2 (transfer_view_is_left_when_all_is_done queue.double_cap
                     "."
                     {| main.nav :=
                          {| main.state := main.StateTransferView;
                             main.currentRemote := "gdrive";
                             main.currentPath := "";
                             main.pathStack := []; main.fileIndex := 0;
                             main.filterMode := false;
                             main.filterInput := "";
                             main.filterText := "";
                             main.loading := false |};
                        main.remotes := ["gdrive"];
                        main.selectedIndex := 0;
                        main.files := []; main.queue := queue.New;
                        main.transferMgr := Some mgr; main.err := None |}
                     mgr "enter" "" eq_refl eq_refl eq_refl eq_refl) Hall)
    as (m' & cmd & HU & Henter & _).
  destruct (Henter eq_refl) as (Hc & Hs & Hq & Hm & _).
  exists m', cmd. by split_and!.
Defined.

(** X26 on the listing of the root of a remote, with the cursor on its one
    directory. *)
Lemma entering_and_leaving_a_directory_witness :
  let dir :=
    {| rclone.FileItem_Name := "docs"; rclone.FileItem_Path := "docs";
       rclone.FileItem_Size := 0; rclone.FileItem_IsDir := true;
       rclone.FileItem_ModTime := "" |} in
  let f := {| main.FileItem := dir; main.Selected := false |} in
  let m :=
    {| main.nav :=
         {| main.state := main.StateFileBrowser;
            main.currentRemote := "gdrive"; main.currentPath := "";
            main.pathStack := []; main.fileIndex := 0;
            main.filterMode := false; main.filterInput := "";
            main.filterText := ""; main.loading := false |};
       main.remotes := ["gdrive"]; main.selectedIndex := 0;
       main.files := [f]; main.queue := queue.New;
       main.transferMgr := None; main.err := None |} in
  (main.filteredFiles m !! Z.to_nat (main.fileIndex (main.nav m)) = Some f
   /\ main.FileItem <$> main.files m
      = (rclone.ListFiles "gdrive" "" (rclone.LsjsonItems [dir])).1)
  /\ exists m1 m2,
       main.Update queue.double_cap "." m (main.KeyMsg "enter") ""
       = Some (m1, main.CmdLoadFiles "gdrive" "docs")
       /\ main.Update queue.double_cap "." m1 (main.KeyMsg "backspace") ""
          = Some (m2, main.CmdLoadFiles "gdrive" "")
       /\ main.currentPath (main.nav m2) = "".
Proof.
  cbv zeta. split; [by split|].
  destruct (entering_and_leaving_a_directory queue.double_cap "."
              {| main.nav :=
                   {| main.state := main.StateFileBrowser;
                      main.currentRemote := "gdrive";
                      main.currentPath := "";
                      main.pathStack := []; main.fileIndex := 0;
                      main.filterMode := false; main.filterInput := "";
                      main.filterText := ""; main.loading := false |};
                 main.remotes := ["gdrive"]; main.selectedIndex := 0;
                 main.files :=
                   [{| main.FileItem :=
                         {| rclone.FileItem_Name := "docs";
                            rclone.FileItem_Path := "docs";
                            rclone.FileItem_Size := 0;
                            rclone.FileItem_IsDir := true;
                            rclone.FileItem_ModTime := "" |};
                       main.Selected := false |}];
                 main.queue := queue.New;
                 main.transferMgr := None; main.err := None |}
              _
              [{| rclone.FileItem_Name := "docs";
                  rclone.FileItem_Path := "docs";
                  rclone.FileItem_Size := 0; rclone.FileItem_IsDir := true;
                  rclone.FileItem_ModTime := "" |}]
              "" "" eq_refl eq_refl eq_refl ltac:(cbn; lia) eq_refl eq_refl
              eq_refl)
    as (m1 & m2 & H1 & _ & _ & _ & _ & _ & H2 & Hn & _).
  exists m1, m2. split; [exact H1|]. split; [exact H2|]. by rewrite Hn.
Defined.

(** X28 on a queue of two items with the cursor on the second. *)
Lemma remove_key_removes_the_selected_item_witness :
  let file name :=
    {| rclone.FileItem_Name := name; rclone.FileItem_Path := name;
       rclone.FileItem_Size := 1; rclone.FileItem_IsDir := false;
       rclone.FileItem_ModTime := "" |} in
  let m :=
    {| main.nav :=
         {| main.state := main.StateQueueView;
            main.currentRemote := "gdrive"; main.currentPath := "";
            main.pathStack := []; main.fileIndex := 0;
            main.filterMode := false; main.filterInput := "";
            main.filterText := ""; main.loading := false |};
       main.remotes := ["gdrive"]; main.selectedIndex := 1;
       main.files := [];
       main.queue :=
         queue.adds queue.double_cap queue.New
           [("gdrive", file "a"); ("gdrive", file "b")];
       main.transferMgr := None; main.err := None |} in
  (main.cursor_ok m /\ queue.elems (main.queue m) <> [])
  /\ exists m',
       main.Update queue.double_cap "." m (main.KeyMsg "d") ""
       = Some (m', main.CmdNone)
       /\ queue.elems (main.queue m') = [queue.newItem "gdrive" (file "a")]
       /\ main.selectedIndex m' = 0.
Proof.
  cbv zeta.
  set (m := {| main.nav := _; main.remotes := _; main.selectedIndex := 1;
               main.files := _; main.queue := _; main.transferMgr := _;
               main.err := _ |}).
  assert (main.cursor_ok m) as Hok.
  { split; [|split].
    - eexists. split; [vm_compute; reflexivity | vm_compute; lia].
    - vm_compute. discriminate.
    - left. vm_compute. reflexivity. }
  assert (queue.elems (main.queue m) <> []) as Hne
    by (vm_compute; discriminate).
  split; [by split|].
  destruct (remove_key_removes_the_selected_item queue.double_cap "." m "d"
              "" Hok eq_refl eq_refl Hne (or_introl eq_refl))
    as (m' & HU & He & Hs & _).
  exists m'. split; [exact HU|]. split.
  - rewrite He. vm_compute. reflexivity.
  - rewrite Hs. vm_compute. reflexivity.
Defined.

(** X29 on a browser with one file, selected, and an empty queue. *)
Lemma q_queues_the_selection_witness :
  let file :=
    {| rclone.FileItem_Name := "a"; rclone.FileItem_Path := "docs/a";
       rclone.FileItem_Size := 1; rclone.FileItem_IsDir := false;
       rclone.FileItem_ModTime := "" |} in
  let m :=
    {| main.nav :=
         {| main.state := main.StateFileBrowser;
            main.currentRemote := "gdrive"; main.currentPath := "docs";
            main.pathStack := [""]; main.fileIndex := 0;
            main.filterMode := false; main.filterInput := "";
            main.filterText := ""; main.loading := false |};
       main.remotes := ["gdrive"]; main.selectedIndex := 0;
       main.files := [{| main.FileItem := file; main.Selected := true |}];
       main.queue := queue.New;
       main.transferMgr := None; main.err := None |} in
  main.cursor_ok m
  /\ exists m',
       main.Update queue.double_cap "." m (main.KeyMsg "q") ""
       = Some (m', main.CmdNone)
       /\ main.state (main.nav m') = main.StateQueueView
       /\ queue.Contains (main.queue m') "gdrive" "docs/a" = true.
Proof.
  cbv zeta.
  set (m := {| main.nav := _; main.remotes := _; main.selectedIndex := 0;
               main.files := _; main.queue := _; main.transferMgr := _;
               main.err := _ |}).
  assert (main.cursor_ok m) as Hok.
  { split; [apply wf_New|]. cbn. split; [lia|done]. }
  split; [exact Hok|].
  destruct (q_queues_the_selection queue.double_cap "." m "" Hok eq_refl
              eq_refl eq_refl)
    as (m' & HU & _ & _ & HC & _ & _ & _ & Hq).
  exists m'. split; [exact HU|]. split.
  - apply Hq. eexists. split; [by left|done].
  - apply (HC {| main.FileItem :=
                   {| rclone.FileItem_Name := "a";
                      rclone.FileItem_Path := "docs/a";
                      rclone.FileItem_Size := 1;
                      rclone.FileItem_IsDir := false;
                      rclone.FileItem_ModTime := "" |};
                 main.Selected := true |}); [by left|done].
Defined.
